(** * Pressure projection (floris/simulation/pressure_projection.py)

    A shallow embedding of the [PressureField] class.  NumPy arrays are
    row-major buffers with an explicit shape; Python floats are idealised
    as exact rationals ([Qc]), so rounding, infinities and NaN are outside
    the model; the object [self] is a record threaded through the methods,
    and a raised exception keeps the mutations made before it. *)

From Stdlib Require Import List ZArith QArith Qcanon Lia Bool Arith PeanoNat.
Import ListNotations.

Open Scope Qc_scope.

(** ** Scalars *)

Definition flt (z : Z) : Qc := Q2Qc (inject_Z z).

Definition Qcltb (a b : Qc) : bool :=
  match a ?= b with Lt => true | _ => false end.

Definition Qcleb (a b : Qc) : bool :=
  match a ?= b with Gt => false | _ => true end.

Definition Qcabs (a : Qc) : Qc := if Qcltb a 0 then - a else a.

(** The literal [1e-8]. *)
Definition tol_1e8 : Qc := Q2Qc (1 # 100000000).

(** ** Exceptions *)

Inductive exn : Type :=
| IndexError
| ValueError
| AssertionError
| AttributeError.

Inductive res (A : Type) : Type :=
| Ok (a : A)
| Raise (e : exn).
Arguments Ok {A} a.
Arguments Raise {A} e.

Definition rbind {A B} (m : res A) (k : A -> res B) : res B :=
  match m with
  | Ok a => k a
  | Raise e => Raise e
  end.

Notation "'let?' x ':=' m 'in' k" := (rbind m (fun x => k))
  (at level 10, x name, m at level 100, k at level 200).
Notation "'let?' ' p ':=' m 'in' k" := (rbind m (fun x => match x with p => k end))
  (at level 10, p pattern, m at level 100, k at level 200).

Definition py_assert (b : bool) : res unit :=
  if b then Ok tt else Raise AssertionError.

(** Python index normalisation for an axis of length [n]: [-n <= i < n]. *)
Definition norm_index (n : nat) (i : Z) : res nat :=
  if ((0 <=? i) && (i <? Z.of_nat n))%Z then Ok (Z.to_nat i)
  else if ((- Z.of_nat n <=? i) && (i <? 0))%Z then Ok (Z.to_nat (Z.of_nat n + i))
  else Raise IndexError.

(** ** One-dimensional arrays *)

Definition vec := list Qc.

Definition vget (v : vec) (i : Z) : res Qc :=
  let? n := norm_index (length v) i in Ok (nth n v 0).

(** [np.diff] *)
Fixpoint np_diff (v : vec) : vec :=
  match v with
  | a :: ((b :: _) as t) => (b - a) :: np_diff t
  | _ => []
  end.

Definition np_ones (n : nat) : vec := repeat 1 n.
Definition np_zeros (n : nat) : vec := repeat 0 n.

Definition vsubs (v : vec) (c : Qc) : vec := map (fun a => a - c) v.
Definition vdivs (v : vec) (c : Qc) : vec := map (fun a => a / c) v.
Definition vmuls (c : Qc) (v : vec) : vec := map (fun a => c * a) v.
Definition vabs (v : vec) : vec := map Qcabs v.
Definition vlts (v : vec) (c : Qc) : list bool := map (fun a => Qcltb a c) v.

(** Broadcasting of one axis: equal lengths, or one of them is 1. *)
Definition bdim (a b : nat) : option nat :=
  if a =? b then Some a
  else if a =? 1 then Some b
  else if b =? 1 then Some a
  else None.

(** One-sided broadcasting, for assignments: [s] fits a target axis [t]. *)
Definition fits (t s : nat) : bool := (s =? t) || (s =? 1).

Definition bidx (n i : nat) : nat := if n =? 1 then O else i.

Definition vsub (a b : vec) : res vec :=
  match bdim (length a) (length b) with
  | Some n => Ok (map (fun i => nth (bidx (length a) i) a 0
                                - nth (bidx (length b) i) b 0) (seq 0 n))
  | None => Raise ValueError
  end.

(** [np.max] of a boolean array; an empty array has no maximum. *)
Definition np_max_bool (l : list bool) : res bool :=
  match l with
  | [] => Raise ValueError
  | _ => Ok (existsb (fun b => b) l)
  end.

(** [np.argmin]: the first index of the minimum. *)
Fixpoint argmin_from (best : Qc) (ibest i : nat) (v : vec) : nat :=
  match v with
  | [] => ibest
  | a :: t => if Qcltb a best then argmin_from a i (S i) t
              else argmin_from best ibest (S i) t
  end.

Definition np_argmin (v : vec) : res nat :=
  match v with
  | [] => Raise ValueError
  | a :: t => Ok (argmin_from a 0%nat 1%nat t)
  end.

(** [v[:-k]] *)
Definition upto_neg (k : nat) (v : vec) : vec :=
  match k with
  | O => []
  | _ => firstn (length v - k) v
  end.

(** Bounds of the Python slice [a:b] on an axis of length [n]. *)
Definition clamp (n : nat) (i : Z) : nat :=
  if (i <? 0)%Z then Z.to_nat (Z.max 0 (Z.of_nat n + i))
  else Nat.min n (Z.to_nat i).

Definition map_idx (f : nat -> Qc -> Qc) (v : vec) : vec :=
  map (fun i => f i (nth i v 0)) (seq 0 (length v)).

(** [v[a:b] -= c] *)
Definition slice_isub (a b : Z) (c : Qc) (v : vec) : vec :=
  let lo := clamp (length v) a in
  let hi := clamp (length v) b in
  map_idx (fun i e => if (lo <=? i) && (i <? hi) then e - c else e) v.

(** [v[start::step] -= c] for a non-negative start. *)
Definition stride_isub (start step : nat) (c : Qc) (v : vec) : res vec :=
  match step with
  | O => Raise ValueError
  | _ => Ok (map_idx (fun i e =>
               if (start <=? i) && ((i - start) mod step =? 0) then e - c else e) v)
  end.

(** [range(start, stop, step)] for non-negative arguments. *)
Definition py_range (start stop step : nat) : res (list nat) :=
  match step with
  | O => Raise ValueError
  | _ => Ok (map (fun t => (start + t * step)%nat)
                 (seq 0 ((stop - start + step - 1) / step)))
  end.

(** ** Two- and three-dimensional arrays

    An [ndarray] of rank 2 or 3 is its shape and its C-contiguous buffer.
    Every NumPy operation the module uses is given by the shape of its
    result and the entry at each index. *)

Record arr2 : Type := mk2 { shape2 : nat * nat; buf2 : vec }.
Record arr3 : Type := mk3 { shape3 : nat * nat * nat; buf3 : vec }.

Definition size3 (sh : nat * nat * nat) : nat :=
  let '(nx, ny, nz) := sh in (nx * ny * nz)%nat.

Definition wf3 (a : arr3) : Prop := length (buf3 a) = size3 (shape3 a).

Definition at2 (a : arr2) (i j : nat) : Qc :=
  nth (i * snd (shape2 a) + j) (buf2 a) 0.

Definition at3 (a : arr3) (i j k : nat) : Qc :=
  let '(_, ny, nz) := shape3 a in
  nth ((i * ny + j) * nz + k) (buf3 a) 0.

Definition tab2 (sh : nat * nat) (f : nat -> nat -> Qc) : arr2 :=
  let '(m, n) := sh in
  mk2 sh (map (fun t => f (t / n) (t mod n))%nat (seq 0 (m * n))).

Definition tab3 (sh : nat * nat * nat) (f : nat -> nat -> nat -> Qc) : arr3 :=
  let '(nx, ny, nz) := sh in
  mk3 sh (map (fun t => f (t / (ny * nz)) ((t / nz) mod ny) (t mod nz))%nat
              (seq 0 (nx * ny * nz))).

Definition np_zeros3 (sh : nat * nat * nat) : arr3 := tab3 sh (fun _ _ _ => 0).

(** [a.copy()]: arrays are values here, a copy is the array itself. *)
Definition copy3 (a : arr3) : arr3 := a.

(** [a.ravel()] and [v.reshape(sh)] *)
Definition ravel (a : arr3) : vec := buf3 a.

Definition reshape (v : vec) (sh : nat * nat * nat) : res arr3 :=
  if length v =? size3 sh then Ok (mk3 sh v) else Raise ValueError.

(** *** Reads: an integer index on one axis, full slices on the others *)

(** [a[i,:,:]] *)
Definition get_x (a : arr3) (i : Z) : res arr2 :=
  let '(nx, ny, nz) := shape3 a in
  let? n := norm_index nx i in
  Ok (tab2 (ny, nz) (fun j k => at3 a n j k)).

(** [a[:,j,:]] *)
Definition get_y (a : arr3) (j : Z) : res arr2 :=
  let '(nx, ny, nz) := shape3 a in
  let? n := norm_index ny j in
  Ok (tab2 (nx, nz) (fun i k => at3 a i n k)).

(** [a[:,:,k]] *)
Definition get_z (a : arr3) (k : Z) : res arr2 :=
  let '(nx, ny, nz) := shape3 a in
  let? n := norm_index nz k in
  Ok (tab2 (nx, ny) (fun i j => at3 a i j n)).

(** [a[:,0,0]], [a[0,:,0]], [a[0,0,:]] *)
Definition line_x (a : arr3) : res vec :=
  let '(nx, ny, nz) := shape3 a in
  let? _ := norm_index ny 0 in
  let? _ := norm_index nz 0 in
  Ok (map (fun i => at3 a i 0 0) (seq 0 nx)).

Definition line_y (a : arr3) : res vec :=
  let '(nx, ny, nz) := shape3 a in
  let? _ := norm_index nx 0 in
  let? _ := norm_index nz 0 in
  Ok (map (fun j => at3 a 0 j 0) (seq 0 ny)).

Definition line_z (a : arr3) : res vec :=
  let '(nx, ny, nz) := shape3 a in
  let? _ := norm_index nx 0 in
  let? _ := norm_index ny 0 in
  Ok (map (fun k => at3 a 0 0 k) (seq 0 nz)).

(** *** Slices [2:], [:-2] along one axis; both have [n - 2] entries *)

Definition from2_x (a : arr3) : arr3 :=
  let '(nx, ny, nz) := shape3 a in
  tab3 (nx - 2, ny, nz)%nat (fun i j k => at3 a (i + 2) j k).
Definition upto2_x (a : arr3) : arr3 :=
  let '(nx, ny, nz) := shape3 a in
  tab3 (nx - 2, ny, nz)%nat (fun i j k => at3 a i j k).

Definition from2_y (a : arr3) : arr3 :=
  let '(nx, ny, nz) := shape3 a in
  tab3 (nx, ny - 2, nz)%nat (fun i j k => at3 a i (j + 2) k).
Definition upto2_y (a : arr3) : arr3 :=
  let '(nx, ny, nz) := shape3 a in
  tab3 (nx, ny - 2, nz)%nat (fun i j k => at3 a i j k).

Definition from2_z (a : arr3) : arr3 :=
  let '(nx, ny, nz) := shape3 a in
  tab3 (nx, ny, nz - 2)%nat (fun i j k => at3 a i j (k + 2)).
Definition upto2_z (a : arr3) : arr3 :=
  let '(nx, ny, nz) := shape3 a in
  tab3 (nx, ny, nz - 2)%nat (fun i j k => at3 a i j k).

(** *** Elementwise arithmetic, with NumPy broadcasting *)

Definition bshape2 (s t : nat * nat) : option (nat * nat) :=
  match bdim (fst s) (fst t), bdim (snd s) (snd t) with
  | Some m, Some n => Some (m, n)
  | _, _ => None
  end.

Definition bshape3 (s t : nat * nat * nat) : option (nat * nat * nat) :=
  let '(s1, s2, s3) := s in
  let '(t1, t2, t3) := t in
  match bdim s1 t1, bdim s2 t2, bdim s3 t3 with
  | Some a, Some b, Some c => Some (a, b, c)
  | _, _, _ => None
  end.

(** The entry a broadcast operand contributes at an index of the result. *)
Definition bat2 (a : arr2) (i j : nat) : Qc :=
  at2 a (bidx (fst (shape2 a)) i) (bidx (snd (shape2 a)) j).

Definition bat3 (a : arr3) (i j k : nat) : Qc :=
  let '(nx, ny, nz) := shape3 a in
  at3 a (bidx nx i) (bidx ny j) (bidx nz k).

Definition zip2 (op : Qc -> Qc -> Qc) (a b : arr2) : res arr2 :=
  match bshape2 (shape2 a) (shape2 b) with
  | Some sh => Ok (tab2 sh (fun i j => op (bat2 a i j) (bat2 b i j)))
  | None => Raise ValueError
  end.

Definition zip3 (op : Qc -> Qc -> Qc) (a b : arr3) : res arr3 :=
  match bshape3 (shape3 a) (shape3 b) with
  | Some sh => Ok (tab3 sh (fun i j k => op (bat3 a i j k) (bat3 b i j k)))
  | None => Raise ValueError
  end.

Definition sub2 := zip2 Qcminus.
Definition add2 := zip2 Qcplus.
Definition sub3 := zip3 Qcminus.
Definition add3 := zip3 Qcplus.

Definition map2 (f : Qc -> Qc) (a : arr2) : arr2 := mk2 (shape2 a) (map f (buf2 a)).
Definition map3 (f : Qc -> Qc) (a : arr3) : arr3 := mk3 (shape3 a) (map f (buf3 a)).

Definition divs2 (a : arr2) (c : Qc) : arr2 := map2 (fun e => e / c) a.
Definition muls2 (c : Qc) (a : arr2) : arr2 := map2 (fun e => c * e) a.
Definition divs3 (a : arr3) (c : Qc) : arr3 := map3 (fun e => e / c) a.
Definition muls3 (c : Qc) (a : arr3) : arr3 := map3 (fun e => c * e) a.

(** *** Writes: assignment and in-place update of a slice *)

Definition fits2 (t s : nat * nat) : bool :=
  fits (fst t) (fst s) && fits (snd t) (snd s).

Definition fits3 (t s : nat * nat * nat) : bool :=
  let '(t1, t2, t3) := t in
  let '(s1, s2, s3) := s in
  fits t1 s1 && fits t2 s2 && fits t3 s3.

(** [a[i,:,:] = v] *)
Definition set_x (a : arr3) (i : Z) (v : arr2) : res arr3 :=
  let '(nx, ny, nz) := shape3 a in
  let? n := norm_index nx i in
  if fits2 (ny, nz) (shape2 v)
  then Ok (tab3 (shape3 a) (fun i j k => if i =? n then bat2 v j k else at3 a i j k))
  else Raise ValueError.

(** [a[:,j,:] = v] *)
Definition set_y (a : arr3) (j : Z) (v : arr2) : res arr3 :=
  let '(nx, ny, nz) := shape3 a in
  let? n := norm_index ny j in
  if fits2 (nx, nz) (shape2 v)
  then Ok (tab3 (shape3 a) (fun i j k => if j =? n then bat2 v i k else at3 a i j k))
  else Raise ValueError.

(** [a[:,:,k] = v] *)
Definition set_z (a : arr3) (k : Z) (v : arr2) : res arr3 :=
  let '(nx, ny, nz) := shape3 a in
  let? n := norm_index nz k in
  if fits2 (nx, ny) (shape2 v)
  then Ok (tab3 (shape3 a) (fun i j k => if k =? n then bat2 v i j else at3 a i j k))
  else Raise ValueError.

(** The indices selected by the slice [1:-1] on an axis of length [n]. *)
Definition in_mid (n i : nat) : bool := (1 <=? i) && (i <? n - 1).

(** [a[1:-1,:,:] = f(a[1:-1,:,:], v)], [a[:,1:-1,:] = ...], [a[:,:,1:-1] = ...];
    assignment is [f _ e = e], the update [-=] is [f o e = o - e]. *)
Definition upd_mid_x (f : Qc -> Qc -> Qc) (a v : arr3) : res arr3 :=
  let '(nx, ny, nz) := shape3 a in
  if fits3 (nx - 2, ny, nz)%nat (shape3 v)
  then Ok (tab3 (shape3 a) (fun i j k =>
             if in_mid nx i then f (at3 a i j k) (bat3 v (i - 1) j k) else at3 a i j k))
  else Raise ValueError.

Definition upd_mid_y (f : Qc -> Qc -> Qc) (a v : arr3) : res arr3 :=
  let '(nx, ny, nz) := shape3 a in
  if fits3 (nx, ny - 2, nz)%nat (shape3 v)
  then Ok (tab3 (shape3 a) (fun i j k =>
             if in_mid ny j then f (at3 a i j k) (bat3 v i (j - 1) k) else at3 a i j k))
  else Raise ValueError.

Definition upd_mid_z (f : Qc -> Qc -> Qc) (a v : arr3) : res arr3 :=
  let '(nx, ny, nz) := shape3 a in
  if fits3 (nx, ny, nz - 2)%nat (shape3 v)
  then Ok (tab3 (shape3 a) (fun i j k =>
             if in_mid nz k then f (at3 a i j k) (bat3 v i j (k - 1)) else at3 a i j k))
  else Raise ValueError.

Definition assign (_ e : Qc) : Qc := e.

Definition set_mid_x := upd_mid_x assign.
Definition set_mid_y := upd_mid_y assign.
Definition set_mid_z := upd_mid_z assign.
Definition isub_mid_x := upd_mid_x Qcminus.
Definition isub_mid_y := upd_mid_y Qcminus.
Definition isub_mid_z := upd_mid_z Qcminus.

(** [a += v] on a whole array *)
Definition iadd3 (a v : arr3) : res arr3 :=
  if fits3 (shape3 a) (shape3 v)
  then Ok (tab3 (shape3 a) (fun i j k => at3 a i j k + bat3 v i j k))
  else Raise ValueError.

(** ** Sparse matrices ([scipy.sparse.diags])

    A matrix in diagonal storage: its order and its bands, each with its
    offset.  Entry [j] of a band at offset [o >= 0] sits at row [j], column
    [j + o]; at offset [o < 0] it sits at row [j - o], column [j]. *)

Record dia_matrix : Type := mk_dia { order : nat; bands : list (Z * vec) }.

Fixpoint zdistinct (l : list Z) : bool :=
  match l with
  | [] => true
  | o :: t => negb (existsb (Z.eqb o) t) && zdistinct t
  end.

Definition band_len_ok (n : nat) (b : Z * vec) : bool :=
  (Z.of_nat (length (snd b)) + Z.abs (fst b) =? Z.of_nat n)%Z.

(** [diags(diagonals, offsets)]: the order is read off the first band; the
    bands the module passes have exactly the length of their diagonal, and
    other lengths, a different number of offsets or a repeated offset are
    a [ValueError]. *)
Definition diags (ds : list vec) (offs : list Z) : res dia_matrix :=
  match ds, offs with
  | d0 :: _, o0 :: _ =>
      let n := (length d0 + Z.abs_nat o0)%nat in
      if (length ds =? length offs) && zdistinct offs
         && forallb (band_len_ok n) (combine offs ds)
      then Ok (mk_dia n (combine offs ds))
      else Raise ValueError
  | _, _ => Raise ValueError
  end.

Definition band_at (M : dia_matrix) (o : Z) : option vec :=
  match find (fun b => (fst b =? o)%Z) (bands M) with
  | Some b => Some (snd b)
  | None => None
  end.

(** The entry at row [r], column [c]. *)
Definition entry (M : dia_matrix) (r c : nat) : Qc :=
  match band_at M (Z.of_nat c - Z.of_nat r) with
  | Some d => nth (Nat.min r c) d 0
  | None => 0
  end.

Definition vsum (v : vec) : Qc := fold_right Qcplus 0 v.

Definition dot (a b : vec) : Qc := vsum (map (fun p => fst p * snd p) (combine a b)).

(** [M.matvec(x)] *)
Definition matvec (M : dia_matrix) (x : vec) : vec :=
  map (fun r => vsum (map (fun c => entry M r c * nth c x 0) (seq 0 (order M))))
      (seq 0 (order M)).

(** ** Methods: state and exceptions

    A method is a function of [self] that returns a value or raises, and
    the object as it was left. *)

Definition M (S A : Type) : Type := S -> res A * S.

Definition mret {S A} (a : A) : M S A := fun s => (Ok a, s).

Definition mbind {S A B} (m : M S A) (k : A -> M S B) : M S B :=
  fun s => match m s with
           | (Ok a, s') => k a s'
           | (Raise e, s') => (Raise e, s')
           end.

Definition lift {S A} (r : res A) : M S A := fun s => (r, s).

(** Reading an attribute that is unset (or [None]) and using it raises. *)
Definition attr {S A} (f : S -> option A) : M S A :=
  fun s => match f s with
           | Some a => (Ok a, s)
           | None => (Raise AttributeError, s)
           end.

Definition reads {S A} (f : S -> A) : M S A := fun s => (Ok (f s), s).

Definition modify {S} (f : S -> S) : M S unit := fun s => (Ok tt, f s).

Notation "'do' x <- m ; k" := (mbind m (fun x => k))
  (at level 10, x name, m at level 100, k at level 200).
Notation "'do' ' p <- m ; k" := (mbind m (fun x => match x with p => k end))
  (at level 10, p pattern, m at level 100, k at level 200).
Notation "m ;; k" := (mbind m (fun _ => k))
  (at level 100, k at level 200, right associativity).

(** ** The class *)

Module PressureField.

(** The grid collaborator: three mesh arrays. *)
Record flow_field : Type := mk_flow_field { ff_x : arr3; ff_y : arr3; ff_z : arr3 }.

(** Attributes fixed by the constructor. *)
Record geometry : Type := mk_geometry {
  x : arr3; y : arr3; z : arr3;
  Nx : nat; Ny : nat; Nz : nat; N : nat;
  x1 : vec; y1 : vec; z1 : vec;
  dx : Qc; dy : Qc; dz : Qc
}.

(** The object.  An attribute that is not set yet, or holds [None], is
    [None] here. *)
Record self : Type := mk_self {
  geom : geometry;
  LHS : option dia_matrix;
  RHS : option vec;
  Nsolves : nat;
  khub : nat;
  u0 : option arr3; v0 : option arr3; w0 : option arr3;
  p : option arr3;
  u : option arr3; v : option arr3; w : option arr3
}.

Definition set_LHS (m : option dia_matrix) (s : self) : self :=
  mk_self (geom s) m (RHS s) (Nsolves s) (khub s)
          (u0 s) (v0 s) (w0 s) (p s) (u s) (v s) (w s).
Definition set_RHS (r : option vec) (s : self) : self :=
  mk_self (geom s) (LHS s) r (Nsolves s) (khub s)
          (u0 s) (v0 s) (w0 s) (p s) (u s) (v s) (w s).
Definition set_Nsolves (n : nat) (s : self) : self :=
  mk_self (geom s) (LHS s) (RHS s) n (khub s)
          (u0 s) (v0 s) (w0 s) (p s) (u s) (v s) (w s).
Definition set_khub (n : nat) (s : self) : self :=
  mk_self (geom s) (LHS s) (RHS s) (Nsolves s) n
          (u0 s) (v0 s) (w0 s) (p s) (u s) (v s) (w s).
Definition set_u0 (a : arr3) (s : self) : self :=
  mk_self (geom s) (LHS s) (RHS s) (Nsolves s) (khub s)
          (Some a) (v0 s) (w0 s) (p s) (u s) (v s) (w s).
Definition set_v0 (a : arr3) (s : self) : self :=
  mk_self (geom s) (LHS s) (RHS s) (Nsolves s) (khub s)
          (u0 s) (Some a) (w0 s) (p s) (u s) (v s) (w s).
Definition set_w0 (a : arr3) (s : self) : self :=
  mk_self (geom s) (LHS s) (RHS s) (Nsolves s) (khub s)
          (u0 s) (v0 s) (Some a) (p s) (u s) (v s) (w s).
Definition set_p (a : arr3) (s : self) : self :=
  mk_self (geom s) (LHS s) (RHS s) (Nsolves s) (khub s)
          (u0 s) (v0 s) (w0 s) (Some a) (u s) (v s) (w s).
Definition set_u (a : arr3) (s : self) : self :=
  mk_self (geom s) (LHS s) (RHS s) (Nsolves s) (khub s)
          (u0 s) (v0 s) (w0 s) (p s) (Some a) (v s) (w s).
Definition set_v (a : arr3) (s : self) : self :=
  mk_self (geom s) (LHS s) (RHS s) (Nsolves s) (khub s)
          (u0 s) (v0 s) (w0 s) (p s) (u s) (Some a) (w s).
Definition set_w (a : arr3) (s : self) : self :=
  mk_self (geom s) (LHS s) (RHS s) (Nsolves s) (khub s)
          (u0 s) (v0 s) (w0 s) (p s) (u s) (v s) (Some a).

Definition DEBUG : bool := true.

(** [assert np.max(np.abs(d - d[0]) < 1e-8)] *)
Definition assert_spacing (d : vec) : res unit :=
  let? d0 := vget d 0 in
  let? m := np_max_bool (vlts (vabs (vsubs d d0)) tol_1e8) in
  py_assert m.

Definition _setup_LHS : M self unit :=
  do g <- reads geom;
  let ones := np_ones (N g) in
  do t1 <- lift (vsub (vdivs (vmuls (flt (-2)) ones) (dx g ^ 2))
                      (vdivs (vmuls (flt 2) ones) (dy g ^ 2)));
  do diag <- lift (vsub t1 (vdivs (vmuls (flt 2) ones) (dz g ^ 2)));
  (* off diagonal for d/dx operator *)
  let offx := (Ny g * Nz g)%nat in
  let offdiagx := vdivs (upto_neg offx ones) (dx g ^ 2) in
  (* off diagonal for d/dy operator *)
  let offy := Nz g in
  let offdiagy := vdivs (upto_neg offy ones) (dy g ^ 2) in
  do rng <- lift (py_range offx (length offdiagy) offx);
  let offdiagy :=
    fold_left (fun od i => slice_isub (Z.of_nat i - Z.of_nat offy) (Z.of_nat i)
                                      (1 / dy g ^ 2) od) rng offdiagy in
  (* off diagonal for d/dz operator *)
  let offz := 1%nat in
  let offdiagz := vdivs (upto_neg offz ones) (dz g ^ 2) in
  do offdiagz <- lift (stride_isub (Nz g - 1) (Nz g) (1 / dz g ^ 2) offdiagz);
  do m <- lift (diags
      [offdiagx; offdiagy; offdiagz; diag; offdiagz; offdiagy; offdiagx]
      [(- Z.of_nat offx)%Z; (- Z.of_nat offy)%Z; (- Z.of_nat offz)%Z; 0%Z;
       Z.of_nat offz; Z.of_nat offy; Z.of_nat offx]);
  modify (set_LHS (Some m)).

Definition __init__ (flow_field : flow_field) : res self :=
  (* setup grid *)
  let x := ff_x flow_field in
  let y := ff_y flow_field in
  let z := ff_z flow_field in
  let '(Nx, Ny, Nz) := shape3 x in
  let N := (Nx * Ny * Nz)%nat in
  (* get actual grid spacings *)
  let? x1 := line_x x in
  let? y1 := line_y y in
  let? z1 := line_z z in
  let dx := np_diff x1 in
  let dy := np_diff y1 in
  let dz := np_diff z1 in
  let? _ := assert_spacing dx in
  let? _ := assert_spacing dy in
  let? _ := assert_spacing dz in
  let? dx0 := vget dx 0 in
  let? dy0 := vget dy 0 in
  let? dz0 := vget dz 0 in
  let g := mk_geometry x y z Nx Ny Nz N x1 y1 z1 dx0 dy0 dz0 in
  let s := mk_self g None None 0 0 None None None None None None None in
  (* setup solver matrices *)
  match _setup_LHS s with
  | (Raise e, _) => Raise e
  | (Ok _, s) =>
      let s := set_RHS None s in
      if DEBUG then
        let s := set_Nsolves 0 s in
        let? zl := line_z z in
        let? k := np_argmin (vabs (vsubs zl (flt 90))) in
        Ok (set_khub k s)
      else Ok s
  end.

Definition or_attr (a : option arr3) (f : self -> option arr3) : M self arr3 :=
  match a with
  | Some a => mret a
  | None => attr f
  end.

(** Calculate RHS of Poisson equation, div(U), from finite differences.
    After the defaults are filled in, [v] and [w] are arrays, so the tests
    [v is not None] and [w is not None] always succeed. *)
Definition _calc_gradients (u_ v_ w_ : option arr3) : M self (arr3 * arr3 * arr3) :=
  do ua <- or_attr u_ u0;
  do va <- or_attr v_ v0;
  do wa <- or_attr w_ w0;
  do g <- reads geom;
  do s0 <- attr u0;
  let du0_dx := np_zeros3 (shape3 s0) in
  let dv0_dy := np_zeros3 (shape3 s0) in
  let dw0_dz := np_zeros3 (shape3 s0) in
  (* u, inlet *)
  do du0_dx <- lift (let? a := get_x ua 1 in let? b := get_x ua 0 in
                     let? d := sub2 a b in set_x du0_dx 0 (divs2 d (dx g)));
  (* u, outlet *)
  do du0_dx <- lift (let? a := get_x ua (-1) in let? b := get_x ua (-2) in
                     let? d := sub2 a b in set_x du0_dx (-1) (divs2 d (dx g)));
  (* interior *)
  do du0_dx <- lift (let? d := sub3 (from2_x ua) (upto2_x ua) in
                     set_mid_x du0_dx (divs3 d (flt 2 * dx g)));
  (* v, -y *)
  do dv0_dy <- lift (let? a := get_y va 1 in let? b := get_y va 0 in
                     let? d := sub2 a b in set_y dv0_dy 0 (divs2 d (dy g)));
  (* v, +y *)
  do dv0_dy <- lift (let? a := get_y va (-1) in let? b := get_y va (-2) in
                     let? d := sub2 a b in set_y dv0_dy (-1) (divs2 d (dy g)));
  (* interior *)
  do dv0_dy <- lift (let? d := sub3 (from2_y va) (upto2_y va) in
                     set_mid_y dv0_dy (divs3 d (flt 2 * dy g)));
  (* w, lower *)
  do dw0_dz <- lift (let? a := get_z wa 1 in let? b := get_z wa 0 in
                     let? d := sub2 a b in set_z dw0_dz 0 (divs2 d (dz g)));
  (* w, upper *)
  do dw0_dz <- lift (let? a := get_z wa (-1) in let? b := get_z wa (-2) in
                     let? d := sub2 a b in set_z dw0_dz (-1) (divs2 d (dz g)));
  (* interior *)
  do dw0_dz <- lift (let? d := sub3 (from2_z wa) (upto2_z wa) in
                     set_mid_z dw0_dz (divs3 d (flt 2 * dz g)));
  mret (du0_dx, dv0_dy, dw0_dz).

(** Set the RHS of the Poisson equation, the divergence of the predictor. *)
Definition _set_RHS (du_dx : arr3) (dv_dy dw_dz : option arr3) : M self unit :=
  let div := du_dx in
  do div <- lift (match dv_dy with Some d => iadd3 div d | None => Ok div end);
  do div <- lift (match dw_dz with Some d => iadd3 div d | None => Ok div end);
  modify (set_RHS (Some (ravel div))).

Definition update_RHS : M self unit :=
  do '(du0_dx, dv0_dy, dw0_dz) <- _calc_gradients None None None;
  _set_RHS du0_dx (Some dv0_dy) (Some dw0_dz).

Definition _correct_fields (A : Qc) : M self unit :=
  do g <- reads geom;
  (* central difference *)
  do pa <- attr p;
  do dp_dx <- lift (let? d := sub3 (from2_x pa) (upto2_x pa) in Ok (divs3 d (flt 2 * dx g)));
  do pa <- attr p;
  do dp_dy <- lift (let? d := sub3 (from2_y pa) (upto2_y pa) in Ok (divs3 d (flt 2 * dy g)));
  do pa <- attr p;
  do dp_dz <- lift (let? d := sub3 (from2_z pa) (upto2_z pa) in Ok (divs3 d (flt 2 * dz g)));
  (* update velocity fields *)
  do a <- attr u0; modify (set_u (copy3 a));;
  do a <- attr v0; modify (set_v (copy3 a));;
  do a <- attr w0; modify (set_w (copy3 a));;
  do a <- attr u; do a <- lift (isub_mid_x a (muls3 A dp_dx)); modify (set_u a);;
  do a <- attr v; do a <- lift (isub_mid_y a (muls3 A dp_dy)); modify (set_v a);;
  do a <- attr w; do a <- lift (isub_mid_z a (muls3 A dp_dz)); modify (set_w a).

(** The builtin [sum] of a triple of arrays: [((0 + a) + b) + c]. *)
Definition py_sum3 (t : arr3 * arr3 * arr3) : res arr3 :=
  let '(a, b, c) := t in
  let? ab := add3 (map3 (fun e => 0 + e) a) b in
  add3 ab c.

Definition div (corrected : bool) : M self arr3 :=
  if corrected then
    do ua <- attr u; do va <- attr v; do wa <- attr w;
    do t <- _calc_gradients (Some ua) (Some va) (Some wa);
    lift (py_sum3 t)
  else
    do r <- attr RHS;
    do a <- attr u0;
    lift (reshape r (shape3 a)).

(** The keyword arguments of [interp], unpacked from [smooth_disk_region]. *)
Record coordinates : Type := mk_coordinates { c_x1 : Qc; c_x2 : Qc; c_x3 : Qc }.

Record region : Type := mk_region {
  r_x : arr3; r_y : arr3; r_z : arr3;
  r_coords : coordinates;
  r_D : Qc; r_zhub : Qc
}.

(** [self.u[i,:,:]] is a view: it names a plane of [self.u] and is read
    again, from the array as it is then, each time it is used. *)
Definition view_x (i : Z) : M self nat :=
  do a <- attr u;
  lift (norm_index (fst (fst (shape3 a))) i).

Definition deref (n : nat) : M self arr2 :=
  do a <- attr u;
  lift (get_x a (Z.of_nat n)).

Definition interp (r : region) : M self unit :=
  let turbx := c_x1 (r_coords r) in
  let turby := c_x2 (r_coords r) in
  let turbz := c_x3 (r_coords r) in
  do x1 <- lift (line_x (r_x r));
  do i0 <- lift (np_argmin (vabs (map (fun e => turbx - e) x1)));
  let i0 := Z.of_nat i0 in
  do xi <- lift (vget x1 i0);
  let i0 := if Qcleb turbx xi then (i0 - 1)%Z else i0 in
  do f0 <- view_x (i0 - 1);
  do f1 <- view_x (i0 + 2);
  do a1 <- deref f1; do a0 <- deref f0; do d <- lift (sub2 a1 a0);
  do a0 <- deref f0; do e <- lift (add2 (divs2 (muls2 1 d) (flt 3)) a0);
  do a <- attr u; do a <- lift (set_x a i0 e); modify (set_u a);;
  do a1 <- deref f1; do a0 <- deref f0; do d <- lift (sub2 a1 a0);
  do a0 <- deref f0; do e <- lift (add2 (divs2 (muls2 (flt 2) d) (flt 3)) a0);
  do a <- attr u; do a <- lift (set_x a (i0 + 1) e); modify (set_u a).

(** The hub-height plane [a[:,:,self.khub]] handed to a plotting call. *)
Definition hub (a : arr3) : M self arr2 :=
  do k <- reads khub;
  lift (get_z a (Z.of_nat k)).

(** The [DEBUG] block of [solve].  Drawing and saving the figures are
    effects outside the object; what remains is the planes it reads, the
    two divergence queries and the solve counter. *)
Definition debug_plots : M self unit :=
  do g <- reads geom;
  hub (x g);; hub (y g);; (do a <- attr u0; hub a);;
  hub (x g);; hub (y g);; (do a <- attr u; hub a);;
  hub (x g);; hub (y g);; (do a <- attr v0; hub a);;
  hub (x g);; hub (y g);; (do a <- attr v; hub a);;
  hub (x g);; hub (y g);; (do a <- div false; hub a);;
  hub (x g);; hub (y g);; (do a <- div true; hub a);;
  do n <- reads Nsolves;
  modify (set_Nsolves (n + 1)).

Section Solver.

(** [scipy.sparse.linalg.cg(A, b, x0=..., tol=..., atol=...)]: the solver
    is imported, not part of the module; [solve] is stated for any solver
    that returns a vector and a convergence flag, or raises. *)
Variable cg : dia_matrix -> vec -> vec -> Qc -> Qc -> res (vec * Z).

(** Solve Poisson equation for perturbation pressure field. *)
Definition solve (u_wake : arr3) (v_wake w_wake : option arr3)
    (smooth_disk_region : option region) (A tol : Qc)
    : M self (arr3 * arr3 * arr3) :=
  (* set modeled/predictor fields *)
  modify (set_u0 (copy3 u_wake));;
  (match v_wake with
   | None => do a <- attr u0; modify (set_v0 (np_zeros3 (shape3 a)))
   | Some b => modify (set_v0 (copy3 b))
   end);;
  (match w_wake with
   | None => do a <- attr u0; modify (set_w0 (np_zeros3 (shape3 a)))
   | Some b => modify (set_w0 (copy3 b))
   end);;
  (* calculate gradients setup RHS *)
  update_RHS;;
  (* now solve *)
  do m <- attr LHS;
  do r <- attr RHS;
  do g <- reads geom;
  do soln <- lift (cg m (vdivs r A) (np_zeros (N g)) tol tol);
  lift (py_assert (snd soln =? 0)%Z);;
  do a <- attr u0;
  do pa <- lift (reshape (fst soln) (shape3 a));
  modify (set_p pa);;
  _correct_fields A;;
  (* optional smoothing step *)
  (match smooth_disk_region with
   | Some r => interp r
   | None => mret tt
   end);;
  (if DEBUG then debug_plots else mret tt);;
  do ua <- attr u; do va <- attr v; do wa <- attr w;
  mret (ua, va, wa).

End Solver.

End PressureField.

(** ** A conjugate-gradient solver

    The iteration of [scipy.sparse.linalg.cg] without preconditioner, over
    exact rationals, to run [solve] on concrete fields.  Norms are compared
    through their squares: [norm r < max atol (rtol * norm b)]. *)

Module Scipy.

Definition vaxpy (c : Qc) (a b : vec) : vec :=
  map (fun q => c * fst q + snd q) (combine a b).

Definition below (rr bb rtol atol : Qc) : bool :=
  (Qcltb 0 atol && Qcltb rr (atol * atol))
  || (Qcltb 0 rtol && Qcltb rr (rtol * rtol * bb)).

Fixpoint cg_loop (fuel : nat) (A : dia_matrix) (bb rtol atol : Qc)
    (first : bool) (xk r pk : vec) (rho_prev : Qc) : vec * bool :=
  match fuel with
  | O => (xk, false)
  | S fuel =>
      let rho_cur := dot r r in
      if below rho_cur bb rtol atol then (xk, true)
      else
        let pk := if first then r else vaxpy (rho_cur / rho_prev) pk r in
        let q := matvec A pk in
        let alpha := rho_cur / dot pk q in
        cg_loop fuel A bb rtol atol false
                (vaxpy alpha pk xk) (vaxpy (- alpha) q r) pk rho_cur
  end.

Definition cg (A : dia_matrix) (b x0 : vec) (tol atol : Qc) : res (vec * Z) :=
  let n := order A in
  if negb ((length b =? n) && (length x0 =? n)) then Raise ValueError
  else
    let bb := dot b b in
    if Qc_eq_bool bb 0 then Ok (b, 0%Z)
    else
      let maxiter := (n * 10)%nat in
      let r := vaxpy (- (1)) (matvec A x0) b in
      match cg_loop maxiter A bb tol atol true x0 r [] 0 with
      | (xk, true) => Ok (xk, 0%Z)
      | (xk, false) => Ok (xk, Z.of_nat maxiter)
      end.

End Scipy.

(** ** The finite differences and the divergence, as specified

    One-sided first-order differences at the first and last node of an
    axis of [n] nodes, second-order central differences between them. *)

Definition fd (n : nat) (delta : Qc) (f : nat -> Qc) (i : nat) : Qc :=
  if i =? 0 then (f 1%nat - f 0%nat) / delta
  else if i =? n - 1 then (f (n - 1)%nat - f (n - 2)%nat) / delta
  else (f (i + 1)%nat - f (i - 1)%nat) / (flt 2 * delta).

Definition grad_x (delta : Qc) (a : arr3) : arr3 :=
  let '(nx, ny, nz) := shape3 a in
  tab3 (nx, ny, nz) (fun i j k => fd nx delta (fun i => at3 a i j k) i).

Definition grad_y (delta : Qc) (a : arr3) : arr3 :=
  let '(nx, ny, nz) := shape3 a in
  tab3 (nx, ny, nz) (fun i j k => fd ny delta (fun j => at3 a i j k) j).

Definition grad_z (delta : Qc) (a : arr3) : arr3 :=
  let '(nx, ny, nz) := shape3 a in
  tab3 (nx, ny, nz) (fun i j k => fd nz delta (fun k => at3 a i j k) k).

(** The argument of a method, or the attribute it defaults to. *)
Definition pick {A} (arg attribute : option A) : option A :=
  match arg with
  | Some a => Some a
  | None => attribute
  end.

(** The divergence of a field with components [ua], [va], [wa]. *)
Definition divergence (dx dy dz : Qc) (ua va wa : arr3) : arr3 :=
  let '(nx, ny, nz) := shape3 ua in
  tab3 (nx, ny, nz) (fun i j k =>
    fd nx dx (fun i => at3 ua i j k) i
    + fd ny dy (fun j => at3 va i j k) j
    + fd nz dz (fun k => at3 wa i j k) k).

(** The predictor component stored for an optional argument of [solve]. *)
Definition predictor (arg : option arr3) (sh : nat * nat * nat) : arr3 :=
  match arg with
  | Some b => b
  | None => np_zeros3 sh
  end.

(** The correction [_correct_fields] applies: along the axis of the
    component, the nodes [1 .. n-2] lose [A] times the central difference
    of the pressure; the first and last node along that axis keep the
    predictor. *)
Definition corrected_u (A dx : Qc) (pa ua : arr3) : arr3 :=
  let '(nx, ny, nz) := shape3 ua in
  tab3 (nx, ny, nz) (fun i j k =>
    if in_mid nx i
    then at3 ua i j k - A * ((at3 pa (i + 1) j k - at3 pa (i - 1) j k) / (flt 2 * dx))
    else at3 ua i j k).

Definition corrected_v (A dy : Qc) (pa va : arr3) : arr3 :=
  let '(nx, ny, nz) := shape3 va in
  tab3 (nx, ny, nz) (fun i j k =>
    if in_mid ny j
    then at3 va i j k - A * ((at3 pa i (j + 1) k - at3 pa i (j - 1) k) / (flt 2 * dy))
    else at3 va i j k).

Definition corrected_w (A dz : Qc) (pa wa : arr3) : arr3 :=
  let '(nx, ny, nz) := shape3 wa in
  tab3 (nx, ny, nz) (fun i j k =>
    if in_mid nz k
    then at3 wa i j k - A * ((at3 pa i j (k + 1) - at3 pa i j (k - 1)) / (flt 2 * dz))
    else at3 wa i j k).

(** ** The operator, as specified

    The entry at row [r], column [c] of the seven-banded operator on an
    [nx] by [ny] by [nz] grid; [b = min r c] is the position in the band. *)
Definition laplacian (ny nz : nat) (dx dy dz : Qc) (r c : nat) : Qc :=
  let b := Nat.min r c in
  let o := (Nat.max r c - b)%nat in
  if o =? 0 then flt (-2) / dx ^ 2 - flt 2 / dy ^ 2 - flt 2 / dz ^ 2
  else if o =? ny * nz then 1 / dx ^ 2
  else if o =? nz then
    (if ny * nz - nz <=? b mod (ny * nz) then 0 else 1 / dy ^ 2)
  else if o =? 1 then
    (if b mod nz =? nz - 1 then 0 else 1 / dz ^ 2)
  else 0.

(** The bands [_setup_LHS] hands to [diags]. *)
Definition band_x (n ny nz : nat) (dx : Qc) : vec :=
  vdivs (upto_neg (ny * nz) (np_ones n)) (dx ^ 2).

Definition band_y (n ny nz : nat) (dy : Qc) : vec :=
  let od := vdivs (upto_neg nz (np_ones n)) (dy ^ 2) in
  fold_left (fun od i => slice_isub (Z.of_nat i - Z.of_nat nz) (Z.of_nat i)
                                    (1 / dy ^ 2) od)
            (map (fun t => (ny * nz + t * (ny * nz))%nat)
                 (seq 0 ((length od - ny * nz + ny * nz - 1) / (ny * nz)))) od.

Definition band_z (n nz : nat) (dz : Qc) : vec :=
  let od := vdivs (upto_neg 1 (np_ones n)) (dz ^ 2) in
  map_idx (fun i e => if (nz - 1 <=? i) && ((i - (nz - 1)) mod nz =? 0)
                      then e - 1 / dz ^ 2 else e) od.

Definition band_0 (n : nat) (dx dy dz : Qc) : vec :=
  let t1 := map (fun i => nth i (vdivs (vmuls (flt (-2)) (np_ones n)) (dx ^ 2)) 0
                          - nth i (vdivs (vmuls (flt 2) (np_ones n)) (dy ^ 2)) 0)
                (seq 0 n) in
  map (fun i => nth i t1 0 - nth i (vdivs (vmuls (flt 2) (np_ones n)) (dz ^ 2)) 0)
      (seq 0 n).

Definition operator (n ny nz : nat) (dx dy dz : Qc) : dia_matrix :=
  let bx := band_x n ny nz dx in
  let b_y := band_y n ny nz dy in
  let bz := band_z n nz dz in
  mk_dia n [((- Z.of_nat (ny * nz))%Z, bx); ((- Z.of_nat nz)%Z, b_y); ((-1)%Z, bz);
            (0%Z, band_0 n dx dy dz);
            (1%Z, bz); (Z.of_nat nz, b_y); (Z.of_nat (ny * nz), bx)].

(** ** Frames and the state the constructor establishes *)

(** A method preserves an observation [f] of the object when [f] is the
    same after the call, whether it returned or raised. *)
Definition preserves {S A B} (f : S -> B) (m : M S A) : Prop :=
  forall s, f (snd (m s)) = f s.

(** The facts about the grid attributes that [solve] and the diagnostics
    rely on; [__init__] establishes them on mesh arrays of one shape. *)
Record ready (s : PressureField.self) : Prop := mk_ready {
  ready_x : shape3 (PressureField.x (PressureField.geom s))
            = (PressureField.Nx (PressureField.geom s),
               PressureField.Ny (PressureField.geom s),
               PressureField.Nz (PressureField.geom s));
  ready_y : shape3 (PressureField.y (PressureField.geom s))
            = (PressureField.Nx (PressureField.geom s),
               PressureField.Ny (PressureField.geom s),
               PressureField.Nz (PressureField.geom s));
  ready_N : PressureField.N (PressureField.geom s)
            = (PressureField.Nx (PressureField.geom s)
               * PressureField.Ny (PressureField.geom s)
               * PressureField.Nz (PressureField.geom s))%nat;
  ready_Nx : (2 <= PressureField.Nx (PressureField.geom s))%nat;
  ready_Ny : (2 <= PressureField.Ny (PressureField.geom s))%nat;
  ready_Nz : (2 <= PressureField.Nz (PressureField.geom s))%nat;
  ready_LHS : exists m, PressureField.LHS s = Some m
                        /\ order m = PressureField.N (PressureField.geom s);
  ready_khub : (PressureField.khub s < PressureField.Nz (PressureField.geom s))%nat
}.

(** The shape of the grid of an object. *)
Definition grid_shape (s : PressureField.self) : nat * nat * nat :=
  (PressureField.Nx (PressureField.geom s),
   PressureField.Ny (PressureField.geom s),
   PressureField.Nz (PressureField.geom s)).

(** ** Concrete grids and fields *)

(** [np.meshgrid(xs, ys, zs, indexing='ij')] *)
Definition meshgrid (xs ys zs : vec) : PressureField.flow_field :=
  let sh := (length xs, length ys, length zs) in
  PressureField.mk_flow_field
    (tab3 sh (fun i _ _ => nth i xs 0))
    (tab3 sh (fun _ j _ => nth j ys 0))
    (tab3 sh (fun _ _ k => nth k zs 0)).

(** A uniform grid of 2 x 2 x 2 and one of 3 x 3 x 3 nodes, spacing 1. *)
Definition grid_222 : PressureField.flow_field :=
  meshgrid [flt 0; flt 1] [flt 0; flt 1] [flt 0; flt 1].

Definition grid_333 : PressureField.flow_field :=
  meshgrid [flt 0; flt 1; flt 2] [flt 0; flt 1; flt 2] [flt 0; flt 1; flt 2].

(** A grid whose spacing along [x] jumps from 1 to 2. *)
Definition grid_jump : PressureField.flow_field :=
  meshgrid [flt 0; flt 1; flt 3] [flt 0; flt 1] [flt 0; flt 1].

(** The object once [solve] has stored the predictor and cached the
    right-hand side. *)
Definition staged (s : PressureField.self) (u_wake : arr3) (v_wake w_wake : option arr3)
    : PressureField.self :=
  let g := PressureField.geom s in
  let va := predictor v_wake (shape3 u_wake) in
  let wa := predictor w_wake (shape3 u_wake) in
  PressureField.set_RHS
    (Some (ravel (divergence (PressureField.dx g) (PressureField.dy g)
                             (PressureField.dz g) u_wake va wa)))
    (PressureField.set_w0 wa (PressureField.set_v0 va (PressureField.set_u0 u_wake s))).

(** An optional argument, when given, has the shape [sh]. *)
Definition shaped (arg : option arr3) (sh : nat * nat * nat) : Prop :=
  match arg with
  | Some b => shape3 b = sh
  | None => True
  end.

(** A predictor on the 2 x 2 x 2 grid, one on the 3 x 3 x 3 grid, and a
    field of 3 x 2 x 2 nodes, which fits neither. *)
Definition field_222 : arr3 :=
  tab3 (2, 2, 2)%nat (fun i j k => flt (Z.of_nat (i + 2 * j + 3 * k))).

Definition field_333 : arr3 :=
  tab3 (3, 3, 3)%nat (fun i j k => flt (Z.of_nat (i * i + j))).

Definition field_322 : arr3 :=
  tab3 (3, 2, 2)%nat (fun i j k => flt (Z.of_nat (i * i))).

(** A well-formed array of shape [sh] that is zero at every node, and an
    optional argument that, when given, is one. *)
Definition zero_field (a : arr3) (sh : nat * nat * nat) : Prop :=
  wf3 a /\ shape3 a = sh
  /\ forall i j k, (i < fst (fst sh))%nat -> (j < snd (fst sh))%nat -> (k < snd sh)%nat ->
                   at3 a i j k = 0.

Definition zero_arg (arg : option arr3) (sh : nat * nat * nat) : Prop :=
  match arg with
  | Some b => zero_field b sh
  | None => True
  end.

(** ** The smoothing patch, as specified *)

(** [n] is the node of [xl] nearest to [t]: no node is nearer, and the
    nodes before it are strictly farther. *)
Definition is_nearest (xl : vec) (t : Qc) (n : nat) : bool :=
  let dist m := Qcabs (t - nth m xl 0) in
  (n <? length xl)
  && forallb (fun m => Qcleb (dist n) (dist m)) (seq 0 (length xl))
  && forallb (fun m => Qcltb (dist n) (dist m)) (seq 0 n).

(** The nearest node, or the node before it when the nearest node does not
    lie upstream of [t]. *)
Definition upstream_index (xl : vec) (t : Qc) (n : nat) : Z :=
  if Qcleb t (nth n xl 0) then (Z.of_nat n - 1)%Z else Z.of_nat n.

(** The plane a Python index names on an axis of [n] planes. *)
Definition pyidx (n : nat) (i : Z) : nat := Z.to_nat (i mod Z.of_nat n).

(** The [u] field after the patch at index [i0]: the planes [i0] and
    [i0 + 1] hold the interpolants between the planes [i0 - 1] and [i0 + 2]. *)
Definition patched (i0 : Z) (ua : arr3) : arr3 :=
  let '(nx, ny, nz) := shape3 ua in
  tab3 (nx, ny, nz) (fun i j k =>
    let f0 := at3 ua (pyidx nx (i0 - 1)) j k in
    let f1 := at3 ua (pyidx nx (i0 + 2)) j k in
    if i =? pyidx nx i0 then f0 + (f1 - f0) / flt 3
    else if i =? pyidx nx (i0 + 1) then f0 + flt 2 * (f1 - f0) / flt 3
    else at3 ua i j k).

(** A grid of 4 x 2 x 2 nodes and a predictor on it. *)
Definition grid_422 : PressureField.flow_field :=
  meshgrid [flt 0; flt 1; flt 2; flt 3] [flt 0; flt 1] [flt 0; flt 1].

Definition field_422 : arr3 :=
  tab3 (4, 2, 2)%nat (fun i j k => flt (Z.of_nat (i * i + j))).

(** A smoothing region on the mesh [ff] around the location [tx]. *)
Definition region_at (ff : PressureField.flow_field) (tx : Qc) : PressureField.region :=
  PressureField.mk_region (PressureField.ff_x ff) (PressureField.ff_y ff)
    (PressureField.ff_z ff) (PressureField.mk_coordinates tx 0 0) 1 0.

(** The object once [solve] has stored the pressure [pv] returned by the
    solver and corrected the fields, before any smoothing. *)
Definition corrected_state (s : PressureField.self) (u_wake : arr3)
    (v_wake w_wake : option arr3) (A : Qc) (pv : vec) : PressureField.self :=
  let g := PressureField.geom s in
  let sh := grid_shape s in
  let pa := mk3 sh pv in
  PressureField.set_w (corrected_w A (PressureField.dz g) pa (predictor w_wake sh))
    (PressureField.set_v (corrected_v A (PressureField.dy g) pa (predictor v_wake sh))
       (PressureField.set_u (corrected_u A (PressureField.dx g) pa u_wake)
          (PressureField.set_p pa (staged s u_wake v_wake w_wake)))).

(** Coordinates that grow strictly along the line. *)
Definition increasing (xl : vec) : Prop :=
  forall a b, (a < b)%nat -> (b < length xl)%nat -> nth a xl 0 < nth b xl 0.

(** A flow along [x] that varies along [y] only, on the 2 x 2 x 2 grid,
    and a predictor with a single plane along [x]. *)
Definition shear_222 : arr3 :=
  tab3 (2, 2, 2)%nat (fun i j k => flt (Z.of_nat j)).

Definition field_122 : arr3 :=
  tab3 (1, 2, 2)%nat (fun i j k => flt (Z.of_nat (j + k))).

(** * Properties *)

(** ** Row-major indexing *)


Lemma decode_k (ny nz i j k : nat) :
  (k < nz)%nat -> (((i * ny + j) * nz + k) mod nz = k)%nat.
Proof.
  intros Hk. rewrite Nat.add_comm, Nat.Div0.mod_add. now apply Nat.mod_small.
Qed.

Lemma decode_row (ny nz i j k : nat) :
  (k < nz)%nat -> (((i * ny + j) * nz + k) / nz = i * ny + j)%nat.
Proof.
  intros Hk. rewrite Nat.div_add_l by lia. rewrite Nat.div_small by lia. lia.
Qed.

Lemma decode_j (ny nz i j k : nat) :
  (j < ny)%nat -> (k < nz)%nat -> ((((i * ny + j) * nz + k) / nz) mod ny = j)%nat.
Proof.
  intros Hj Hk. rewrite decode_row by lia.
  rewrite Nat.add_comm, Nat.Div0.mod_add. now apply Nat.mod_small.
Qed.

Lemma decode_i (ny nz i j k : nat) :
  (j < ny)%nat -> (k < nz)%nat -> (((i * ny + j) * nz + k) / (ny * nz) = i)%nat.
Proof.
  intros Hj Hk. rewrite (Nat.mul_comm ny nz), <- Nat.Div0.div_div.
  rewrite decode_row by lia. rewrite Nat.div_add_l by lia.
  rewrite Nat.div_small by lia. lia.
Qed.

Lemma flat_lt (nx ny nz i j k : nat) :
  (i < nx)%nat -> (j < ny)%nat -> (k < nz)%nat ->
  ((i * ny + j) * nz + k < nx * ny * nz)%nat.
Proof.
  intros Hi Hj Hk.
  assert (i * ny + j + 1 <= nx * ny)%nat by nia.
  assert ((i * ny + j + 1) * nz <= nx * ny * nz)%nat by (apply Nat.mul_le_mono_r; lia).
  lia.
Qed.

Lemma encode3 (nx ny nz t : nat) :
  (t < nx * ny * nz)%nat ->
  (t / (ny * nz) < nx /\ (t / nz) mod ny < ny /\ t mod nz < nz /\
   t = (t / (ny * nz) * ny + (t / nz) mod ny) * nz + t mod nz)%nat.
Proof.
  intros Ht.
  assert (nz <> 0)%nat by (intro; subst; lia).
  assert (ny <> 0)%nat by (intro; subst; lia).
  repeat split.
  - apply Nat.Div0.div_lt_upper_bound. lia.
  - now apply Nat.mod_upper_bound.
  - now apply Nat.mod_upper_bound.
  - rewrite (Nat.mul_comm ny nz), <- Nat.Div0.div_div.
    pose proof (Nat.div_mod_eq (t / nz) ny). pose proof (Nat.div_mod_eq t nz). lia.
Qed.

(** ** Arrays built by tabulation *)

Lemma nth_tab (f : nat -> Qc) (n t : nat) :
  (t < n)%nat -> nth t (map f (seq 0 n)) 0 = f t.
Proof.
  intros Ht. rewrite (nth_indep _ 0 (f 0%nat)) by (rewrite length_map, length_seq; lia).
  rewrite (map_nth f (seq 0 n) 0%nat t). now rewrite seq_nth.
Qed.

Lemma shape3_tab3 sh f : shape3 (tab3 sh f) = sh.
Proof. now destruct sh as [[nx ny] nz]. Qed.

Lemma shape2_tab2 sh f : shape2 (tab2 sh f) = sh.
Proof. now destruct sh as [m n]. Qed.

Lemma wf3_tab3 sh f : wf3 (tab3 sh f).
Proof.
  destruct sh as [[nx ny] nz]. unfold wf3; simpl.
  now rewrite length_map, length_seq.
Qed.

Lemma at3_tab3 nx ny nz f i j k :
  (i < nx)%nat -> (j < ny)%nat -> (k < nz)%nat ->
  at3 (tab3 (nx, ny, nz) f) i j k = f i j k.
Proof.
  intros Hi Hj Hk. unfold at3; simpl.
  rewrite nth_tab by now apply flat_lt.
  now rewrite decode_i, decode_j, decode_k.
Qed.

Lemma at2_tab2 m n f i j :
  (i < m)%nat -> (j < n)%nat -> at2 (tab2 (m, n) f) i j = f i j.
Proof.
  intros Hi Hj. unfold at2; simpl.
  rewrite nth_tab by nia.
  replace ((i * n + j) / n)%nat with i
    by (rewrite Nat.div_add_l by lia; rewrite Nat.div_small by lia; lia).
  replace ((i * n + j) mod n)%nat with j
    by (rewrite Nat.add_comm, Nat.Div0.mod_add; symmetry; now apply Nat.mod_small).
  reflexivity.
Qed.

Lemma nth_map_in (f : Qc -> Qc) (l : vec) (t : nat) :
  (t < length l)%nat -> nth t (map f l) 0 = f (nth t l 0).
Proof.
  intros Ht. rewrite (nth_indep _ 0 (f 0)) by (now rewrite length_map).
  apply map_nth.
Qed.

(** Two well-formed arrays of one shape with the same entries are equal. *)
Lemma arr3_ext a b nx ny nz :
  wf3 a -> wf3 b -> shape3 a = (nx, ny, nz) -> shape3 b = (nx, ny, nz) ->
  (forall i j k, (i < nx)%nat -> (j < ny)%nat -> (k < nz)%nat ->
                 at3 a i j k = at3 b i j k) ->
  a = b.
Proof.
  destruct a as [sa ba], b as [sb bb]. unfold wf3, at3; simpl.
  intros Ha Hb -> -> H. f_equal. simpl in *.
  apply (nth_ext _ _ 0 0); [congruence|].
  intros t Ht. rewrite Ha in Ht.
  destruct (encode3 nx ny nz t Ht) as (Hi & Hj & Hk & Et).
  rewrite Et. now apply H.
Qed.

(** ** The NumPy operations on operands of matching shapes *)

Lemma norm_index_nat n i : (i < n)%nat -> norm_index n (Z.of_nat i) = Ok i.
Proof.
  intros Hi. unfold norm_index.
  replace ((0 <=? Z.of_nat i)%Z && (Z.of_nat i <? Z.of_nat n)%Z) with true
    by (symmetry; apply andb_true_intro; split; [apply Z.leb_le | apply Z.ltb_lt]; lia).
  now rewrite Nat2Z.id.
Qed.

Lemma norm_index_neg n (i : Z) :
  (- Z.of_nat n <= i < 0)%Z -> norm_index n i = Ok (Z.to_nat (Z.of_nat n + i)).
Proof.
  intros Hi. unfold norm_index.
  replace ((0 <=? i)%Z && (i <? Z.of_nat n)%Z) with false
    by (symmetry; apply andb_false_intro1; apply Z.leb_gt; lia).
  replace ((- Z.of_nat n <=? i)%Z && (i <? 0)%Z) with true
    by (symmetry; apply andb_true_intro; split; [apply Z.leb_le | apply Z.ltb_lt]; lia).
  reflexivity.
Qed.

Lemma norm_index_out n (i : Z) :
  (Z.of_nat n <= i \/ i < - Z.of_nat n)%Z -> norm_index n i = Raise IndexError.
Proof.
  intros Hi. unfold norm_index.
  replace ((0 <=? i)%Z && (i <? Z.of_nat n)%Z) with false.
  2:{ symmetry. destruct Hi; [apply andb_false_intro2; apply Z.ltb_ge
                             | apply andb_false_intro1; apply Z.leb_gt]; lia. }
  replace ((- Z.of_nat n <=? i)%Z && (i <? 0)%Z) with false.
  2:{ symmetry. destruct Hi; [apply andb_false_intro2; apply Z.ltb_ge
                             | apply andb_false_intro1; apply Z.leb_gt]; lia. }
  reflexivity.
Qed.

Lemma norm_index_last n : (1 <= n)%nat -> norm_index n (-1) = Ok (n - 1)%nat.
Proof. intros H. rewrite norm_index_neg by lia. f_equal. lia. Qed.

Lemma norm_index_last2 n : (2 <= n)%nat -> norm_index n (-2) = Ok (n - 2)%nat.
Proof. intros H. rewrite norm_index_neg by lia. f_equal. lia. Qed.

Lemma norm_index_0 n : (1 <= n)%nat -> norm_index n 0 = Ok 0%nat.
Proof. intros H. now apply (norm_index_nat n 0). Qed.

Lemma norm_index_1 n : (2 <= n)%nat -> norm_index n 1 = Ok 1%nat.
Proof. intros H. now apply (norm_index_nat n 1). Qed.

Lemma norm_index_lt n i m : norm_index n i = Ok m -> (m < n)%nat.
Proof.
  unfold norm_index.
  destruct ((0 <=? i)%Z && (i <? Z.of_nat n)%Z) eqn:E1.
  - apply andb_prop in E1 as [E1 E2]. apply Z.leb_le in E1. apply Z.ltb_lt in E2.
    intros [= <-]. lia.
  - destruct ((- Z.of_nat n <=? i)%Z && (i <? 0)%Z) eqn:E2; [|discriminate].
    apply andb_prop in E2 as [E2 E3]. apply Z.leb_le in E2. apply Z.ltb_lt in E3.
    intros [= <-]. lia.
Qed.

Lemma bdim_same n : bdim n n = Some n.
Proof. unfold bdim. now rewrite Nat.eqb_refl. Qed.

Lemma fits_same n : fits n n = true.
Proof. unfold fits. now rewrite Nat.eqb_refl. Qed.

Lemma bidx_lt n i : (i < n)%nat -> bidx n i = i.
Proof. unfold bidx. destruct (Nat.eqb_spec n 1); lia. Qed.

Lemma bat2_in a m n i j :
  shape2 a = (m, n) -> (i < m)%nat -> (j < n)%nat -> bat2 a i j = at2 a i j.
Proof. intros Hs Hi Hj. unfold bat2. rewrite Hs; simpl. now rewrite !bidx_lt. Qed.

Lemma bat3_in a nx ny nz i j k :
  shape3 a = (nx, ny, nz) -> (i < nx)%nat -> (j < ny)%nat -> (k < nz)%nat ->
  bat3 a i j k = at3 a i j k.
Proof. intros Hs Hi Hj Hk. unfold bat3. rewrite Hs. now rewrite !bidx_lt. Qed.

Lemma get_x_eq a nx ny nz i n :
  shape3 a = (nx, ny, nz) -> norm_index nx i = Ok n ->
  get_x a i = Ok (tab2 (ny, nz) (fun j k => at3 a n j k)).
Proof. intros Hs Hn. unfold get_x. now rewrite Hs, Hn. Qed.

Lemma get_y_eq a nx ny nz i n :
  shape3 a = (nx, ny, nz) -> norm_index ny i = Ok n ->
  get_y a i = Ok (tab2 (nx, nz) (fun i k => at3 a i n k)).
Proof. intros Hs Hn. unfold get_y. now rewrite Hs, Hn. Qed.

Lemma get_z_eq a nx ny nz i n :
  shape3 a = (nx, ny, nz) -> norm_index nz i = Ok n ->
  get_z a i = Ok (tab2 (nx, ny) (fun i j => at3 a i j n)).
Proof. intros Hs Hn. unfold get_z. now rewrite Hs, Hn. Qed.

Lemma zip2_eq op a b m n :
  shape2 a = (m, n) -> shape2 b = (m, n) ->
  zip2 op a b = Ok (tab2 (m, n) (fun i j => op (bat2 a i j) (bat2 b i j))).
Proof.
  intros Ha Hb. unfold zip2, bshape2. rewrite Ha, Hb; simpl. now rewrite !bdim_same.
Qed.

Lemma zip3_eq op a b nx ny nz :
  shape3 a = (nx, ny, nz) -> shape3 b = (nx, ny, nz) ->
  zip3 op a b = Ok (tab3 (nx, ny, nz) (fun i j k => op (bat3 a i j k) (bat3 b i j k))).
Proof.
  intros Ha Hb. unfold zip3, bshape3. rewrite Ha, Hb. now rewrite !bdim_same.
Qed.

Lemma set_x_eq a nx ny nz i n v :
  shape3 a = (nx, ny, nz) -> norm_index nx i = Ok n -> shape2 v = (ny, nz) ->
  set_x a i v = Ok (tab3 (nx, ny, nz)
                      (fun i j k => if i =? n then bat2 v j k else at3 a i j k)).
Proof.
  intros Hs Hn Hv. unfold set_x, fits2. rewrite Hs, Hn, Hv; simpl.
  now rewrite !fits_same.
Qed.

Lemma set_y_eq a nx ny nz i n v :
  shape3 a = (nx, ny, nz) -> norm_index ny i = Ok n -> shape2 v = (nx, nz) ->
  set_y a i v = Ok (tab3 (nx, ny, nz)
                      (fun i j k => if j =? n then bat2 v i k else at3 a i j k)).
Proof.
  intros Hs Hn Hv. unfold set_y, fits2. rewrite Hs, Hn, Hv; simpl.
  now rewrite !fits_same.
Qed.

Lemma set_z_eq a nx ny nz i n v :
  shape3 a = (nx, ny, nz) -> norm_index nz i = Ok n -> shape2 v = (nx, ny) ->
  set_z a i v = Ok (tab3 (nx, ny, nz)
                      (fun i j k => if k =? n then bat2 v i j else at3 a i j k)).
Proof.
  intros Hs Hn Hv. unfold set_z, fits2. rewrite Hs, Hn, Hv; simpl.
  now rewrite !fits_same.
Qed.

Lemma upd_mid_x_eq f a v nx ny nz :
  shape3 a = (nx, ny, nz) -> shape3 v = (nx - 2, ny, nz)%nat ->
  upd_mid_x f a v = Ok (tab3 (nx, ny, nz) (fun i j k =>
    if in_mid nx i then f (at3 a i j k) (bat3 v (i - 1) j k) else at3 a i j k)).
Proof.
  intros Hs Hv. unfold upd_mid_x, fits3. rewrite Hs, Hv. now rewrite !fits_same.
Qed.

Lemma upd_mid_y_eq f a v nx ny nz :
  shape3 a = (nx, ny, nz) -> shape3 v = (nx, ny - 2, nz)%nat ->
  upd_mid_y f a v = Ok (tab3 (nx, ny, nz) (fun i j k =>
    if in_mid ny j then f (at3 a i j k) (bat3 v i (j - 1) k) else at3 a i j k)).
Proof.
  intros Hs Hv. unfold upd_mid_y, fits3. rewrite Hs, Hv. now rewrite !fits_same.
Qed.

Lemma upd_mid_z_eq f a v nx ny nz :
  shape3 a = (nx, ny, nz) -> shape3 v = (nx, ny, nz - 2)%nat ->
  upd_mid_z f a v = Ok (tab3 (nx, ny, nz) (fun i j k =>
    if in_mid nz k then f (at3 a i j k) (bat3 v i j (k - 1)) else at3 a i j k)).
Proof.
  intros Hs Hv. unfold upd_mid_z, fits3. rewrite Hs, Hv. now rewrite !fits_same.
Qed.

Lemma iadd3_eq a v nx ny nz :
  shape3 a = (nx, ny, nz) -> shape3 v = (nx, ny, nz) ->
  iadd3 a v = Ok (tab3 (nx, ny, nz) (fun i j k => at3 a i j k + bat3 v i j k)).
Proof.
  intros Hs Hv. unfold iadd3, fits3. rewrite Hs, Hv. now rewrite !fits_same.
Qed.

Lemma in_mid_iff n i : in_mid n i = true <-> (1 <= i /\ i + 1 < n)%nat.
Proof.
  unfold in_mid. rewrite andb_true_iff, Nat.leb_le, Nat.ltb_lt. lia.
Qed.

Lemma tab3_ext nx ny nz f g :
  (forall i j k, (i < nx)%nat -> (j < ny)%nat -> (k < nz)%nat -> f i j k = g i j k) ->
  tab3 (nx, ny, nz) f = tab3 (nx, ny, nz) g.
Proof.
  intros H. unfold tab3. f_equal. apply map_ext_in. intros t Ht.
  apply in_seq in Ht. destruct (encode3 nx ny nz t) as (Hi & Hj & Hk & _); [lia|].
  now apply H.
Qed.

Lemma map3_tab3 h sh f : map3 h (tab3 sh f) = tab3 sh (fun i j k => h (f i j k)).
Proof. destruct sh as [[nx ny] nz]. unfold map3, tab3; simpl. now rewrite map_map. Qed.

Lemma map2_tab2 h sh f : map2 h (tab2 sh f) = tab2 sh (fun i j => h (f i j)).
Proof. destruct sh as [m n]. unfold map2, tab2; simpl. now rewrite map_map. Qed.

Lemma bat3_tab3 nx ny nz f i j k :
  (i < nx)%nat -> (j < ny)%nat -> (k < nz)%nat ->
  bat3 (tab3 (nx, ny, nz) f) i j k = f i j k.
Proof.
  intros. rewrite (bat3_in _ nx ny nz) by (auto using shape3_tab3).
  now apply at3_tab3.
Qed.

Lemma bat2_tab2 m n f i j :
  (i < m)%nat -> (j < n)%nat -> bat2 (tab2 (m, n) f) i j = f i j.
Proof.
  intros. rewrite (bat2_in _ m n) by (auto using shape2_tab2).
  now apply at2_tab2.
Qed.

(** Simplification of entries of tabulated arrays, bounds by [lia]. *)
Ltac arr :=
  repeat first
    [ rewrite map3_tab3 | rewrite map2_tab2
    | rewrite shape3_tab3 | rewrite shape2_tab2
    | rewrite at3_tab3 by lia | rewrite at2_tab2 by lia
    | rewrite bat3_tab3 by lia | rewrite bat2_tab2 by lia ].

(** ** The gradient blocks of [_calc_gradients] *)

Section Gradients.

Variables (nx ny nz : nat) (a d : arr3) (delta : Qc).
Hypothesis Ha : shape3 a = (nx, ny, nz).
Hypothesis Hd : shape3 d = (nx, ny, nz).
Hypothesis Hnx : (2 <= nx)%nat.
Hypothesis Hny : (2 <= ny)%nat.
Hypothesis Hnz : (2 <= nz)%nat.

Lemma grad_x_blocks :
  exists d1 d2,
    (let? p := get_x a 1 in let? q := get_x a 0 in
     let? e := sub2 p q in set_x d 0 (divs2 e delta)) = Ok d1 /\
    (let? p := get_x a (-1) in let? q := get_x a (-2) in
     let? e := sub2 p q in set_x d1 (-1) (divs2 e delta)) = Ok d2 /\
    (let? e := sub3 (from2_x a) (upto2_x a) in
     set_mid_x d2 (divs3 e (flt 2 * delta))) = Ok (grad_x delta a).
Proof using Ha Hd Hnx Hny Hnz.
  do 2 eexists. split; [|split].
  - rewrite (get_x_eq a nx ny nz 1 1), (get_x_eq a nx ny nz 0 0)
      by (auto using norm_index_0, norm_index_1 with arith).
    cbn [rbind]. unfold sub2. erewrite zip2_eq by apply shape2_tab2. cbn [rbind].
    unfold divs2. rewrite map2_tab2.
    erewrite (set_x_eq d nx ny nz 0 0);
      [reflexivity | auto | apply norm_index_0; lia | apply shape2_tab2].
  - rewrite (get_x_eq a nx ny nz (-1) (nx - 1)), (get_x_eq a nx ny nz (-2) (nx - 2))
      by (auto using norm_index_last, norm_index_last2 with arith).
    cbn [rbind]. unfold sub2. erewrite zip2_eq by apply shape2_tab2. cbn [rbind].
    unfold divs2. rewrite map2_tab2.
    erewrite (set_x_eq _ nx ny nz (-1) (nx - 1));
      [reflexivity | apply shape3_tab3 | apply norm_index_last; lia | apply shape2_tab2].
  - unfold from2_x, upto2_x, sub3. rewrite Ha.
    erewrite zip3_eq by apply shape3_tab3. cbn [rbind].
    unfold divs3, set_mid_x. rewrite map3_tab3.
    erewrite upd_mid_x_eq by apply shape3_tab3.
    f_equal. unfold grad_x. rewrite Ha. apply tab3_ext. intros i j k Hi Hj Hk.
    unfold fd, assign.
    destruct (in_mid nx i) eqn:Em.
    + apply in_mid_iff in Em.
      destruct (Nat.eqb_spec i 0); [lia|]. destruct (Nat.eqb_spec i (nx - 1)); [lia|].
      arr. replace (i - 1 + 2)%nat with (i + 1)%nat by lia. reflexivity.
    + assert (i = 0 \/ i = nx - 1)%nat as Hi'.
      { destruct (in_mid nx i) eqn:E'; [discriminate|].
        unfold in_mid in E'. apply andb_false_iff in E' as [E'|E'];
          [apply Nat.leb_gt in E' | apply Nat.ltb_ge in E']; lia. }
      arr.
      destruct (Nat.eqb_spec i 0) as [-> | Hne].
      * destruct (Nat.eqb_spec 0 (nx - 1)); [lia|]. arr. reflexivity.
      * destruct Hi' as [-> | ->]; [lia|]. rewrite Nat.eqb_refl. arr. reflexivity.
Qed.

Lemma grad_y_blocks :
  exists d1 d2,
    (let? p := get_y a 1 in let? q := get_y a 0 in
     let? e := sub2 p q in set_y d 0 (divs2 e delta)) = Ok d1 /\
    (let? p := get_y a (-1) in let? q := get_y a (-2) in
     let? e := sub2 p q in set_y d1 (-1) (divs2 e delta)) = Ok d2 /\
    (let? e := sub3 (from2_y a) (upto2_y a) in
     set_mid_y d2 (divs3 e (flt 2 * delta))) = Ok (grad_y delta a).
Proof using Ha Hd Hnx Hny Hnz.
  do 2 eexists. split; [|split].
  - rewrite (get_y_eq a nx ny nz 1 1), (get_y_eq a nx ny nz 0 0)
      by (auto using norm_index_0, norm_index_1 with arith).
    cbn [rbind]. unfold sub2. erewrite zip2_eq by apply shape2_tab2. cbn [rbind].
    unfold divs2. rewrite map2_tab2.
    erewrite (set_y_eq d nx ny nz 0 0);
      [reflexivity | auto | apply norm_index_0; lia | apply shape2_tab2].
  - rewrite (get_y_eq a nx ny nz (-1) (ny - 1)), (get_y_eq a nx ny nz (-2) (ny - 2))
      by (auto using norm_index_last, norm_index_last2 with arith).
    cbn [rbind]. unfold sub2. erewrite zip2_eq by apply shape2_tab2. cbn [rbind].
    unfold divs2. rewrite map2_tab2.
    erewrite (set_y_eq _ nx ny nz (-1) (ny - 1));
      [reflexivity | apply shape3_tab3 | apply norm_index_last; lia | apply shape2_tab2].
  - unfold from2_y, upto2_y, sub3. rewrite Ha.
    erewrite zip3_eq by apply shape3_tab3. cbn [rbind].
    unfold divs3, set_mid_y. rewrite map3_tab3.
    erewrite upd_mid_y_eq by apply shape3_tab3.
    f_equal. unfold grad_y. rewrite Ha. apply tab3_ext. intros i j k Hi Hj Hk.
    unfold fd, assign.
    destruct (in_mid ny j) eqn:Em.
    + apply in_mid_iff in Em.
      destruct (Nat.eqb_spec j 0); [lia|]. destruct (Nat.eqb_spec j (ny - 1)); [lia|].
      arr. replace (j - 1 + 2)%nat with (j + 1)%nat by lia. reflexivity.
    + assert (j = 0 \/ j = ny - 1)%nat as Hi'.
      { destruct (in_mid ny j) eqn:E'; [discriminate|].
        unfold in_mid in E'. apply andb_false_iff in E' as [E'|E'];
          [apply Nat.leb_gt in E' | apply Nat.ltb_ge in E']; lia. }
      arr.
      destruct (Nat.eqb_spec j 0) as [-> | Hne].
      * destruct (Nat.eqb_spec 0 (ny - 1)); [lia|]. arr. reflexivity.
      * destruct Hi' as [-> | ->]; [lia|]. rewrite Nat.eqb_refl. arr. reflexivity.
Qed.

Lemma grad_z_blocks :
  exists d1 d2,
    (let? p := get_z a 1 in let? q := get_z a 0 in
     let? e := sub2 p q in set_z d 0 (divs2 e delta)) = Ok d1 /\
    (let? p := get_z a (-1) in let? q := get_z a (-2) in
     let? e := sub2 p q in set_z d1 (-1) (divs2 e delta)) = Ok d2 /\
    (let? e := sub3 (from2_z a) (upto2_z a) in
     set_mid_z d2 (divs3 e (flt 2 * delta))) = Ok (grad_z delta a).
Proof using Ha Hd Hnx Hny Hnz.
  do 2 eexists. split; [|split].
  - rewrite (get_z_eq a nx ny nz 1 1), (get_z_eq a nx ny nz 0 0)
      by (auto using norm_index_0, norm_index_1 with arith).
    cbn [rbind]. unfold sub2. erewrite zip2_eq by apply shape2_tab2. cbn [rbind].
    unfold divs2. rewrite map2_tab2.
    erewrite (set_z_eq d nx ny nz 0 0);
      [reflexivity | auto | apply norm_index_0; lia | apply shape2_tab2].
  - rewrite (get_z_eq a nx ny nz (-1) (nz - 1)), (get_z_eq a nx ny nz (-2) (nz - 2))
      by (auto using norm_index_last, norm_index_last2 with arith).
    cbn [rbind]. unfold sub2. erewrite zip2_eq by apply shape2_tab2. cbn [rbind].
    unfold divs2. rewrite map2_tab2.
    erewrite (set_z_eq _ nx ny nz (-1) (nz - 1));
      [reflexivity | apply shape3_tab3 | apply norm_index_last; lia | apply shape2_tab2].
  - unfold from2_z, upto2_z, sub3. rewrite Ha.
    erewrite zip3_eq by apply shape3_tab3. cbn [rbind].
    unfold divs3, set_mid_z. rewrite map3_tab3.
    erewrite upd_mid_z_eq by apply shape3_tab3.
    f_equal. unfold grad_z. rewrite Ha. apply tab3_ext. intros i j k Hi Hj Hk.
    unfold fd, assign.
    destruct (in_mid nz k) eqn:Em.
    + apply in_mid_iff in Em.
      destruct (Nat.eqb_spec k 0); [lia|]. destruct (Nat.eqb_spec k (nz - 1)); [lia|].
      arr. replace (k - 1 + 2)%nat with (k + 1)%nat by lia. reflexivity.
    + assert (k = 0 \/ k = nz - 1)%nat as Hi'.
      { destruct (in_mid nz k) eqn:E'; [discriminate|].
        unfold in_mid in E'. apply andb_false_iff in E' as [E'|E'];
          [apply Nat.leb_gt in E' | apply Nat.ltb_ge in E']; lia. }
      arr.
      destruct (Nat.eqb_spec k 0) as [-> | Hne].
      * destruct (Nat.eqb_spec 0 (nz - 1)); [lia|]. arr. reflexivity.
      * destruct Hi' as [-> | ->]; [lia|]. rewrite Nat.eqb_refl. arr. reflexivity.
Qed.

End Gradients.

(** ** Running a method *)

Lemma mbind_ok {S A B} (m : M S A) (k : A -> M S B) s a s' :
  m s = (Ok a, s') -> mbind m k s = k a s'.
Proof. intros H. unfold mbind. now rewrite H. Qed.

Lemma mbind_raise {S A B} (m : M S A) (k : A -> M S B) s e s' :
  m s = (Raise e, s') -> mbind m k s = (Raise e, s').
Proof. intros H. unfold mbind. now rewrite H. Qed.

Lemma mbind_lift {S A B} (r : res A) (k : A -> M S B) s a :
  r = Ok a -> mbind (lift r) k s = k a s.
Proof. intros ->. reflexivity. Qed.

Lemma mbind_attr {S A B} (f : S -> option A) (k : A -> M S B) s a :
  f s = Some a -> mbind (attr f) k s = k a s.
Proof. intros H. unfold mbind, attr. now rewrite H. Qed.

Lemma mbind_reads {S A B} (f : S -> A) (k : A -> M S B) s :
  mbind (reads f) k s = k (f s) s.
Proof. reflexivity. Qed.

Lemma mbind_modify {S B} (f : S -> S) (k : unit -> M S B) s :
  mbind (modify f) k s = k tt (f s).
Proof. reflexivity. Qed.

Lemma mbind_mret {S A B} (a : A) (k : A -> M S B) s :
  mbind (mret a) k s = k a s.
Proof. reflexivity. Qed.

Module PressureFieldFacts.
Import PressureField.

Lemma or_attr_pick arg f s a :
  pick arg (f s) = Some a -> or_attr arg f s = (Ok a, s).
Proof.
  destruct arg as [b|]; simpl.
  - now intros [= ->].
  - intros H. unfold attr. now rewrite H.
Qed.

Lemma shape3_grad_x delta a : shape3 (grad_x delta a) = shape3 a.
Proof. unfold grad_x. destruct (shape3 a) as [[nx ny] nz]. apply shape3_tab3. Qed.

Lemma shape3_grad_y delta a : shape3 (grad_y delta a) = shape3 a.
Proof. unfold grad_y. destruct (shape3 a) as [[nx ny] nz]. apply shape3_tab3. Qed.

Lemma shape3_grad_z delta a : shape3 (grad_z delta a) = shape3 a.
Proof. unfold grad_z. destruct (shape3 a) as [[nx ny] nz]. apply shape3_tab3. Qed.

(** On three arrays of the shape of [u0], with at least two nodes along
    every axis, [_calc_gradients] returns the three finite differences and
    leaves the object as it was. *)
Lemma calc_gradients_eq s u_ v_ w_ ua va wa s0 nx ny nz :
  pick u_ (u0 s) = Some ua -> pick v_ (v0 s) = Some va -> pick w_ (w0 s) = Some wa ->
  u0 s = Some s0 -> shape3 s0 = (nx, ny, nz) ->
  shape3 ua = (nx, ny, nz) -> shape3 va = (nx, ny, nz) -> shape3 wa = (nx, ny, nz) ->
  (2 <= nx)%nat -> (2 <= ny)%nat -> (2 <= nz)%nat ->
  _calc_gradients u_ v_ w_ s
  = (Ok (grad_x (dx (geom s)) ua, grad_y (dy (geom s)) va, grad_z (dz (geom s)) wa), s).
Proof.
  intros Pu Pv Pw H0 Hs0 Hu Hv Hw Hnx Hny Hnz. unfold _calc_gradients.
  rewrite (mbind_ok _ _ _ _ _ (or_attr_pick _ _ _ _ Pu)).
  rewrite (mbind_ok _ _ _ _ _ (or_attr_pick _ _ _ _ Pv)).
  rewrite (mbind_ok _ _ _ _ _ (or_attr_pick _ _ _ _ Pw)).
  rewrite mbind_reads, (mbind_attr _ _ _ _ H0). rewrite Hs0.
  assert (Hz : shape3 (np_zeros3 (nx, ny, nz)) = (nx, ny, nz)) by apply shape3_tab3.
  destruct (grad_x_blocks nx ny nz ua _ (dx (geom s)) Hu Hz Hnx Hny Hnz) as (x1 & x2 & X1 & X2 & X3).
  destruct (grad_y_blocks nx ny nz va _ (dy (geom s)) Hv Hz Hnx Hny Hnz) as (y1 & y2 & Y1 & Y2 & Y3).
  destruct (grad_z_blocks nx ny nz wa _ (dz (geom s)) Hw Hz Hnx Hny Hnz) as (z1 & z2 & Z1 & Z2 & Z3).
  rewrite (mbind_lift _ _ _ _ X1), (mbind_lift _ _ _ _ X2), (mbind_lift _ _ _ _ X3).
  rewrite (mbind_lift _ _ _ _ Y1), (mbind_lift _ _ _ _ Y2), (mbind_lift _ _ _ _ Y3).
  rewrite (mbind_lift _ _ _ _ Z1), (mbind_lift _ _ _ _ Z2), (mbind_lift _ _ _ _ Z3).
  reflexivity.
Qed.

Lemma set_RHS_run s gx gy gz ua va wa nx ny nz :
  shape3 ua = (nx, ny, nz) -> shape3 va = (nx, ny, nz) -> shape3 wa = (nx, ny, nz) ->
  gx = grad_x (dx (geom s)) ua -> gy = grad_y (dy (geom s)) va ->
  gz = grad_z (dz (geom s)) wa ->
  _set_RHS gx (Some gy) (Some gz) s
  = (Ok tt, set_RHS (Some (ravel (divergence (dx (geom s)) (dy (geom s)) (dz (geom s))
                                             ua va wa))) s).
Proof.
  intros Hu Hv Hw -> -> ->. unfold _set_RHS.
  erewrite mbind_lift
    by (apply (iadd3_eq _ _ nx ny nz); rewrite ?shape3_grad_x, ?shape3_grad_y; auto).
  erewrite mbind_lift
    by (apply (iadd3_eq _ _ nx ny nz); rewrite ?shape3_tab3, ?shape3_grad_z; auto).
  unfold modify. do 4 f_equal.
  unfold divergence, grad_x, grad_y, grad_z. rewrite Hu, Hv, Hw.
  apply tab3_ext. intros i j k Hi Hj Hk. arr. reflexivity.
Qed.

Lemma update_RHS_run s ua va wa nx ny nz :
  u0 s = Some ua -> v0 s = Some va -> w0 s = Some wa ->
  shape3 ua = (nx, ny, nz) -> shape3 va = (nx, ny, nz) -> shape3 wa = (nx, ny, nz) ->
  (2 <= nx)%nat -> (2 <= ny)%nat -> (2 <= nz)%nat ->
  update_RHS s
  = (Ok tt, set_RHS (Some (ravel (divergence (dx (geom s)) (dy (geom s)) (dz (geom s))
                                             ua va wa))) s).
Proof.
  intros Hu Hv Hw Su Sv Sw Hnx Hny Hnz. unfold update_RHS.
  erewrite mbind_ok
    by (apply (calc_gradients_eq s None None None ua va wa ua nx ny nz); auto).
  now apply (set_RHS_run s _ _ _ ua va wa nx ny nz).
Qed.

Lemma dp_x_eq pa nx ny nz c :
  shape3 pa = (nx, ny, nz) ->
  (let? d := sub3 (from2_x pa) (upto2_x pa) in Ok (divs3 d c))
  = Ok (tab3 (nx - 2, ny, nz)%nat (fun i j k => (at3 pa (i + 2) j k - at3 pa i j k) / c)).
Proof.
  intros Hp. unfold sub3, from2_x, upto2_x. rewrite Hp.
  erewrite zip3_eq by apply shape3_tab3. cbn [rbind]. unfold divs3.
  rewrite map3_tab3. f_equal. apply tab3_ext. intros i j k Hi Hj Hk. arr. reflexivity.
Qed.

Lemma isub_x_eq A delta pa a nx ny nz :
  shape3 a = (nx, ny, nz) ->
  isub_mid_x a (muls3 A (tab3 (nx - 2, ny, nz)%nat
     (fun i j k => (at3 pa (i + 2) j k - at3 pa i j k) / (flt 2 * delta))))
  = Ok (corrected_u A delta pa a).
Proof.
  intros Ha. unfold isub_mid_x, muls3. rewrite map3_tab3.
  erewrite upd_mid_x_eq; [| exact Ha | apply shape3_tab3].
  f_equal. unfold corrected_u. rewrite Ha. apply tab3_ext. intros i j k Hi Hj Hk.
  destruct (in_mid nx i) eqn:Em; [|reflexivity].
  apply in_mid_iff in Em. arr.
  replace (i - 1 + 2)%nat with (i + 1)%nat by lia. reflexivity.
Qed.

Lemma dp_y_eq pa nx ny nz c :
  shape3 pa = (nx, ny, nz) ->
  (let? d := sub3 (from2_y pa) (upto2_y pa) in Ok (divs3 d c))
  = Ok (tab3 (nx, ny - 2, nz)%nat (fun i j k => (at3 pa i (j + 2) k - at3 pa i j k) / c)).
Proof.
  intros Hp. unfold sub3, from2_y, upto2_y. rewrite Hp.
  erewrite zip3_eq by apply shape3_tab3. cbn [rbind]. unfold divs3.
  rewrite map3_tab3. f_equal. apply tab3_ext. intros i j k Hi Hj Hk. arr. reflexivity.
Qed.

Lemma isub_y_eq A delta pa a nx ny nz :
  shape3 a = (nx, ny, nz) ->
  isub_mid_y a (muls3 A (tab3 (nx, ny - 2, nz)%nat
     (fun i j k => (at3 pa i (j + 2) k - at3 pa i j k) / (flt 2 * delta))))
  = Ok (corrected_v A delta pa a).
Proof.
  intros Ha. unfold isub_mid_y, muls3. rewrite map3_tab3.
  erewrite upd_mid_y_eq; [| exact Ha | apply shape3_tab3].
  f_equal. unfold corrected_v. rewrite Ha. apply tab3_ext. intros i j k Hi Hj Hk.
  destruct (in_mid ny j) eqn:Em; [|reflexivity].
  apply in_mid_iff in Em. arr.
  replace (j - 1 + 2)%nat with (j + 1)%nat by lia. reflexivity.
Qed.

Lemma dp_z_eq pa nx ny nz c :
  shape3 pa = (nx, ny, nz) ->
  (let? d := sub3 (from2_z pa) (upto2_z pa) in Ok (divs3 d c))
  = Ok (tab3 (nx, ny, nz - 2)%nat (fun i j k => (at3 pa i j (k + 2) - at3 pa i j k) / c)).
Proof.
  intros Hp. unfold sub3, from2_z, upto2_z. rewrite Hp.
  erewrite zip3_eq by apply shape3_tab3. cbn [rbind]. unfold divs3.
  rewrite map3_tab3. f_equal. apply tab3_ext. intros i j k Hi Hj Hk. arr. reflexivity.
Qed.

Lemma isub_z_eq A delta pa a nx ny nz :
  shape3 a = (nx, ny, nz) ->
  isub_mid_z a (muls3 A (tab3 (nx, ny, nz - 2)%nat
     (fun i j k => (at3 pa i j (k + 2) - at3 pa i j k) / (flt 2 * delta))))
  = Ok (corrected_w A delta pa a).
Proof.
  intros Ha. unfold isub_mid_z, muls3. rewrite map3_tab3.
  erewrite upd_mid_z_eq; [| exact Ha | apply shape3_tab3].
  f_equal. unfold corrected_w. rewrite Ha. apply tab3_ext. intros i j k Hi Hj Hk.
  destruct (in_mid nz k) eqn:Em; [|reflexivity].
  apply in_mid_iff in Em. arr.
  replace (k - 1 + 2)%nat with (k + 1)%nat by lia. reflexivity.
Qed.

Lemma correct_fields_run s A pa ua va wa nx ny nz :
  p s = Some pa -> u0 s = Some ua -> v0 s = Some va -> w0 s = Some wa ->
  shape3 pa = (nx, ny, nz) ->
  shape3 ua = (nx, ny, nz) -> shape3 va = (nx, ny, nz) -> shape3 wa = (nx, ny, nz) ->
  _correct_fields A s
  = (Ok tt, set_w (corrected_w A (dz (geom s)) pa wa)
              (set_v (corrected_v A (dy (geom s)) pa va)
                 (set_u (corrected_u A (dx (geom s)) pa ua) s))).
Proof.
  intros Hp Hu Hv Hw Sp Su Sv Sw. unfold _correct_fields.
  rewrite mbind_reads.
  rewrite (mbind_attr _ _ _ _ Hp), (mbind_lift _ _ _ _ (dp_x_eq pa nx ny nz _ Sp)).
  rewrite (mbind_attr _ _ _ _ Hp), (mbind_lift _ _ _ _ (dp_y_eq pa nx ny nz _ Sp)).
  rewrite (mbind_attr _ _ _ _ Hp), (mbind_lift _ _ _ _ (dp_z_eq pa nx ny nz _ Sp)).
  rewrite (mbind_attr _ _ _ _ Hu), mbind_modify.
  erewrite mbind_attr by exact Hv. rewrite mbind_modify.
  erewrite mbind_attr by exact Hw. rewrite mbind_modify.
  erewrite mbind_attr by reflexivity.
  erewrite mbind_lift by (apply (isub_x_eq _ _ _ _ nx ny nz); exact Su).
  rewrite mbind_modify.
  erewrite mbind_attr by reflexivity.
  erewrite mbind_lift by (apply (isub_y_eq _ _ _ _ nx ny nz); exact Sv).
  rewrite mbind_modify.
  erewrite mbind_attr by reflexivity.
  erewrite mbind_lift by (apply (isub_z_eq _ _ _ _ nx ny nz); exact Sw).
  reflexivity.
Qed.

End PressureFieldFacts.

(** ** Assembly of the operator *)

Lemma length_vdivs v c : length (vdivs v c) = length v.
Proof. apply length_map. Qed.

Lemma length_vmuls v c : length (vmuls c v) = length v.
Proof. apply length_map. Qed.

Lemma length_ones n : length (np_ones n) = n.
Proof. apply repeat_length. Qed.

Lemma length_upto_neg k v : (0 < k)%nat -> length (upto_neg k v) = (length v - k)%nat.
Proof.
  intros Hk. destruct k; [lia|]. unfold upto_neg. rewrite length_firstn. lia.
Qed.

Lemma length_map_idx f v : length (map_idx f v) = length v.
Proof. unfold map_idx. now rewrite length_map, length_seq. Qed.

Lemma length_slice_isub a b c v : length (slice_isub a b c v) = length v.
Proof. apply length_map_idx. Qed.

Lemma length_fold_isub (f : nat -> Z * Z) c l v :
  length (fold_left (fun od i => slice_isub (fst (f i)) (snd (f i)) c od) l v)
  = length v.
Proof.
  revert v. induction l as [|i l IH]; intros v; simpl; [reflexivity|].
  now rewrite IH, length_slice_isub.
Qed.

Lemma vsub_eq a b n :
  length a = n -> length b = n ->
  vsub a b = Ok (map (fun i => nth i a 0 - nth i b 0) (seq 0 n)).
Proof.
  intros Ha Hb. unfold vsub. rewrite Ha, Hb, bdim_same. f_equal.
  apply map_ext_in. intros i Hi. apply in_seq in Hi. now rewrite !bidx_lt by lia.
Qed.

Lemma length_band_x n ny nz dx :
  (0 < ny * nz)%nat -> length (band_x n ny nz dx) = (n - ny * nz)%nat.
Proof.
  intros H. unfold band_x. now rewrite length_vdivs, length_upto_neg, length_ones.
Qed.

Lemma length_band_y n ny nz dy :
  (0 < nz)%nat -> length (band_y n ny nz dy) = (n - nz)%nat.
Proof.
  intros H. unfold band_y.
  rewrite (length_fold_isub (fun i => ((Z.of_nat i - Z.of_nat nz)%Z, Z.of_nat i))).
  now rewrite length_vdivs, length_upto_neg, length_ones.
Qed.

Lemma length_band_z n nz dz : length (band_z n nz dz) = (n - 1)%nat.
Proof.
  unfold band_z. rewrite length_map_idx, length_vdivs, length_upto_neg, length_ones; lia.
Qed.

Lemma length_band_0 n dx dy dz : length (band_0 n dx dy dz) = n.
Proof. unfold band_0. now rewrite length_map, length_seq. Qed.

Module SetupFacts.
Import PressureField.

(** On a grid with at least two nodes along [y] and [z], [_setup_LHS]
    succeeds and stores the seven bands. *)
Lemma setup_LHS_run s :
  let g := geom s in
  N g = (Nx g * Ny g * Nz g)%nat ->
  (1 <= Nx g)%nat -> (2 <= Ny g)%nat -> (2 <= Nz g)%nat ->
  _setup_LHS s
  = (Ok tt, set_LHS (Some (operator (N g) (Ny g) (Nz g) (dx g) (dy g) (dz g))) s).
Proof.
  intros g HN Hx Hy Hz. unfold _setup_LHS. rewrite mbind_reads. fold g.
  assert (Hoff : (0 < Ny g * Nz g)%nat) by nia.
  assert (Hle : (Ny g * Nz g <= N g)%nat) by (rewrite HN; nia).
  assert (Hlt : (Nz g < Ny g * Nz g)%nat) by nia.
  erewrite mbind_lift
    by (apply (vsub_eq _ _ (N g)); now rewrite length_vdivs, length_vmuls, length_ones).
  erewrite mbind_lift
    by (apply (vsub_eq _ _ (N g));
        [now rewrite length_map, length_seq
        | now rewrite length_vdivs, length_vmuls, length_ones]).
  unfold py_range. destruct (Ny g * Nz g)%nat as [|off] eqn:Eoff; [lia|].
  rewrite <- Eoff. rewrite mbind_lift with (a := map (fun t => (Ny g * Nz g + t * (Ny g * Nz g))%nat)
     (seq 0 ((length (vdivs (upto_neg (Nz g) (np_ones (N g))) (dy g ^ 2))
              - Ny g * Nz g + Ny g * Nz g - 1) / (Ny g * Nz g))))
    by (now rewrite Eoff).
  unfold stride_isub. destruct (Nz g) as [|nz'] eqn:Enz; [lia|]. rewrite <- Enz.
  rewrite mbind_lift with (a := band_z (N g) (Nz g) (dz g)) by reflexivity.
  fold (band_x (N g) (Ny g) (Nz g) (dx g)).
  fold (band_y (N g) (Ny g) (Nz g) (dy g)).
  fold (band_0 (N g) (dx g) (dy g) (dz g)).
  erewrite mbind_lift; [reflexivity|].
  unfold diags, operator.
  replace (length (band_x (N g) (Ny g) (Nz g) (dx g))
           + Z.abs_nat (- Z.of_nat (Ny g * Nz g)))%nat with (N g)
    by (rewrite length_band_x by lia; lia).
  cbn [length combine zdistinct existsb forallb fst snd band_len_ok].
  unfold band_len_ok; cbn [fst snd].
  rewrite !length_band_x, !length_band_y, !length_band_z, !length_band_0 by lia.
  repeat match goal with
  | |- context [(?a =? ?b)%Z] =>
      first [ replace (a =? b)%Z with true by (symmetry; apply Z.eqb_eq; lia)
            | replace (a =? b)%Z with false by (symmetry; apply Z.eqb_neq; lia) ]
  end.
  reflexivity.
Qed.

End SetupFacts.

(** ** The entries of the bands *)

Lemma nth_map_idx f v b :
  (b < length v)%nat -> nth b (map_idx f v) 0 = f b (nth b v 0).
Proof. intros Hb. unfold map_idx. now rewrite nth_tab. Qed.

Lemma nth_ones n b : (b < n)%nat -> nth b (np_ones n) 0 = 1.
Proof.
  intros Hb. unfold np_ones.
  apply (@nth_repeat_lt _ 1 n b 0). exact Hb.
Qed.

Lemma nth_upto_neg k v b :
  (0 < k)%nat -> (b < length v - k)%nat -> nth b (upto_neg k v) 0 = nth b v 0.
Proof.
  intros Hk Hb. destruct k; [lia|]. unfold upto_neg.
  now rewrite nth_firstn, (proj2 (Nat.ltb_lt _ _) Hb).
Qed.

Lemma nth_band_x n ny nz dx b :
  (0 < ny * nz)%nat -> (b < n - ny * nz)%nat -> nth b (band_x n ny nz dx) 0 = 1 / dx ^ 2.
Proof.
  intros Hk Hb. unfold band_x, vdivs.
  rewrite nth_map_in by (rewrite length_upto_neg, length_ones; lia).
  rewrite nth_upto_neg, nth_ones by (rewrite ?length_ones; lia). reflexivity.
Qed.

Lemma nth_band_0 n dx dy dz b :
  (b < n)%nat ->
  nth b (band_0 n dx dy dz) 0 = flt (-2) / dx ^ 2 - flt 2 / dy ^ 2 - flt 2 / dz ^ 2.
Proof.
  intros Hb. unfold band_0, vdivs, vmuls. rewrite !nth_tab by lia.
  rewrite !nth_map_in by (rewrite ?length_map, length_ones; lia).
  rewrite !nth_ones by lia. now rewrite !Qcmult_1_r.
Qed.

Lemma stride_hits nz b :
  (1 <= nz)%nat ->
  (nz - 1 <=? b) && ((b - (nz - 1)) mod nz =? 0) = (b mod nz =? nz - 1).
Proof.
  intros Hnz. apply eq_true_iff_eq.
  rewrite andb_true_iff, Nat.leb_le, !Nat.eqb_eq. split.
  - intros [Hle Hm].
    pose proof (Nat.div_mod_eq (b - (nz - 1)) nz) as E. rewrite Hm in E.
    replace b with (nz - 1 + (b - (nz - 1)) / nz * nz)%nat at 1 by lia.
    rewrite Nat.Div0.mod_add. apply Nat.mod_small. lia.
  - intros Hm. pose proof (Nat.div_mod_eq b nz) as E. rewrite Hm in E.
    split; [nia|].
    replace (b - (nz - 1))%nat with (0 + b / nz * nz)%nat by lia.
    rewrite Nat.Div0.mod_add. apply Nat.Div0.mod_0_l.
Qed.

Lemma nth_band_z n nz dz b :
  (1 <= nz)%nat -> (b < n - 1)%nat ->
  nth b (band_z n nz dz) 0 = if b mod nz =? nz - 1 then 0 else 1 / dz ^ 2.
Proof.
  intros Hnz Hb. unfold band_z.
  rewrite nth_map_idx by (rewrite length_vdivs, length_upto_neg, length_ones; lia).
  rewrite stride_hits by lia. unfold vdivs.
  rewrite nth_map_in by (rewrite length_upto_neg, length_ones; lia).
  rewrite nth_upto_neg, nth_ones by (rewrite ?length_ones; lia).
  destruct (b mod nz =? nz - 1); [ring | reflexivity].
Qed.

Lemma clamp_nat n i : (i <= n)%nat -> clamp n (Z.of_nat i) = i.
Proof.
  intros Hi. unfold clamp.
  destruct (Z.ltb_spec (Z.of_nat i) 0); [lia|]. rewrite Nat2Z.id. lia.
Qed.

Lemma nth_slice_isub lo hi c v b :
  (lo <= hi)%nat -> (hi <= length v)%nat -> (b < length v)%nat ->
  nth b (slice_isub (Z.of_nat hi - Z.of_nat (hi - lo)) (Z.of_nat hi) c v) 0
  = if (lo <=? b) && (b <? hi) then nth b v 0 - c else nth b v 0.
Proof.
  intros Hlo Hhi Hb. unfold slice_isub. rewrite nth_map_idx by lia.
  replace (Z.of_nat hi - Z.of_nat (hi - lo))%Z with (Z.of_nat lo) by lia.
  now rewrite !clamp_nat by lia.
Qed.

(** The loop over [range(offx, len, offx)]: after the first [m] rounds the
    entry [b] has lost [c] if it lies in one of the [m] windows. *)
Lemma nth_rounds off nz c v m b :
  (nz <= off)%nat -> (0 < off)%nat ->
  (m * off < length v)%nat -> (b < length v)%nat ->
  nth b (fold_left (fun od i => slice_isub (Z.of_nat i - Z.of_nat nz) (Z.of_nat i) c od)
                   (map (fun t => (off + t * off)%nat) (seq 0 m)) v) 0
  = if existsb (fun t => (off + t * off - nz <=? b) && (b <? off + t * off)) (seq 0 m)
    then nth b v 0 - c else nth b v 0.
Proof.
  intros Hnz Hoff. induction m as [|m IH]; intros Hm Hb; [reflexivity|].
  rewrite seq_S, map_app, fold_left_app, existsb_app. cbn [map fold_left existsb].
  rewrite orb_false_r, Nat.add_0_l.
  match goal with |- nth b (slice_isub _ _ c ?w') 0 = _ => set (w := w') end.
  assert (Hw : length w = length v).
  { unfold w. apply (length_fold_isub
      (fun i => ((Z.of_nat i - Z.of_nat nz)%Z, Z.of_nat i))). }
  replace (Z.of_nat nz) with (Z.of_nat ((off + m * off) - (off + m * off - nz))) by lia.
  rewrite nth_slice_isub by (rewrite ?Hw; nia).
  unfold w. rewrite IH by nia.
  destruct ((off + m * off - nz <=? b) && (b <? off + m * off)) eqn:E.
  - replace (existsb _ (seq 0 m)) with false; [now rewrite orb_false_l|].
    symmetry. apply not_true_is_false. intros Hex.
    apply existsb_exists in Hex as (t & Ht & Hin). apply in_seq in Ht.
    apply andb_prop in E as [E1 E2]. apply andb_prop in Hin as [H1 H2].
    apply Nat.leb_le in E1. apply Nat.ltb_lt in H2. nia.
  - now rewrite orb_false_r.
Qed.

Lemma rounds_count off len t :
  (0 < off)%nat -> (t < (len - off + off - 1) / off <-> off + t * off < len)%nat.
Proof.
  intros Hoff. split; intros H.
  - assert ((t + 1) * off <= len - off + off - 1)%nat.
    { pose proof (Nat.Div0.mul_div_le (len - off + off - 1) off). nia. }
    lia.
  - apply Nat.div_le_lower_bound; [lia|]. nia.
Qed.

Lemma window_hits nx ny nz b :
  (1 <= nx)%nat -> (2 <= ny)%nat -> (1 <= nz)%nat -> (b < nx * ny * nz - nz)%nat ->
  existsb (fun t => (ny * nz + t * (ny * nz) - nz <=? b) && (b <? ny * nz + t * (ny * nz)))
          (seq 0 ((nx * ny * nz - nz - ny * nz + ny * nz - 1) / (ny * nz)))
  = (ny * nz - nz <=? b mod (ny * nz)).
Proof.
  intros Hx Hy Hz Hb. set (off := (ny * nz)%nat).
  assert (Hoff : (0 < off)%nat) by (unfold off; nia).
  assert (Hlt : (nz < off)%nat) by (unfold off; nia).
  assert (HN : (nx * ny * nz = nx * off)%nat) by (unfold off; lia).
  pose proof (Nat.div_mod_eq b off) as E.
  pose proof (Nat.mod_upper_bound b off ltac:(lia)) as Hr.
  apply eq_true_iff_eq. rewrite existsb_exists, Nat.leb_le. split.
  - intros (t & Ht & Hin). apply andb_prop in Hin as [H1 H2].
    apply Nat.leb_le in H1. apply Nat.ltb_lt in H2.
    assert (b / off = t)%nat by nia. subst t. nia.
  - intros Hm. exists (b / off)%nat. split.
    + apply in_seq. split; [lia|]. rewrite Nat.add_0_l. apply rounds_count; [lia|].
      assert (b / off + 1 < nx)%nat by nia. nia.
    + apply andb_true_intro. split; [apply Nat.leb_le | apply Nat.ltb_lt]; nia.
Qed.

Lemma nth_band_y nx ny nz dy b :
  (1 <= nx)%nat -> (2 <= ny)%nat -> (1 <= nz)%nat -> (b < nx * ny * nz - nz)%nat ->
  nth b (band_y (nx * ny * nz) ny nz dy) 0
  = if ny * nz - nz <=? b mod (ny * nz) then 0 else 1 / dy ^ 2.
Proof.
  intros Hx Hy Hz Hb. unfold band_y.
  assert (Hlen : length (vdivs (upto_neg nz (np_ones (nx * ny * nz))) (dy ^ 2))
                 = (nx * ny * nz - nz)%nat)
    by (rewrite length_vdivs, length_upto_neg, length_ones; lia).
  rewrite Hlen.
  set (m := ((nx * ny * nz - nz - ny * nz + ny * nz - 1) / (ny * nz))%nat).
  assert (Hm : (m = 0 \/ ny * nz + (m - 1) * (ny * nz) < nx * ny * nz - nz)%nat).
  { destruct m as [|m'] eqn:Em; [now left|right]. apply rounds_count; [nia|].
    fold m. lia. }
  rewrite nth_rounds; try (rewrite Hlen); try nia.
  fold m. unfold m. rewrite window_hits by lia.
  unfold vdivs. rewrite nth_map_in by (rewrite length_upto_neg, length_ones; lia).
  rewrite nth_upto_neg, nth_ones by (rewrite ?length_ones; lia).
  destruct (ny * nz - nz <=? b mod (ny * nz)); [ring | reflexivity].
Qed.

(** Every entry of the assembled operator is the entry of the specified one. *)
Lemma entry_operator nx ny nz dx dy dz r c :
  (1 <= nx)%nat -> (2 <= ny)%nat -> (2 <= nz)%nat ->
  (r < nx * ny * nz)%nat -> (c < nx * ny * nz)%nat ->
  entry (operator (nx * ny * nz) ny nz dx dy dz) r c = laplacian ny nz dx dy dz r c.
Proof.
  intros Hx Hy Hz Hr Hc.
  assert (Hoff : (nz < ny * nz)%nat) by nia.
  unfold entry, band_at, operator. cbn [bands find fst snd].
  unfold laplacian.
  destruct (Z.eqb_spec (- Z.of_nat (ny * nz)) (Z.of_nat c - Z.of_nat r)) as [E|E].
  { replace (Nat.max r c - Nat.min r c)%nat with (ny * nz)%nat by lia.
    destruct (Nat.eqb_spec (ny * nz) 0); [lia|]. rewrite Nat.eqb_refl.
    apply nth_band_x; lia. }
  destruct (Z.eqb_spec (- Z.of_nat nz) (Z.of_nat c - Z.of_nat r)) as [E1|E1].
  { replace (Nat.max r c - Nat.min r c)%nat with nz by lia.
    destruct (Nat.eqb_spec nz 0); [lia|]. destruct (Nat.eqb_spec nz (ny * nz)); [lia|].
    rewrite Nat.eqb_refl. apply nth_band_y; lia. }
  destruct (Z.eqb_spec (-1) (Z.of_nat c - Z.of_nat r)) as [E2|E2].
  { replace (Nat.max r c - Nat.min r c)%nat with 1%nat by lia.
    destruct (Nat.eqb_spec 1 0); [lia|]. destruct (Nat.eqb_spec 1 (ny * nz)); [lia|].
    destruct (Nat.eqb_spec 1 nz); [lia|]. cbn [Nat.eqb]. apply nth_band_z; lia. }
  destruct (Z.eqb_spec 0 (Z.of_nat c - Z.of_nat r)) as [E3|E3].
  { replace (Nat.max r c - Nat.min r c)%nat with 0%nat by lia.
    cbn [Nat.eqb]. apply nth_band_0; lia. }
  destruct (Z.eqb_spec 1 (Z.of_nat c - Z.of_nat r)) as [E4|E4].
  { replace (Nat.max r c - Nat.min r c)%nat with 1%nat by lia.
    destruct (Nat.eqb_spec 1 0); [lia|]. destruct (Nat.eqb_spec 1 (ny * nz)); [lia|].
    destruct (Nat.eqb_spec 1 nz); [lia|]. cbn [Nat.eqb]. apply nth_band_z; lia. }
  destruct (Z.eqb_spec (Z.of_nat nz) (Z.of_nat c - Z.of_nat r)) as [E5|E5].
  { replace (Nat.max r c - Nat.min r c)%nat with nz by lia.
    destruct (Nat.eqb_spec nz 0); [lia|]. destruct (Nat.eqb_spec nz (ny * nz)); [lia|].
    rewrite Nat.eqb_refl. apply nth_band_y; lia. }
  destruct (Z.eqb_spec (Z.of_nat (ny * nz)) (Z.of_nat c - Z.of_nat r)) as [E6|E6].
  { replace (Nat.max r c - Nat.min r c)%nat with (ny * nz)%nat by lia.
    destruct (Nat.eqb_spec (ny * nz) 0); [lia|]. rewrite Nat.eqb_refl.
    apply nth_band_x; lia. }
  destruct (Nat.eqb_spec (Nat.max r c - Nat.min r c) 0); [lia|].
  destruct (Nat.eqb_spec (Nat.max r c - Nat.min r c) (ny * nz)); [lia|].
  destruct (Nat.eqb_spec (Nat.max r c - Nat.min r c) nz); [lia|].
  destruct (Nat.eqb_spec (Nat.max r c - Nat.min r c) 1); [lia|].
  reflexivity.
Qed.

(** ** Frame rules *)

Lemma preserves_mret {S A B} (f : S -> B) (a : A) : preserves f (mret a).
Proof. intros s. reflexivity. Qed.

Lemma preserves_lift {S A B} (f : S -> B) (r : res A) : preserves f (lift r).
Proof. intros s. reflexivity. Qed.

Lemma preserves_reads {S A B} (f : S -> B) (g : S -> A) : preserves f (reads g).
Proof. intros s. reflexivity. Qed.

Lemma preserves_attr {S A B} (f : S -> B) (g : S -> option A) : preserves f (attr g).
Proof. intros s. unfold attr. now destruct (g s). Qed.

Lemma preserves_modify {S B} (f : S -> B) (g : S -> S) :
  (forall s, f (g s) = f s) -> preserves f (modify g).
Proof. intros H s. apply H. Qed.

Lemma preserves_bind {S A B C} (f : S -> C) (m : M S A) (k : A -> M S B) :
  preserves f m -> (forall a, preserves f (k a)) -> preserves f (mbind m k).
Proof.
  intros Hm Hk s. unfold mbind. specialize (Hm s).
  destruct (m s) as [[a|e] s'] eqn:E; simpl in *.
  - now rewrite Hk.
  - exact Hm.
Qed.

Create HintDb frame.
#[export] Hint Resolve preserves_mret preserves_lift preserves_reads preserves_attr : frame.

Ltac frame :=
  repeat first
    [ apply preserves_mret | apply preserves_lift | apply preserves_reads
    | apply preserves_attr
    | apply preserves_modify; intros; first [reflexivity | solve [auto]]
    | apply preserves_bind; [| intros]
    | match goal with
      | |- preserves _ (match ?o with _ => _ end) => destruct o
      | |- preserves _ (if ?b then _ else _) => destruct b
      end
    | solve [auto with frame] ].

Module InitFacts.
Import PressureField.

Ltac inv_res H :=
  repeat match type of H with
  | rbind ?m _ = Ok _ =>
      let E := fresh "E" in destruct m eqn:E; cbn [rbind] in H; [|discriminate H]
  | context [_setup_LHS ?pre] =>
      let E := fresh "E" in let r := fresh "r" in let t := fresh "t" in
      destruct (_setup_LHS pre) as [r t] eqn:E; destruct r as [[]|]; [|discriminate H]
  end.

(** What a successful construction leaves in the object, whatever the
    shapes of the three mesh arrays. *)
Lemma init_fresh ff s :
  __init__ ff = Ok s ->
  RHS s = None /\ u0 s = None /\ v0 s = None /\ w0 s = None
  /\ p s = None /\ u s = None /\ v s = None /\ w s = None /\ Nsolves s = 0%nat.
Proof.
  unfold __init__. destruct (shape3 (ff_x ff)) as [[nx ny] nz].
  intros H. inv_res H. unfold DEBUG in H. inv_res H. injection H as <-.
  match goal with
  | E : _setup_LHS ?pre = (_, ?post) |- _ =>
      assert (F : forall B (f : self -> B),
                 (forall m t, f (set_LHS m t) = f t) -> f post = f pre)
        by (intros B f Hf;
            assert (P : preserves f _setup_LHS)
              by (unfold _setup_LHS; frame; apply preserves_modify; intros; apply Hf);
            specialize (P pre); rewrite E in P; exact P)
  end.
  cbn. repeat split; try reflexivity.
  all: match goal with |- ?f _ = None => exact (F _ f (fun _ _ => eq_refl)) end.
Qed.

End InitFacts.

(** ** What each method may change *)

Module Frames.
Import PressureField.

Section Frame.

Context {B : Type} (f : self -> B).

Lemma or_attr_frame a g : preserves f (or_attr a g).
Proof. unfold or_attr. frame. Qed.

Lemma calc_gradients_frame a b c : preserves f (_calc_gradients a b c).
Proof. unfold _calc_gradients. pose proof or_attr_frame. frame. Qed.

Lemma div_frame c : preserves f (div c).
Proof. unfold div. pose proof calc_gradients_frame. frame. Qed.

Lemma view_x_frame i : preserves f (view_x i).
Proof. unfold view_x. frame. Qed.

Lemma deref_frame n : preserves f (deref n).
Proof. unfold deref. frame. Qed.

Lemma hub_frame a : preserves f (hub a).
Proof. unfold hub. frame. Qed.

Hypothesis f_u0 : forall a t, f (set_u0 a t) = f t.
Hypothesis f_v0 : forall a t, f (set_v0 a t) = f t.
Hypothesis f_w0 : forall a t, f (set_w0 a t) = f t.
Hypothesis f_RHS : forall a t, f (set_RHS a t) = f t.
Hypothesis f_p : forall a t, f (set_p a t) = f t.
Hypothesis f_u : forall a t, f (set_u a t) = f t.
Hypothesis f_v : forall a t, f (set_v a t) = f t.
Hypothesis f_w : forall a t, f (set_w a t) = f t.
Hypothesis f_Nsolves : forall a t, f (set_Nsolves a t) = f t.

Lemma set_RHS_frame a b c : preserves f (_set_RHS a b c).
Proof using f_RHS. unfold _set_RHS. frame. Qed.

Lemma update_RHS_frame : preserves f update_RHS.
Proof using f_RHS.
  unfold update_RHS. pose proof calc_gradients_frame. pose proof set_RHS_frame. frame.
Qed.

Lemma correct_fields_frame A : preserves f (_correct_fields A).
Proof using f_u f_v f_w. unfold _correct_fields. frame. Qed.

Lemma interp_frame r : preserves f (interp r).
Proof using f_u.
  unfold interp. pose proof view_x_frame. pose proof deref_frame. frame.
Qed.

Lemma debug_plots_frame : preserves f debug_plots.
Proof using f_Nsolves.
  unfold debug_plots. pose proof hub_frame. pose proof div_frame. frame.
Qed.

Lemma solve_frame cg u_wake v_wake w_wake reg A tol :
  preserves f (solve cg u_wake v_wake w_wake reg A tol).
Proof using f_u0 f_v0 f_w0 f_RHS f_p f_u f_v f_w f_Nsolves.
  unfold solve, DEBUG.
  pose proof update_RHS_frame. pose proof correct_fields_frame.
  pose proof interp_frame. pose proof debug_plots_frame. frame.
Qed.

End Frame.

End Frames.

(** ** The stages of [solve] *)

Module SolveFacts.
Import PressureField PressureFieldFacts.

Lemma shape3_predictor arg sh : shaped arg sh -> shape3 (predictor arg sh) = sh.
Proof. destruct arg; simpl; [auto | intros _; apply shape3_tab3]. Qed.

(** Storing the predictor and updating the right-hand side. *)
Lemma solve_prefix {T} (k : M self T) s u_wake v_wake w_wake nx ny nz :
  shape3 u_wake = (nx, ny, nz) ->
  shaped v_wake (nx, ny, nz) -> shaped w_wake (nx, ny, nz) ->
  (2 <= nx)%nat -> (2 <= ny)%nat -> (2 <= nz)%nat ->
  (modify (set_u0 (copy3 u_wake));;
   (match v_wake with
    | None => do a <- attr u0; modify (set_v0 (np_zeros3 (shape3 a)))
    | Some b => modify (set_v0 (copy3 b))
    end);;
   (match w_wake with
    | None => do a <- attr u0; modify (set_w0 (np_zeros3 (shape3 a)))
    | Some b => modify (set_w0 (copy3 b))
    end);;
   update_RHS;; k) s
  = k (staged s u_wake v_wake w_wake).
Proof.
  intros Su Sv Sw Hnx Hny Hnz. rewrite mbind_modify.
  pose proof (shape3_predictor v_wake _ Sv) as Pv.
  pose proof (shape3_predictor w_wake _ Sw) as Pw.
  rewrite <- Su in Pv, Pw.
  set (s3 := set_w0 (predictor w_wake (shape3 u_wake))
               (set_v0 (predictor v_wake (shape3 u_wake)) (set_u0 u_wake s))).
  assert (E : forall T (k' : M self T),
    ((match v_wake with
      | None => do a <- attr u0; modify (set_v0 (np_zeros3 (shape3 a)))
      | Some b => modify (set_v0 (copy3 b))
      end);;
     (match w_wake with
      | None => do a <- attr u0; modify (set_w0 (np_zeros3 (shape3 a)))
      | Some b => modify (set_w0 (copy3 b))
      end);; k') (set_u0 (copy3 u_wake) s) = k' s3).
  { intros T' k'. unfold s3. destruct v_wake, w_wake; reflexivity. }
  rewrite E.
  erewrite mbind_ok; [reflexivity|].
  rewrite (update_RHS_run s3 u_wake (predictor v_wake (shape3 u_wake))
             (predictor w_wake (shape3 u_wake)) nx ny nz);
    try reflexivity; try assumption; congruence.
Qed.

(** The buffer of the cached right-hand side holds the divergence in
    row-major order. *)
Lemma nth_ravel_divergence dx dy dz ua va wa nx ny nz i j k :
  shape3 ua = (nx, ny, nz) ->
  (i < nx)%nat -> (j < ny)%nat -> (k < nz)%nat ->
  nth ((i * ny + j) * nz + k) (ravel (divergence dx dy dz ua va wa)) 0
  = fd nx dx (fun i => at3 ua i j k) i
    + fd ny dy (fun j => at3 va i j k) j
    + fd nz dz (fun k => at3 wa i j k) k.
Proof.
  intros Su Hi Hj Hk. unfold divergence. rewrite Su.
  pose proof (at3_tab3 nx ny nz
    (fun i j k => fd nx dx (fun i => at3 ua i j k) i
                  + fd ny dy (fun j => at3 va i j k) j
                  + fd nz dz (fun k => at3 wa i j k) k) i j k Hi Hj Hk) as E.
  unfold at3 in E at 1. rewrite shape3_tab3 in E. exact E.
Qed.

Lemma length_ravel_divergence dx dy dz ua va wa :
  length (ravel (divergence dx dy dz ua va wa)) = size3 (shape3 ua).
Proof.
  unfold divergence. destruct (shape3 ua) as [[nx ny] nz]. apply wf3_tab3.
Qed.

Lemma hub_run a s nx ny nz :
  shape3 a = (nx, ny, nz) -> (khub s < nz)%nat ->
  hub a s = (Ok (tab2 (nx, ny) (fun i j => at3 a i j (khub s))), s).
Proof.
  intros Sa Hk. unfold hub. rewrite mbind_reads. unfold lift.
  now rewrite (get_z_eq a nx ny nz _ (khub s)) by (auto using norm_index_nat).
Qed.

Lemma div_false_run s r a :
  RHS s = Some r -> u0 s = Some a -> length r = size3 (shape3 a) ->
  div false s = (Ok (mk3 (shape3 a) r), s).
Proof.
  intros Hr Ha Hl. unfold div.
  rewrite (mbind_attr _ _ _ _ Hr), (mbind_attr _ _ _ _ Ha).
  unfold lift, reshape. now rewrite Hl, Nat.eqb_refl.
Qed.

Lemma div_true_run s s0 ua va wa nx ny nz :
  u0 s = Some s0 -> u s = Some ua -> v s = Some va -> w s = Some wa ->
  shape3 s0 = (nx, ny, nz) ->
  shape3 ua = (nx, ny, nz) -> shape3 va = (nx, ny, nz) -> shape3 wa = (nx, ny, nz) ->
  (2 <= nx)%nat -> (2 <= ny)%nat -> (2 <= nz)%nat ->
  exists d, div true s = (Ok d, s) /\ shape3 d = (nx, ny, nz).
Proof.
  intros H0 Hu Hv Hw S0 Su Sv Sw Hnx Hny Hnz. unfold div.
  rewrite (mbind_attr _ _ _ _ Hu), (mbind_attr _ _ _ _ Hv), (mbind_attr _ _ _ _ Hw).
  erewrite mbind_ok
    by (apply (calc_gradients_eq s _ _ _ ua va wa s0 nx ny nz); auto).
  unfold lift, py_sum3, add3.
  erewrite zip3_eq
    by (first [ unfold map3; cbn [shape3]; rewrite shape3_grad_x; exact Su
              | rewrite shape3_grad_y; exact Sv ]).
  cbn [rbind].
  erewrite zip3_eq by (first [apply shape3_tab3 | rewrite shape3_grad_z; exact Sw]).
  eexists. split; [reflexivity | apply shape3_tab3].
Qed.

(** The diagnostics after a solve read planes at hub height and count
    the solve. *)
Lemma debug_plots_run s ua0 va0 ua va wa r :
  ready s ->
  u0 s = Some ua0 -> v0 s = Some va0 ->
  u s = Some ua -> v s = Some va -> w s = Some wa -> RHS s = Some r ->
  shape3 ua0 = grid_shape s -> shape3 va0 = grid_shape s ->
  shape3 ua = grid_shape s -> shape3 va = grid_shape s -> shape3 wa = grid_shape s ->
  length r = size3 (grid_shape s) ->
  debug_plots s = (Ok tt, set_Nsolves (Nsolves s + 1) s).
Proof.
  intros R H0 Hv0 Hu Hv Hw Hr S0 Sv0 Su Sv Sw Hl. destruct R.
  unfold grid_shape in *. unfold debug_plots. rewrite mbind_reads.
  assert (Hx : forall T (k : arr2 -> M self T),
            mbind (hub (x (geom s))) k s
            = k (tab2 (Nx (geom s), Ny (geom s))
                      (fun i j => at3 (x (geom s)) i j (khub s))) s)
    by (intros; apply mbind_ok; eapply hub_run; eauto).
  assert (Hy : forall T (k : arr2 -> M self T),
            mbind (hub (y (geom s))) k s
            = k (tab2 (Nx (geom s), Ny (geom s))
                      (fun i j => at3 (y (geom s)) i j (khub s))) s)
    by (intros; apply mbind_ok; eapply hub_run; eauto).
  assert (Hh : forall (m : M self arr3) a T (k : arr2 -> M self T),
            m s = (Ok a, s) ->
            shape3 a = (Nx (geom s), Ny (geom s), Nz (geom s)) ->
            mbind (mbind m (fun a => hub a)) k s
            = k (tab2 (Nx (geom s), Ny (geom s)) (fun i j => at3 a i j (khub s))) s).
  { intros m a T k Em Sa. apply mbind_ok. rewrite (mbind_ok _ _ _ _ _ Em).
    eapply hub_run; eauto. }
  assert (Ha : forall (f : self -> option arr3) a, f s = Some a -> attr f s = (Ok a, s))
    by (intros f a E; unfold attr; now rewrite E).
  rewrite Hx, Hy, (Hh _ _ _ _ (Ha _ _ H0) S0).
  rewrite Hx, Hy, (Hh _ _ _ _ (Ha _ _ Hu) Su).
  rewrite Hx, Hy, (Hh _ _ _ _ (Ha _ _ Hv0) Sv0).
  rewrite Hx, Hy, (Hh _ _ _ _ (Ha _ _ Hv) Sv).
  rewrite Hx, Hy.
  rewrite (Hh _ _ _ _ (div_false_run s r ua0 Hr H0 ltac:(now rewrite S0)) S0).
  rewrite Hx, Hy.
  destruct (div_true_run s ua0 ua va wa _ _ _ H0 Hu Hv Hw S0 Su Sv Sw
              ready_Nx0 ready_Ny0 ready_Nz0) as (d & Ed & Sd).
  rewrite (Hh _ _ _ _ Ed Sd).
  reflexivity.
Qed.

Lemma shape3_corrected_u A d pa a : shape3 (corrected_u A d pa a) = shape3 a.
Proof. unfold corrected_u. destruct (shape3 a) as [[nx ny] nz]. apply shape3_tab3. Qed.

Lemma shape3_corrected_v A d pa a : shape3 (corrected_v A d pa a) = shape3 a.
Proof. unfold corrected_v. destruct (shape3 a) as [[nx ny] nz]. apply shape3_tab3. Qed.

Lemma shape3_corrected_w A d pa a : shape3 (corrected_w A d pa a) = shape3 a.
Proof. unfold corrected_w. destruct (shape3 a) as [[nx ny] nz]. apply shape3_tab3. Qed.

(** A solve without smoothing on a predictor of the shape of the grid,
    when the solver reports success with a vector of [N] entries. *)
Lemma solve_run cg s u_wake v_wake w_wake A tol m pv :
  ready s -> LHS s = Some m ->
  shape3 u_wake = grid_shape s ->
  shaped v_wake (grid_shape s) -> shaped w_wake (grid_shape s) ->
  let g := geom s in
  let sh := grid_shape s in
  let va := predictor v_wake sh in
  let wa := predictor w_wake sh in
  let rhs := ravel (divergence (dx g) (dy g) (dz g) u_wake va wa) in
  cg m (vdivs rhs A) (np_zeros (N g)) tol tol = Ok (pv, 0%Z) ->
  length pv = N g ->
  let pa := mk3 sh pv in
  let ua := corrected_u A (dx g) pa u_wake in
  let va' := corrected_v A (dy g) pa va in
  let wa' := corrected_w A (dz g) pa wa in
  solve cg u_wake v_wake w_wake None A tol s
  = (Ok (ua, va', wa'),
     set_Nsolves (Nsolves s + 1)
       (set_w wa' (set_v va' (set_u ua (set_p pa (staged s u_wake v_wake w_wake)))))).
Proof.
  intros R HL Su Sv Sw g sh va wa rhs Hcg Hlen pa ua va' wa'.
  pose proof R as R'. destruct R'.
  assert (Pv : shape3 va = sh) by now apply shape3_predictor.
  assert (Pw : shape3 wa = sh) by now apply shape3_predictor.
  assert (St : staged s u_wake v_wake w_wake
               = set_RHS (Some rhs) (set_w0 wa (set_v0 va (set_u0 u_wake s))))
    by (unfold staged, rhs, va, wa; now rewrite Su).
  unfold solve.
  rewrite (solve_prefix _ s u_wake v_wake w_wake _ _ _ Su Sv Sw) by assumption.
  rewrite St.
  rewrite (mbind_attr LHS _ _ m) by exact HL.
  erewrite (mbind_attr RHS) by reflexivity.
  rewrite mbind_reads.
  erewrite mbind_lift by (cbn [geom set_RHS set_w0 set_v0 set_u0]; exact Hcg).
  erewrite mbind_lift by reflexivity.
  erewrite (mbind_attr u0) by reflexivity.
  erewrite mbind_lift
    by (unfold reshape; cbn [fst]; rewrite Su, Hlen; unfold grid_shape, size3, g;
        rewrite ready_N0; now rewrite Nat.eqb_refl).
  rewrite mbind_modify. fold sh. fold pa.
  erewrite mbind_ok
    by (apply (correct_fields_run _ A pa u_wake va wa (Nx g) (Ny g) (Nz g));
        try reflexivity; assumption).
  rewrite mbind_mret. unfold DEBUG.
  cbn [geom set_p set_RHS set_w0 set_v0 set_u0]. fold g. fold ua va' wa'.
  erewrite mbind_ok.
  2:{ apply (debug_plots_run _ u_wake va ua va' wa' rhs); try reflexivity;
        try assumption.
      - constructor; assumption.
      - unfold ua. now rewrite shape3_corrected_u.
      - unfold va'. now rewrite shape3_corrected_v.
      - unfold wa'. now rewrite shape3_corrected_w.
      - unfold rhs. rewrite length_ravel_divergence. now rewrite Su. }
  reflexivity.
Qed.

End SolveFacts.

(** ** What the constructor establishes *)

Lemma line_x_length a l nx ny nz :
  shape3 a = (nx, ny, nz) -> line_x a = Ok l -> length l = nx.
Proof.
  unfold line_x. intros ->.
  destruct (norm_index ny 0); [|discriminate]. destruct (norm_index nz 0); [|discriminate].
  cbn [rbind]. intros [= <-]. now rewrite length_map, length_seq.
Qed.

Lemma line_y_length a l nx ny nz :
  shape3 a = (nx, ny, nz) -> line_y a = Ok l -> length l = ny.
Proof.
  unfold line_y. intros ->.
  destruct (norm_index nx 0); [|discriminate]. destruct (norm_index nz 0); [|discriminate].
  cbn [rbind]. intros [= <-]. now rewrite length_map, length_seq.
Qed.

Lemma line_z_length a l nx ny nz :
  shape3 a = (nx, ny, nz) -> line_z a = Ok l -> length l = nz.
Proof.
  unfold line_z. intros ->.
  destruct (norm_index nx 0); [|discriminate]. destruct (norm_index ny 0); [|discriminate].
  cbn [rbind]. intros [= <-]. now rewrite length_map, length_seq.
Qed.

Lemma vget_diff l d : vget (np_diff l) 0 = Ok d -> (2 <= length l)%nat.
Proof.
  destruct l as [|a [|b t]]; simpl; try discriminate. intros _. lia.
Qed.

Lemma argmin_from_bound v best ibest i :
  (ibest < i)%nat -> (argmin_from best ibest i v < i + length v)%nat.
Proof.
  revert best ibest i. induction v as [|a t IH]; intros best ibest i Hi; simpl; [lia|].
  destruct (Qcltb a best).
  - specialize (IH a i (S i)). lia.
  - specialize (IH best ibest (S i)). lia.
Qed.

Lemma np_argmin_lt v k : np_argmin v = Ok k -> (k < length v)%nat.
Proof.
  destruct v as [|a t]; simpl; [discriminate|]. intros [= <-].
  pose proof (argmin_from_bound t a 0%nat 1%nat). lia.
Qed.

Module ReadyFacts.
Import PressureField InitFacts SetupFacts.

(** On mesh arrays of one shape, a successful construction leaves an
    object that is [ready], holding the assembled operator. *)
Lemma init_ready ff s :
  __init__ ff = Ok s ->
  shape3 (ff_y ff) = shape3 (ff_x ff) -> shape3 (ff_z ff) = shape3 (ff_x ff) ->
  ready s
  /\ shape3 (ff_x ff) = grid_shape s
  /\ LHS s = Some (operator (N (geom s)) (Ny (geom s)) (Nz (geom s))
                            (dx (geom s)) (dy (geom s)) (dz (geom s))).
Proof.
  unfold __init__. destruct (shape3 (ff_x ff)) as [[nx ny] nz] eqn:Sx.
  intros H Sy Sz.
  destruct (line_x (ff_x ff)) as [xl|] eqn:Lx; [|discriminate H].
  destruct (line_y (ff_y ff)) as [yl|] eqn:Ly; [|discriminate H].
  destruct (line_z (ff_z ff)) as [zl|] eqn:Lz; [|discriminate H].
  cbn [rbind] in H. inv_res H.
  apply (line_x_length _ _ nx ny nz Sx) in Lx.
  apply (line_y_length _ _ nx ny nz Sy) in Ly.
  pose proof (line_z_length _ _ nx ny nz Sz Lz) as Lz'.
  match goal with E : vget (np_diff xl) 0 = _ |- _ => apply vget_diff in E; rename E into Gx end.
  match goal with E : vget (np_diff yl) 0 = _ |- _ => apply vget_diff in E; rename E into Gy end.
  match goal with E : vget (np_diff zl) 0 = _ |- _ => apply vget_diff in E; rename E into Gz end.
  match goal with
  | E : _setup_LHS ?pre = _ |- _ =>
      rewrite (setup_LHS_run pre) in E by (cbn; lia); injection E as <-
  end.
  unfold DEBUG in H. cbn [rbind] in H. inv_res H.
  match goal with E : np_argmin _ = Ok ?k |- _ =>
    apply np_argmin_lt in E; unfold vabs, vsubs in E; rewrite !length_map in E
  end.
  injection H as <-. cbn. split; [|split; reflexivity].
  constructor; cbn; try lia; try assumption.
  eexists; split; reflexivity.
Qed.

End ReadyFacts.

(** ** The constructor *)

Module Construction.
Import PressureField InitFacts.

(** The spacing assertion compares before it takes the maximum, so the
    zero deviation of the first spacing from itself satisfies it. *)
Lemma assert_spacing_passes d0 d : assert_spacing (d0 :: d) = Ok tt.
Proof.
  unfold assert_spacing, vget. cbn [length norm_index].
  rewrite (norm_index_0 (S (length d))) by lia. cbn [rbind nth].
  cbn [vsubs vabs vlts map np_max_bool existsb].
  replace (Qcltb (Qcabs (d0 - d0)) tol_1e8) with true; [reflexivity|].
  replace (d0 - d0) with 0 by ring. reflexivity.
Qed.

(** C1 (the code departs from the claim): the spacing assertion passes on
    every non-empty array of spacings, uniform or not; and on a grid whose
    spacing along [x] is 1 and then 2, a deviation of 1 from constant, the
    constructor raises nothing: it returns the object, with [dx] set to
    the first spacing. *)
Theorem C1_irregular_grid_is_accepted :
  (forall d0 d, assert_spacing (d0 :: d) = Ok tt)
  /\ exists s, __init__ grid_jump = Ok s
               /\ map this (np_diff (x1 (geom s))) = [1; 2]%Q
               /\ this (dx (geom s)) = 1%Q.
Proof.
  split; [exact assert_spacing_passes|].
  eexists. split; [vm_compute; reflexivity|]. split; vm_compute; reflexivity.
Qed.

(** C9: on a freshly constructed object the cached right-hand side is
    [None], and the divergence query with [corrected=False] raises
    instead of returning a field; the object is left as it was. *)
Theorem C9_div_before_solve_raises ff s :
  __init__ ff = Ok s ->
  RHS s = None /\ div false s = (Raise AttributeError, s).
Proof.
  intros H. destruct (init_fresh ff s H) as (HR & _). split; [exact HR|].
  unfold div, mbind, attr. now rewrite HR.
Qed.

(** C9 on the object constructed on the 2 x 2 x 2 grid. *)
Lemma C9_witness :
  exists s, __init__ grid_222 = Ok s
            /\ RHS s = None /\ div false s = (Raise AttributeError, s).
Proof.
  eexists. split; [vm_compute; reflexivity|].
  apply (C9_div_before_solve_raises grid_222). vm_compute. reflexivity.
Defined.



(** C8: the divergence query leaves the object, hence every attribute,
    exactly as it was, and asking again gives the same answer, for either
    value of the flag. *)
Theorem C8_div_is_a_pure_read s corrected :
  snd (div corrected s) = s
  /\ div corrected (snd (div corrected s)) = div corrected s.
Proof.
  assert (E : snd (div corrected s) = s) by apply (Frames.div_frame (fun t => t)).
  split; [exact E | now rewrite E].
Qed.

End Construction.

(** ** Solving *)

Module Solving.
Import PressureField PressureFieldFacts SolveFacts Frames.

(** C4: whatever the solver, after [solve] the cached right-hand side has
    one entry per node, in row-major order with [z] fastest, and the entry
    of node [(i, j, k)] is the sum of the three finite differences: the
    forward difference at the first node of the axis, the backward
    difference at the last, the central difference between them.  The
    solver is called once, on this vector divided by [A] with a zero initial
    guess, and its answer is the pressure. *)
Theorem C4_rhs_is_the_divergence cg s u_wake v_wake w_wake reg A tol m nx ny nz :
  LHS s = Some m ->
  shape3 u_wake = (nx, ny, nz) ->
  shaped v_wake (nx, ny, nz) -> shaped w_wake (nx, ny, nz) ->
  (2 <= nx)%nat -> (2 <= ny)%nat -> (2 <= nz)%nat ->
  let g := geom s in
  let va := predictor v_wake (nx, ny, nz) in
  let wa := predictor w_wake (nx, ny, nz) in
  let s' := snd (solve cg u_wake v_wake w_wake reg A tol s) in
  exists rhs,
    RHS s' = Some rhs
    /\ length rhs = (nx * ny * nz)%nat
    /\ (forall i j k, (i < nx)%nat -> (j < ny)%nat -> (k < nz)%nat ->
          nth ((i * ny + j) * nz + k) rhs 0
          = fd nx (dx g) (fun i => at3 u_wake i j k) i
            + fd ny (dy g) (fun j => at3 va i j k) j
            + fd nz (dz g) (fun k => at3 wa i j k) k)
    /\ (forall cg',
          cg' m (vdivs rhs A) (np_zeros (N g)) tol tol
          = cg m (vdivs rhs A) (np_zeros (N g)) tol tol ->
          solve cg' u_wake v_wake w_wake reg A tol s
          = solve cg u_wake v_wake w_wake reg A tol s)
    /\ (forall pv,
          cg m (vdivs rhs A) (np_zeros (N g)) tol tol = Ok (pv, 0%Z) ->
          length pv = (nx * ny * nz)%nat ->
          p s' = Some (mk3 (nx, ny, nz) pv)).
Proof.
  intros HL Su Sv Sw Hnx Hny Hnz g va wa s'.
  exists (ravel (divergence (dx g) (dy g) (dz g) u_wake va wa)).
  assert (St : staged s u_wake v_wake w_wake
               = set_RHS (Some (ravel (divergence (dx g) (dy g) (dz g) u_wake va wa)))
                   (set_w0 wa (set_v0 va (set_u0 u_wake s))))
    by (unfold staged, va, wa; now rewrite Su).
  split; [|split; [|split; [|split]]].
  - unfold s', solve. rewrite (solve_prefix _ s u_wake v_wake w_wake nx ny nz) by assumption.
    match goal with |- RHS (snd (?k _)) = _ =>
      assert (P : preserves RHS k)
        by (pose proof (correct_fields_frame RHS); pose proof (interp_frame RHS);
            pose proof (debug_plots_frame RHS); unfold DEBUG; frame);
      rewrite P
    end.
    now rewrite St.
  - rewrite length_ravel_divergence, Su. reflexivity.
  - intros i j k Hi Hj Hk. now apply nth_ravel_divergence.
  - intros cg' Hcg. unfold solve.
    rewrite !(solve_prefix _ s u_wake v_wake w_wake nx ny nz) by assumption.
    rewrite St.
    rewrite !(mbind_attr LHS _ _ m) by exact HL.
    erewrite !(mbind_attr RHS) by reflexivity.
    rewrite !mbind_reads. unfold mbind at 1 3, lift at 1 3.
    cbn [geom set_RHS set_w0 set_v0 set_u0]. fold g. now rewrite Hcg.
  - intros pv Hcg Hlen. unfold s', solve.
    rewrite (solve_prefix _ s u_wake v_wake w_wake nx ny nz) by assumption.
    rewrite St.
    rewrite (mbind_attr LHS _ _ m) by exact HL.
    erewrite (mbind_attr RHS) by reflexivity.
    rewrite mbind_reads.
    erewrite mbind_lift by (cbn [geom set_RHS set_w0 set_v0 set_u0]; fold g; exact Hcg).
    erewrite mbind_lift by reflexivity.
    erewrite (mbind_attr u0) by reflexivity.
    erewrite mbind_lift
      by (unfold reshape; cbn [fst]; rewrite Su, Hlen; cbn [size3];
          now rewrite Nat.eqb_refl).
    rewrite mbind_modify.
    match goal with |- p (snd (?k ?t)) = _ =>
      assert (P : preserves p k)
        by (pose proof (correct_fields_frame p); pose proof (interp_frame p);
            pose proof (debug_plots_frame p); unfold DEBUG; frame);
      rewrite P
    end.
    reflexivity.
Qed.

(** C4 on the 2 x 2 x 2 grid, the predictor [field_222] and the solver of [Scipy]. *)
Lemma C4_witness :
  exists s m,
    __init__ grid_222 = Ok s /\ LHS s = Some m /\
    let s' := snd (solve Scipy.cg field_222 None None None 1 tol_1e8 s) in
    exists rhs,
      RHS s' = Some rhs
      /\ length rhs = (2 * 2 * 2)%nat
      /\ (forall i j k, (i < 2)%nat -> (j < 2)%nat -> (k < 2)%nat ->
            nth ((i * 2 + j) * 2 + k) rhs 0
            = fd 2 (dx (geom s)) (fun i => at3 field_222 i j k) i
              + fd 2 (dy (geom s)) (fun j => at3 (predictor None (2, 2, 2)%nat) i j k) j
              + fd 2 (dz (geom s)) (fun k => at3 (predictor None (2, 2, 2)%nat) i j k) k)
      /\ (forall cg',
            cg' m (vdivs rhs 1) (np_zeros (N (geom s))) tol_1e8 tol_1e8
            = Scipy.cg m (vdivs rhs 1) (np_zeros (N (geom s))) tol_1e8 tol_1e8 ->
            solve cg' field_222 None None None 1 tol_1e8 s
            = solve Scipy.cg field_222 None None None 1 tol_1e8 s)
      /\ (forall pv,
            Scipy.cg m (vdivs rhs 1) (np_zeros (N (geom s))) tol_1e8 tol_1e8
            = Ok (pv, 0%Z) ->
            length pv = (2 * 2 * 2)%nat ->
            p s' = Some (mk3 (2, 2, 2)%nat pv)).
Proof.
  do 2 eexists. split; [vm_compute; reflexivity|]. split; [vm_compute; reflexivity|].
  apply (C4_rhs_is_the_divergence Scipy.cg _ field_222 None None None 1 tol_1e8 _ 2 2 2);
    [vm_compute; reflexivity | reflexivity | exact I | exact I | lia | lia | lia].
Defined.

(** C5 (as amended): [solve] checks no shape.  A predictor of any shape
    with at least two nodes along each axis, matching the grid or not, is
    stored and differentiated, and the right-hand side of its own size is
    cached; a failure can only come afterwards, and an exception of the
    solver is the exception of the call. *)
Theorem C5_solve_checks_no_shape cg s u_wake v_wake w_wake reg A tol nx ny nz :
  shape3 u_wake = (nx, ny, nz) ->
  shaped v_wake (nx, ny, nz) -> shaped w_wake (nx, ny, nz) ->
  (2 <= nx)%nat -> (2 <= ny)%nat -> (2 <= nz)%nat ->
  let s' := snd (solve cg u_wake v_wake w_wake reg A tol s) in
  u0 s' = Some u_wake
  /\ exists rhs,
       RHS s' = Some rhs /\ length rhs = (nx * ny * nz)%nat
       /\ forall m e,
            LHS s = Some m ->
            cg m (vdivs rhs A) (np_zeros (N (geom s))) tol tol = Raise e ->
            fst (solve cg u_wake v_wake w_wake reg A tol s) = Raise e.
Proof.
  intros Su Sv Sw Hnx Hny Hnz s'.
  assert (E : solve cg u_wake v_wake w_wake reg A tol s
              = (fun t => _) (staged s u_wake v_wake w_wake))
    by (unfold solve; now rewrite (solve_prefix _ s u_wake v_wake w_wake nx ny nz)).
  cbv beta in E.
  match type of E with _ = ?k _ =>
    assert (P0 : preserves u0 k)
      by (pose proof (correct_fields_frame u0); pose proof (interp_frame u0);
          pose proof (debug_plots_frame u0); unfold DEBUG; frame);
    assert (PR : preserves RHS k)
      by (pose proof (correct_fields_frame RHS); pose proof (interp_frame RHS);
          pose proof (debug_plots_frame RHS); unfold DEBUG; frame)
  end.
  split; [unfold s'; rewrite E, P0; reflexivity|].
  eexists. split; [unfold s'; rewrite E, PR; reflexivity|]. split.
  - rewrite length_ravel_divergence, Su. reflexivity.
  - intros m e HL Hcg. rewrite E.
    rewrite (mbind_attr LHS _ _ m) by exact HL.
    erewrite (mbind_attr RHS) by reflexivity.
    rewrite mbind_reads. unfold mbind, lift.
    cbn [geom staged set_RHS set_w0 set_v0 set_u0]. now rewrite Hcg.
Qed.

(** C5 on the 2 x 2 x 2 grid and the 3 x 2 x 2 predictor [field_322]. *)
Lemma C5_witness :
  exists s,
    __init__ grid_222 = Ok s /\
    let s' := snd (solve Scipy.cg field_322 None None None 1 tol_1e8 s) in
    u0 s' = Some field_322
    /\ exists rhs,
         RHS s' = Some rhs /\ length rhs = (3 * 2 * 2)%nat
         /\ forall m e,
              LHS s = Some m ->
              Scipy.cg m (vdivs rhs 1) (np_zeros (N (geom s))) tol_1e8 tol_1e8 = Raise e ->
              fst (solve Scipy.cg field_322 None None None 1 tol_1e8 s) = Raise e.
Proof.
  eexists. split; [vm_compute; reflexivity|].
  apply (C5_solve_checks_no_shape Scipy.cg _ field_322 None None None 1 tol_1e8 3 2 2);
    [reflexivity | exact I | exact I | lia | lia | lia].
Defined.

(** C5 (the claim as stated fails): on the 2 x 2 x 2 grid, a predictor of
    3 x 2 x 2 nodes is not rejected before any computation.  Its gradients
    are taken and its twelve-entry right-hand side is cached; the call
    fails only when the solver meets a vector that does not fit the
    operator. *)
Lemma C5_counterexample :
  exists s s',
    __init__ grid_222 = Ok s
    /\ shape3 field_322 <> grid_shape s
    /\ solve Scipy.cg field_322 None None None 1 tol_1e8 s = (Raise ValueError, s')
    /\ RHS s = None
    /\ option_map (map this) (RHS s')
       = Some [1; 1; 1; 1; 2; 2; 2; 2; 3; 3; 3; 3]%Q.
Proof.
  do 2 eexists. split; [vm_compute; reflexivity|].
  split; [vm_compute; discriminate|].
  split; [vm_compute; reflexivity|].
  split; vm_compute; reflexivity.
Qed.

(** C3 (as amended): when the solver succeeds, [solve] without smoothing
    returns the predictor minus [A] times the central difference of the
    pressure along the axis of each component, at the nodes [1 .. n-2] of
    that axis and at every node of the two other axes; on the first and
    the last node along its own axis a component keeps the predictor. *)
Theorem C3_correction_along_own_axis cg s u_wake v_wake w_wake A tol m pv :
  ready s -> LHS s = Some m ->
  shape3 u_wake = grid_shape s ->
  shaped v_wake (grid_shape s) -> shaped w_wake (grid_shape s) ->
  let g := geom s in
  let va := predictor v_wake (grid_shape s) in
  let wa := predictor w_wake (grid_shape s) in
  let rhs := ravel (divergence (dx g) (dy g) (dz g) u_wake va wa) in
  cg m (vdivs rhs A) (np_zeros (N g)) tol tol = Ok (pv, 0%Z) ->
  length pv = N g ->
  let pa := mk3 (grid_shape s) pv in
  exists ua' va' wa' s',
    solve cg u_wake v_wake w_wake None A tol s = (Ok (ua', va', wa'), s')
    /\ p s' = Some pa
    /\ forall i j k, (i < Nx g)%nat -> (j < Ny g)%nat -> (k < Nz g)%nat ->
         ((1 <= i /\ i + 2 <= Nx g)%nat ->
            at3 ua' i j k
            = at3 u_wake i j k
              - A * ((at3 pa (i + 1) j k - at3 pa (i - 1) j k) / (flt 2 * dx g)))
         /\ ((i = 0 \/ i + 1 = Nx g)%nat -> at3 ua' i j k = at3 u_wake i j k)
         /\ ((1 <= j /\ j + 2 <= Ny g)%nat ->
            at3 va' i j k
            = at3 va i j k
              - A * ((at3 pa i (j + 1) k - at3 pa i (j - 1) k) / (flt 2 * dy g)))
         /\ ((j = 0 \/ j + 1 = Ny g)%nat -> at3 va' i j k = at3 va i j k)
         /\ ((1 <= k /\ k + 2 <= Nz g)%nat ->
            at3 wa' i j k
            = at3 wa i j k
              - A * ((at3 pa i j (k + 1) - at3 pa i j (k - 1)) / (flt 2 * dz g)))
         /\ ((k = 0 \/ k + 1 = Nz g)%nat -> at3 wa' i j k = at3 wa i j k).
Proof.
  intros R HL Su Sv Sw g va wa rhs Hcg Hlen pa.
  do 4 eexists. split; [|split].
  - exact (solve_run cg s u_wake v_wake w_wake A tol m pv R HL Su Sv Sw Hcg Hlen).
  - reflexivity.
  - intros i j k Hi Hj Hk.
    assert (Pv : shape3 va = grid_shape s) by now apply shape3_predictor.
    assert (Pw : shape3 wa = grid_shape s) by now apply shape3_predictor.
    unfold corrected_u, corrected_v, corrected_w. fold g va wa pa.
    rewrite Su, Pv, Pw. unfold grid_shape. fold g. arr.
    repeat split; intros H.
    + replace (in_mid (Nx g) i) with true
        by (symmetry; apply in_mid_iff; lia). reflexivity.
    + destruct (in_mid (Nx g) i) eqn:E; [apply in_mid_iff in E; lia | reflexivity].
    + replace (in_mid (Ny g) j) with true
        by (symmetry; apply in_mid_iff; lia). reflexivity.
    + destruct (in_mid (Ny g) j) eqn:E; [apply in_mid_iff in E; lia | reflexivity].
    + replace (in_mid (Nz g) k) with true
        by (symmetry; apply in_mid_iff; lia). reflexivity.
    + destruct (in_mid (Nz g) k) eqn:E; [apply in_mid_iff in E; lia | reflexivity].
Qed.

(** C3 on the 3 x 3 x 3 grid, the predictor [field_333] and the solver of [Scipy]. *)
Lemma C3_witness :
  exists s m pv,
    __init__ grid_333 = Ok s /\ LHS s = Some m /\
    let g := geom s in
    let va := predictor None (grid_shape s) in
    let wa := predictor None (grid_shape s) in
    let rhs := ravel (divergence (dx g) (dy g) (dz g) field_333 va wa) in
    Scipy.cg m (vdivs rhs 1) (np_zeros (N g)) tol_1e8 tol_1e8 = Ok (pv, 0%Z) /\
    let pa := mk3 (grid_shape s) pv in
    exists ua' va' wa' s',
      solve Scipy.cg field_333 None None None 1 tol_1e8 s = (Ok (ua', va', wa'), s')
      /\ p s' = Some pa
      /\ forall i j k, (i < Nx g)%nat -> (j < Ny g)%nat -> (k < Nz g)%nat ->
           ((1 <= i /\ i + 2 <= Nx g)%nat ->
              at3 ua' i j k
              = at3 field_333 i j k
                - 1 * ((at3 pa (i + 1) j k - at3 pa (i - 1) j k) / (flt 2 * dx g)))
           /\ ((i = 0 \/ i + 1 = Nx g)%nat -> at3 ua' i j k = at3 field_333 i j k)
           /\ ((1 <= j /\ j + 2 <= Ny g)%nat ->
              at3 va' i j k
              = at3 va i j k
                - 1 * ((at3 pa i (j + 1) k - at3 pa i (j - 1) k) / (flt 2 * dy g)))
           /\ ((j = 0 \/ j + 1 = Ny g)%nat -> at3 va' i j k = at3 va i j k)
           /\ ((1 <= k /\ k + 2 <= Nz g)%nat ->
              at3 wa' i j k
              = at3 wa i j k
                - 1 * ((at3 pa i j (k + 1) - at3 pa i j (k - 1)) / (flt 2 * dz g)))
           /\ ((k = 0 \/ k + 1 = Nz g)%nat -> at3 wa' i j k = at3 wa i j k).
Proof.
  do 3 eexists. split; [vm_compute; reflexivity|]. split; [vm_compute; reflexivity|].
  split; [vm_compute; reflexivity|].
  eapply (C3_correction_along_own_axis Scipy.cg _ field_333 None None 1 tol_1e8).
  - apply (ReadyFacts.init_ready grid_333); [vm_compute; reflexivity | reflexivity | reflexivity].
  - vm_compute; reflexivity.
  - vm_compute; reflexivity.
  - exact I.
  - exact I.
  - vm_compute; reflexivity.
  - vm_compute; reflexivity.
Defined.

(** C3 (the claim as stated fails): on the 3 x 3 x 3 grid with spacing 1
    and the predictor [u0 = i^2 + j], [v0 = w0 = 0], the pressure returned
    solves the system exactly, and the corrected [u] at node [(1, 0, 0)],
    which is the first node along [y] and along [z] and lies outside the
    range [2 .. N-3] along [x], is [107/84] where the predictor is 1. *)
Lemma C3_counterexample :
  exists s m pa ua va wa s',
    __init__ grid_333 = Ok s
    /\ solve Scipy.cg field_333 None None None 1 tol_1e8 s = (Ok (ua, va, wa), s')
    /\ LHS s' = Some m /\ p s' = Some pa
    /\ option_map (map this) (RHS s') = Some (map this (matvec m (buf3 pa)))
    /\ this (at3 field_333 1 0 0) = 1%Q
    /\ this (at3 ua 1 0 0) = (107 # 84)%Q.
Proof.
  do 7 eexists. split; [vm_compute; reflexivity|].
  split; [vm_compute; reflexivity|].
  split; [vm_compute; reflexivity|].
  split; [vm_compute; reflexivity|].
  split; [vm_compute; reflexivity|].
  split; vm_compute; reflexivity.
Qed.

Lemma fd_zero n delta f i :
  (2 <= n)%nat -> (i < n)%nat -> (forall t, (t < n)%nat -> f t = 0) ->
  fd n delta f i = 0.
Proof.
  intros Hn Hi Hf. unfold fd.
  destruct (Nat.eqb_spec i 0); [|destruct (Nat.eqb_spec i (n - 1))];
    rewrite !Hf by lia; unfold Qcdiv; ring.
Qed.

Lemma map_zero_seq (f : nat -> Qc) n :
  (forall t, (t < n)%nat -> f t = 0) -> map f (seq 0 n) = np_zeros n.
Proof.
  intros Hf. unfold np_zeros. apply (nth_ext _ _ 0 0).
  - now rewrite length_map, length_seq, repeat_length.
  - intros t Ht. rewrite length_map, length_seq in Ht.
    rewrite nth_tab by lia. rewrite nth_repeat. now apply Hf.
Qed.

Lemma vdivs_zeros n c : vdivs (np_zeros n) c = np_zeros n.
Proof.
  unfold vdivs, np_zeros. rewrite map_repeat. f_equal. unfold Qcdiv. ring.
Qed.

Lemma zero_predictor arg nx ny nz :
  zero_arg arg (nx, ny, nz) -> zero_field (predictor arg (nx, ny, nz)) (nx, ny, nz).
Proof.
  destruct arg as [b|]; [intros H; exact H|]. intros _.
  unfold predictor, np_zeros3.
  split; [apply wf3_tab3|]. split; [apply shape3_tab3|].
  intros i j k Hi Hj Hk. cbn [fst snd] in *. now rewrite at3_tab3.
Qed.

Lemma zero_shaped arg sh : zero_arg arg sh -> shaped arg sh.
Proof. destruct arg; simpl; [intros (_ & H & _); exact H | auto]. Qed.

Lemma at3_zeros sh n i j k : at3 (mk3 sh (np_zeros n)) i j k = 0.
Proof.
  unfold at3, np_zeros. destruct sh as [[nx ny] nz]. cbn [shape3 buf3].
  apply nth_repeat.
Qed.

(** C6: for a predictor that is zero at every node, with [A] and the
    spacings non-zero (so that the floating-point divisions are of zero by
    a non-zero number), and a solver that answers the zero right-hand side
    from the zero initial guess with the zero vector and flag 0, [solve]
    returns the predictor fields themselves and the pressure it stores is
    zero at every node. *)
Theorem C6_zero_predictor_is_a_fixed_point cg s u_wake v_wake w_wake A tol m :
  ready s -> LHS s = Some m ->
  zero_field u_wake (grid_shape s) ->
  zero_arg v_wake (grid_shape s) -> zero_arg w_wake (grid_shape s) ->
  let g := geom s in
  A <> 0 -> dx g <> 0 -> dy g <> 0 -> dz g <> 0 ->
  cg m (np_zeros (N g)) (np_zeros (N g)) tol tol = Ok (np_zeros (N g), 0%Z) ->
  exists pa s',
    solve cg u_wake v_wake w_wake None A tol s
    = (Ok (u_wake, predictor v_wake (grid_shape s), predictor w_wake (grid_shape s)), s')
    /\ p s' = Some pa
    /\ shape3 pa = grid_shape s
    /\ forall i j k, (i < Nx g)%nat -> (j < Ny g)%nat -> (k < Nz g)%nat ->
                     at3 pa i j k = 0.
Proof.
  intros R HL (Wu & Su & Zu) Zv Zw g HA Hdx Hdy Hdz Hcg. subst g.
  pose proof R as R'. destruct R'.
  destruct (zero_predictor v_wake _ _ _ Zv) as (Wv & Sv & Zv').
  destruct (zero_predictor w_wake _ _ _ Zw) as (Ww & Sw & Zw').
  fold (grid_shape s) in Wv, Sv, Zv', Ww, Sw, Zw'.
  set (va := predictor v_wake (grid_shape s)) in *.
  set (wa := predictor w_wake (grid_shape s)) in *.
  assert (Er : ravel (divergence (dx (geom s)) (dy (geom s)) (dz (geom s)) u_wake va wa) = np_zeros (N (geom s))).
  { unfold divergence, ravel. rewrite Su. unfold grid_shape.
    unfold tab3. cbn [buf3]. rewrite ready_N0.
    apply map_zero_seq. intros t Ht.
    destruct (encode3 _ _ _ t Ht) as (Hi & Hj & Hk & _).
    rewrite !fd_zero; try assumption; try ring; intros; [apply Zw' | apply Zv' | apply Zu];
      cbn; assumption. }
  assert (Hcg' : cg m (vdivs (ravel (divergence (dx (geom s)) (dy (geom s)) (dz (geom s)) u_wake va wa)) A)
                    (np_zeros (N (geom s))) tol tol = Ok (np_zeros (N (geom s)), 0%Z))
    by (rewrite Er, vdivs_zeros; exact Hcg).
  pose proof (solve_run cg s u_wake v_wake w_wake A tol m (np_zeros (N (geom s))) R HL Su
                (zero_shaped _ _ Zv) (zero_shaped _ _ Zw) Hcg'
                (repeat_length _ _)) as E.
  cbv zeta in E. fold va wa in E.
  set (pa := mk3 (grid_shape s) (np_zeros (N (geom s)))) in *.
  assert (Eu : corrected_u A (dx (geom s)) pa u_wake = u_wake).
  { apply (arr3_ext _ _ (Nx (geom s)) (Ny (geom s)) (Nz (geom s))); auto.
    - unfold corrected_u. rewrite Su. apply wf3_tab3.
    - now rewrite shape3_corrected_u.
    - intros i j k Hi Hj Hk. unfold corrected_u. rewrite Su. unfold grid_shape. arr.
      unfold pa. rewrite !at3_zeros. destruct (in_mid _ _); [unfold Qcdiv; ring | reflexivity]. }
  assert (Ev : corrected_v A (dy (geom s)) pa va = va).
  { apply (arr3_ext _ _ (Nx (geom s)) (Ny (geom s)) (Nz (geom s))); auto.
    - unfold corrected_v. rewrite Sv. apply wf3_tab3.
    - now rewrite shape3_corrected_v.
    - intros i j k Hi Hj Hk. unfold corrected_v. rewrite Sv. unfold grid_shape. arr.
      unfold pa. rewrite !at3_zeros. destruct (in_mid _ _); [unfold Qcdiv; ring | reflexivity]. }
  assert (Ew : corrected_w A (dz (geom s)) pa wa = wa).
  { apply (arr3_ext _ _ (Nx (geom s)) (Ny (geom s)) (Nz (geom s))); auto.
    - unfold corrected_w. rewrite Sw. apply wf3_tab3.
    - now rewrite shape3_corrected_w.
    - intros i j k Hi Hj Hk. unfold corrected_w. rewrite Sw. unfold grid_shape. arr.
      unfold pa. rewrite !at3_zeros. destruct (in_mid _ _); [unfold Qcdiv; ring | reflexivity]. }
  rewrite Eu, Ev, Ew in E.
  exists pa. eexists. split; [exact E|]. split; [reflexivity|]. split; [reflexivity|].
  intros. apply at3_zeros.
Qed.

(** The solver of [Scipy] answers a zero right-hand side with zero. *)
Lemma cg_zero m tol atol :
  Scipy.cg m (np_zeros (order m)) (np_zeros (order m)) tol atol
  = Ok (np_zeros (order m), 0%Z).
Proof.
  unfold Scipy.cg, np_zeros. rewrite repeat_length, Nat.eqb_refl. cbn [andb negb].
  replace (dot (repeat 0 (order m)) (repeat 0 (order m))) with 0; [reflexivity|].
  unfold dot. induction (order m) as [|n IH]; [reflexivity|].
  cbn [repeat combine map vsum fold_right fst snd].
  fold (vsum (map (fun q : Qc * Qc => fst q * snd q) (combine (repeat 0 n) (repeat 0 n)))).
  rewrite <- IH. ring.
Qed.

(** C6 on the 2 x 2 x 2 grid, the zero predictor and the solver of [Scipy]. *)
Lemma C6_witness :
  exists s m,
    __init__ grid_222 = Ok s /\ LHS s = Some m /\
    exists pa s',
      solve Scipy.cg (np_zeros3 (2, 2, 2)%nat) None None None 1 tol_1e8 s
      = (Ok (np_zeros3 (2, 2, 2)%nat,
             predictor None (grid_shape s), predictor None (grid_shape s)), s')
      /\ p s' = Some pa
      /\ shape3 pa = grid_shape s
      /\ forall i j k, (i < Nx (geom s))%nat -> (j < Ny (geom s))%nat ->
                       (k < Nz (geom s))%nat -> at3 pa i j k = 0.
Proof.
  do 2 eexists. split; [vm_compute; reflexivity|]. split; [vm_compute; reflexivity|].
  eapply (C6_zero_predictor_is_a_fixed_point Scipy.cg _ (np_zeros3 (2, 2, 2)%nat)
            None None 1 tol_1e8).
  - apply (ReadyFacts.init_ready grid_222); [vm_compute; reflexivity | reflexivity | reflexivity].
  - vm_compute; reflexivity.
  - exact (zero_predictor None 2 2 2 I).
  - exact I.
  - exact I.
  - exact Q_apart_0_1.
  - intros H; apply (f_equal this) in H; vm_compute in H; discriminate H.
  - intros H; apply (f_equal this) in H; vm_compute in H; discriminate H.
  - intros H; apply (f_equal this) in H; vm_compute in H; discriminate H.
  - vm_compute; reflexivity.
Defined.

End Solving.

(** ** Order on the rationals, as booleans *)

Lemma Qcltb_lt a b : Qcltb a b = true <-> a < b.
Proof.
  unfold Qcltb. rewrite Qclt_alt. destruct (a ?= b); split; congruence.
Qed.

Lemma Qcleb_le a b : Qcleb a b = true <-> a <= b.
Proof.
  unfold Qcleb. rewrite Qcle_alt. destruct (a ?= b); split; congruence.
Qed.

Lemma Qcltb_ge a b : Qcltb a b = false -> b <= a.
Proof.
  intros H. apply Qcnot_lt_le. intros L. apply Qcltb_lt in L. congruence.
Qed.

(** ** [np.argmin] returns the nearest node *)

Lemma argmin_from_spec t : forall pre best ibest,
  (ibest < length pre)%nat ->
  best = nth ibest (pre ++ t) 0 ->
  (forall m, (m < length pre)%nat -> best <= nth m (pre ++ t) 0) ->
  (forall m, (m < ibest)%nat -> best < nth m (pre ++ t) 0) ->
  let l := pre ++ t in
  let r := argmin_from best ibest (length pre) t in
  (r < length l)%nat
  /\ (forall m, (m < length l)%nat -> nth r l 0 <= nth m l 0)
  /\ (forall m, (m < r)%nat -> nth r l 0 < nth m l 0).
Proof.
  induction t as [|a t IH]; intros pre best ibest Hi Hb Hle Hlt; cbn zeta.
  - cbn [argmin_from]. rewrite app_nil_r in *. rewrite <- Hb. auto.
  - cbn [argmin_from].
    assert (Ea : nth (length pre) (pre ++ a :: t) 0 = a)
      by (rewrite app_nth2 by lia; now rewrite Nat.sub_diag).
    replace (pre ++ a :: t) with ((pre ++ [a]) ++ t) in * by (now rewrite <- app_assoc).
    replace (S (length pre)) with (length (pre ++ [a])) by (rewrite length_app; simpl; lia).
    destruct (Qcltb a best) eqn:E.
    + apply Qcltb_lt in E. apply IH.
      * rewrite length_app; simpl; lia.
      * now rewrite Ea.
      * intros m Hm. rewrite length_app in Hm; simpl in Hm.
        destruct (Nat.eq_dec m (length pre)) as [->|Hne].
        -- rewrite Ea. apply Qcle_refl.
        -- apply Qclt_le_weak, (Qclt_le_trans _ best); [exact E | apply Hle; lia].
      * intros m Hm. apply (Qclt_le_trans _ best); [exact E | apply Hle; lia].
    + apply Qcltb_ge in E. apply IH.
      * rewrite length_app; simpl; lia.
      * exact Hb.
      * intros m Hm. rewrite length_app in Hm; simpl in Hm.
        destruct (Nat.eq_dec m (length pre)) as [->|Hne].
        -- now rewrite Ea.
        -- apply Hle; lia.
      * exact Hlt.
Qed.

Lemma np_argmin_spec v r :
  np_argmin v = Ok r ->
  (r < length v)%nat
  /\ (forall m, (m < length v)%nat -> nth r v 0 <= nth m v 0)
  /\ (forall m, (m < r)%nat -> nth r v 0 < nth m v 0).
Proof.
  destruct v as [|a t]; [discriminate|]. cbn [np_argmin]. intros [= <-].
  apply (argmin_from_spec t [a] a 0%nat); simpl; try lia; try reflexivity.
  - intros m Hm. replace m with 0%nat by lia. apply Qcle_refl.
Qed.

Lemma nth_dist xl t m :
  (m < length xl)%nat ->
  nth m (vabs (map (fun e => t - e) xl)) 0 = Qcabs (t - nth m xl 0).
Proof.
  intros Hm. unfold vabs. rewrite map_map.
  rewrite (nth_indep _ 0 (Qcabs (t - 0))) by (now rewrite length_map).
  apply (map_nth (fun e => Qcabs (t - e))).
Qed.

Lemma argmin_is_nearest xl t n :
  is_nearest xl t n = true ->
  np_argmin (vabs (map (fun e => t - e) xl)) = Ok n.
Proof.
  unfold is_nearest. rewrite !andb_true_iff, Nat.ltb_lt, !forallb_forall.
  intros [[Hn Hle] Hlt].
  set (v := vabs (map (fun e => t - e) xl)).
  assert (Lv : length v = length xl) by (unfold v, vabs; now rewrite !length_map).
  destruct (np_argmin v) as [r|e] eqn:E.
  2:{ destruct v; [simpl in Lv; lia | discriminate]. }
  destruct (np_argmin_spec v r E) as (Hr & Rle & Rlt). f_equal.
  rewrite Lv in Hr.
  destruct (Nat.lt_trichotomy r n) as [L|[L|L]]; [|exact L|].
  - specialize (Hlt r ltac:(apply in_seq; lia)). apply Qcltb_lt in Hlt.
    specialize (Rle n ltac:(lia)). unfold v in Rle. rewrite !nth_dist in Rle by lia.
    exfalso. exact (Qclt_not_le _ _ Hlt Rle).
  - specialize (Rlt n L). unfold v in Rlt. rewrite !nth_dist in Rlt by lia.
    specialize (Hle r ltac:(apply in_seq; lia)). apply Qcleb_le in Hle.
    exfalso. exact (Qclt_not_le _ _ Rlt Hle).
Qed.

(** ** The smoothing patch *)

Module InterpFacts.
Import PressureField.

Lemma view_x_run s ua nx ny nz i n :
  u s = Some ua -> shape3 ua = (nx, ny, nz) -> norm_index nx i = Ok n ->
  view_x i s = (Ok n, s).
Proof.
  intros Hu Su Hn. unfold view_x. rewrite (mbind_attr _ _ _ _ Hu).
  unfold lift. rewrite Su. cbn [fst]. now rewrite Hn.
Qed.

Lemma view_x_raise s ua nx ny nz i e :
  u s = Some ua -> shape3 ua = (nx, ny, nz) -> norm_index nx i = Raise e ->
  view_x i s = (Raise e, s).
Proof.
  intros Hu Su Hn. unfold view_x. rewrite (mbind_attr _ _ _ _ Hu).
  unfold lift. rewrite Su. cbn [fst]. now rewrite Hn.
Qed.

Lemma deref_run s ua nx ny nz n :
  u s = Some ua -> shape3 ua = (nx, ny, nz) -> (n < nx)%nat ->
  deref n s = (Ok (tab2 (ny, nz) (fun j k => at3 ua n j k)), s).
Proof.
  intros Hu Su Hn. unfold deref. rewrite (mbind_attr _ _ _ _ Hu). unfold lift.
  now rewrite (get_x_eq ua nx ny nz _ n) by (auto using norm_index_nat).
Qed.

(** One assignment [self.u[i,:] = c*(f1-f0)/3 + f0] through the views
    [f0], [f1] of the planes [n0], [n1]. *)
Lemma patch_step {T} (fin : arr3 -> M self T) s ua nx ny nz c i m n0 n1 :
  u s = Some ua -> shape3 ua = (nx, ny, nz) ->
  norm_index nx i = Ok m -> (n0 < nx)%nat -> (n1 < nx)%nat ->
  (do a1 <- deref n1; do a0 <- deref n0; do d <- lift (sub2 a1 a0);
   do a0 <- deref n0; do e <- lift (add2 (divs2 (muls2 c d) (flt 3)) a0);
   do a <- attr u; do a <- lift (set_x a i e); fin a) s
  = fin (tab3 (nx, ny, nz) (fun i j k =>
           if i =? m
           then c * (at3 ua n1 j k - at3 ua n0 j k) / flt 3 + at3 ua n0 j k
           else at3 ua i j k)) s.
Proof.
  intros Hu Su Hm H0 H1.
  rewrite (mbind_ok _ _ _ _ _ (deref_run s ua nx ny nz n1 Hu Su H1)).
  rewrite (mbind_ok _ _ _ _ _ (deref_run s ua nx ny nz n0 Hu Su H0)).
  unfold sub2, add2.
  erewrite mbind_lift by (apply zip2_eq; apply shape2_tab2).
  rewrite (mbind_ok _ _ _ _ _ (deref_run s ua nx ny nz n0 Hu Su H0)).
  unfold divs2, muls2. rewrite !map2_tab2.
  erewrite mbind_lift by (apply zip2_eq; apply shape2_tab2).
  rewrite (mbind_attr _ _ _ _ Hu).
  erewrite mbind_lift by (apply (set_x_eq ua nx ny nz i m); auto using shape2_tab2).
  f_equal.
  apply tab3_ext. intros i' j k' Hi Hj Hk.
  destruct (i' =? m); [|reflexivity]. arr. reflexivity.
Qed.

(** The patch at an index whose four planes exist, when the plane written
    first is neither of the two planes read. *)
Lemma interp_run s r ua xl n nx ny nz n0 n1 m0 m1 :
  u s = Some ua -> shape3 ua = (nx, ny, nz) ->
  line_x (r_x r) = Ok xl -> is_nearest xl (c_x1 (r_coords r)) n = true ->
  let i0 := upstream_index xl (c_x1 (r_coords r)) n in
  norm_index nx (i0 - 1) = Ok n0 -> norm_index nx (i0 + 2) = Ok n1 ->
  norm_index nx i0 = Ok m0 -> norm_index nx (i0 + 1) = Ok m1 ->
  m0 <> n0 -> m0 <> n1 -> m0 <> m1 ->
  interp r s
  = (Ok tt, set_u (tab3 (nx, ny, nz) (fun i j k =>
       let f0 := at3 ua n0 j k in
       let f1 := at3 ua n1 j k in
       if i =? m0 then f0 + (f1 - f0) / flt 3
       else if i =? m1 then f0 + flt 2 * (f1 - f0) / flt 3
       else at3 ua i j k)) s).
Proof.
  intros Hu Su Lx Hn i0 E0 E1 F0 F1 D0 D1 D2.
  pose proof Hn as Hn'. unfold is_nearest in Hn'.
  rewrite !andb_true_iff, Nat.ltb_lt in Hn'. destruct Hn' as [[Hlt _] _].
  unfold interp.
  rewrite (mbind_lift _ _ _ _ Lx).
  rewrite (mbind_lift _ _ _ _ (argmin_is_nearest _ _ _ Hn)).
  erewrite mbind_lift
    by (unfold vget; rewrite (norm_index_nat _ _ Hlt); reflexivity).
  fold (upstream_index xl (c_x1 (r_coords r)) n). fold i0.
  rewrite (mbind_ok _ _ _ _ _ (view_x_run s ua nx ny nz _ n0 Hu Su E0)).
  rewrite (mbind_ok _ _ _ _ _ (view_x_run s ua nx ny nz _ n1 Hu Su E1)).
  pose proof (norm_index_lt _ _ _ E0). pose proof (norm_index_lt _ _ _ E1).
  pose proof (norm_index_lt _ _ _ F0). pose proof (norm_index_lt _ _ _ F1).
  rewrite (patch_step (fun a => mbind (modify (set_u a)) _) s ua nx ny nz 1 i0 m0 n0 n1)
    by assumption.
  rewrite mbind_modify.
  erewrite (patch_step (fun a => modify (set_u a)) _ _ nx ny nz (flt 2) (i0 + 1)%Z m1 n0 n1);
    [| reflexivity | apply shape3_tab3 | assumption | assumption | assumption].
  unfold modify, set_u. cbn [geom LHS RHS Nsolves khub u0 v0 w0 p u v w].
  do 3 f_equal.
  apply tab3_ext. intros i j k Hi Hj Hk. arr.
  replace (n1 =? m0) with false by (symmetry; apply Nat.eqb_neq; auto).
  replace (n0 =? m0) with false by (symmetry; apply Nat.eqb_neq; auto).
  destruct (Nat.eqb_spec i m1) as [->|N1].
  - replace (m1 =? m0) with false by (symmetry; apply Nat.eqb_neq; auto).
    unfold Qcdiv. ring.
  - destruct (i =? m0); [unfold Qcdiv; ring | reflexivity].
Qed.

(** When the plane [i0 + 2] (or [i0 - 1]) does not exist, the read of
    the view raises; nothing was written. *)
Lemma interp_raise s r ua xl n nx ny nz :
  u s = Some ua -> shape3 ua = (nx, ny, nz) ->
  line_x (r_x r) = Ok xl -> is_nearest xl (c_x1 (r_coords r)) n = true ->
  let i0 := upstream_index xl (c_x1 (r_coords r)) n in
  (Z.of_nat nx <= i0 + 2)%Z ->
  interp r s = (Raise IndexError, s).
Proof.
  intros Hu Su Lx Hn i0 Hout.
  pose proof Hn as Hn'. unfold is_nearest in Hn'.
  rewrite !andb_true_iff, Nat.ltb_lt in Hn'. destruct Hn' as [[Hlt _] _].
  unfold interp.
  rewrite (mbind_lift _ _ _ _ Lx).
  rewrite (mbind_lift _ _ _ _ (argmin_is_nearest _ _ _ Hn)).
  erewrite mbind_lift
    by (unfold vget; rewrite (norm_index_nat _ _ Hlt); reflexivity).
  fold (upstream_index xl (c_x1 (r_coords r)) n). fold i0.
  destruct (norm_index nx (i0 - 1)) as [n0|e] eqn:E0.
  - rewrite (mbind_ok _ _ _ _ _ (view_x_run s ua nx ny nz _ n0 Hu Su E0)).
    apply mbind_raise. apply (view_x_raise s ua nx ny nz); auto.
    apply norm_index_out. lia.
  - apply mbind_raise. apply (view_x_raise s ua nx ny nz); auto.
    rewrite E0. f_equal. unfold norm_index in E0.
    destruct ((0 <=? i0 - 1)%Z && (i0 - 1 <? Z.of_nat nx)%Z); [discriminate|].
    destruct ((- Z.of_nat nx <=? i0 - 1)%Z && (i0 - 1 <? 0)%Z); [discriminate|].
    now injection E0.
Qed.

End InterpFacts.

Lemma norm_index_pyidx n i :
  (- Z.of_nat n <= i < Z.of_nat n)%Z -> norm_index n i = Ok (pyidx n i).
Proof.
  intros Hi. unfold pyidx. destruct (Z.neg_nonneg_cases i) as [Hneg|Hpos].
  - rewrite norm_index_neg by lia. f_equal. f_equal.
    rewrite <- (Z.mod_small (Z.of_nat n + i) (Z.of_nat n)) by lia.
    rewrite Z.add_comm. replace (i + Z.of_nat n)%Z with (i + 1 * Z.of_nat n)%Z by lia.
    apply Z_mod_plus_full.
  - rewrite Z.mod_small by lia.
    rewrite <- (Z2Nat.id i) at 1 by lia. apply norm_index_nat. lia.
Qed.

Lemma pyidx_eq n i :
  (- Z.of_nat n <= i < Z.of_nat n)%Z ->
  Z.of_nat (pyidx n i) = if (i <? 0)%Z then (Z.of_nat n + i)%Z else i.
Proof.
  intros Hi. pose proof (norm_index_pyidx n i Hi) as E.
  destruct (Z.ltb_spec i 0).
  - rewrite norm_index_neg in E by lia. injection E as <-. lia.
  - rewrite <- (Z2Nat.id i) in E at 1 by lia.
    rewrite norm_index_nat in E by lia. injection E as <-. lia.
Qed.

Lemma pyidx_nat n i : (i < n)%nat -> pyidx n (Z.of_nat i) = i.
Proof. intros Hi. unfold pyidx. rewrite Z.mod_small by lia. apply Nat2Z.id. Qed.

Lemma upstream_index_bounds xl t n :
  (Z.of_nat n - 1 <= upstream_index xl t n <= Z.of_nat n)%Z.
Proof. unfold upstream_index. destruct (Qcleb t (nth n xl 0)); lia. Qed.

Module Smoothing.
Import PressureField InterpFacts.

(** The four planes of a patch on an axis of at least three planes. *)
Lemma patch_planes nx i0 :
  (3 <= nx)%nat -> (-1 <= i0)%Z -> (i0 + 2 < Z.of_nat nx)%Z ->
  norm_index nx (i0 - 1) = Ok (pyidx nx (i0 - 1))
  /\ norm_index nx (i0 + 2) = Ok (pyidx nx (i0 + 2))
  /\ norm_index nx i0 = Ok (pyidx nx i0)
  /\ norm_index nx (i0 + 1) = Ok (pyidx nx (i0 + 1))
  /\ pyidx nx i0 <> pyidx nx (i0 - 1)
  /\ pyidx nx i0 <> pyidx nx (i0 + 2)
  /\ pyidx nx i0 <> pyidx nx (i0 + 1).
Proof.
  intros Hnx Hlo Hhi.
  repeat split; try (apply norm_index_pyidx; lia).
  all: intros E; apply (f_equal Z.of_nat) in E; rewrite !pyidx_eq in E by lia.
  all: repeat match type of E with
       | context [(?a <? 0)%Z] => destruct (Z.ltb_spec a 0)
       end; lia.
Qed.

Lemma interp_patched s r ua xl n nx ny nz :
  u s = Some ua -> shape3 ua = (nx, ny, nz) ->
  line_x (r_x r) = Ok xl -> is_nearest xl (c_x1 (r_coords r)) n = true ->
  let i0 := upstream_index xl (c_x1 (r_coords r)) n in
  (3 <= nx)%nat -> (i0 + 2 < Z.of_nat nx)%Z ->
  interp r s = (Ok tt, set_u (patched i0 ua) s).
Proof.
  intros Hu Su Lx Hn i0 Hnx Hhi.
  pose proof (upstream_index_bounds xl (c_x1 (r_coords r)) n) as Hb. fold i0 in Hb.
  destruct (patch_planes nx i0 Hnx ltac:(lia) Hhi) as (E0 & E1 & F0 & F1 & D0 & D1 & D2).
  rewrite (interp_run s r ua xl n nx ny nz _ _ _ _ Hu Su Lx Hn E0 E1 F0 F1 D0 D1 D2).
  unfold patched. rewrite Su. reflexivity.
Qed.


(** C10: [interp] tests no bound.  When the upstream-adjusted index is 0,
    the plane read at [i0 - 1] is the last plane of the domain and the
    call returns normally, the planes 0 and 1 now blending the last plane
    with plane 2; when [i0 + 2] is past the last plane, nothing in
    [interp] prevents the read and the call ends in the [IndexError] of
    the array, the object unchanged. *)
Theorem C10_interp_checks_no_bounds s r ua xl n nx ny nz :
  u s = Some ua -> shape3 ua = (nx, ny, nz) ->
  line_x (r_x r) = Ok xl -> is_nearest xl (c_x1 (r_coords r)) n = true ->
  let i0 := upstream_index xl (c_x1 (r_coords r)) n in
  (i0 = 0%Z -> (3 <= nx)%nat ->
   exists ua',
     interp r s = (Ok tt, set_u ua' s)
     /\ forall j k, (j < ny)%nat -> (k < nz)%nat ->
          let last := at3 ua (nx - 1) j k in
          let f1 := at3 ua 2 j k in
          at3 ua' 0 j k = last + (f1 - last) / flt 3
          /\ at3 ua' 1 j k = last + flt 2 * (f1 - last) / flt 3)
  /\ ((Z.of_nat nx <= i0 + 2)%Z -> interp r s = (Raise IndexError, s)).
Proof.
  intros Hu Su Lx Hn i0. split.
  - intros E0 Hnx. exists (patched i0 ua).
    split; [apply (interp_patched s r ua xl n nx ny nz); auto; lia|].
    intros j k Hj Hk last f1. unfold patched. rewrite Su, E0. arr.
    replace (pyidx nx (0 - 1)) with (nx - 1)%nat
      by (apply Nat2Z.inj; rewrite pyidx_eq by lia; cbn; lia).
    replace (pyidx nx (0 + 2)) with 2%nat by (symmetry; apply (pyidx_nat nx 2); lia).
    replace (pyidx nx 0) with 0%nat by (symmetry; apply (pyidx_nat nx 0); lia).
    replace (pyidx nx (0 + 1)) with 1%nat by (symmetry; apply (pyidx_nat nx 1); lia).
    split; reflexivity.
  - intros Hout. now apply (interp_raise s r ua xl n nx ny nz).
Qed.



(** C10 after a solve on the 3 x 3 x 3 grid, for the target [x = 1/2]: the
    nearest node is 0, which lies upstream, so [i0 = 0]. *)
Lemma C10_witness :
  exists s0 s ua xl,
    __init__ grid_333 = Ok s0
    /\ s = snd (solve Scipy.cg field_333 None None None 1 tol_1e8 s0)
    /\ u s = Some ua
    /\ line_x (r_x (region_at grid_333 (Q2Qc (1 # 2)))) = Ok xl
    /\ let i0 := upstream_index xl (Q2Qc (1 # 2)) 0 in
       (i0 = 0%Z -> (3 <= 3)%nat ->
        exists ua',
          interp (region_at grid_333 (Q2Qc (1 # 2))) s = (Ok tt, set_u ua' s)
          /\ forall j k, (j < 3)%nat -> (k < 3)%nat ->
               let last := at3 ua (3 - 1) j k in
               let f1 := at3 ua 2 j k in
               at3 ua' 0 j k = last + (f1 - last) / flt 3
               /\ at3 ua' 1 j k = last + flt 2 * (f1 - last) / flt 3)
       /\ ((Z.of_nat 3 <= i0 + 2)%Z ->
           interp (region_at grid_333 (Q2Qc (1 # 2))) s = (Raise IndexError, s)).
Proof.
  do 4 eexists. split; [vm_compute; reflexivity|]. split; [reflexivity|].
  split; [vm_compute; reflexivity|]. split; [vm_compute; reflexivity|].
  apply (C10_interp_checks_no_bounds _ (region_at grid_333 (Q2Qc (1 # 2))) _ _ 0 3 3 3).
  - vm_compute; reflexivity.
  - vm_compute; reflexivity.
  - vm_compute; reflexivity.
  - vm_compute; reflexivity.
Defined.

End Smoothing.

(** ** Further properties of the operator *)

Module OperatorFacts.
Import PressureField.

Lemma laplacian_sym ny nz dx dy dz r c :
  laplacian ny nz dx dy dz r c = laplacian ny nz dx dy dz c r.
Proof. unfold laplacian. now rewrite (Nat.min_comm r c), (Nat.max_comm r c). Qed.

(** X1: the operator the constructor stores is symmetric: the entry at
    row [r], column [c] is the entry at row [c], column [r]. *)
Theorem operator_is_symmetric ff s :
  __init__ ff = Ok s ->
  shape3 (ff_y ff) = shape3 (ff_x ff) -> shape3 (ff_z ff) = shape3 (ff_x ff) ->
  exists m,
    LHS s = Some m
    /\ forall r c, (r < order m)%nat -> (c < order m)%nat -> entry m r c = entry m c r.
Proof.
  intros H Sy Sz. destruct (ReadyFacts.init_ready ff s H Sy Sz) as (R & _ & HL).
  destruct R. eexists. split; [exact HL|]. cbn [order operator].
  intros r c Hr Hc. rewrite ready_N0 in *.
  rewrite !entry_operator by lia. apply laplacian_sym.
Qed.

(** X1 on the object constructed on the 2 x 2 x 2 grid. *)
Lemma operator_is_symmetric_witness :
  exists s, __init__ grid_222 = Ok s /\
  exists m,
    LHS s = Some m
    /\ forall r c, (r < order m)%nat -> (c < order m)%nat -> entry m r c = entry m c r.
Proof.
  eexists. split; [vm_compute; reflexivity|].
  apply (operator_is_symmetric grid_222);
    [vm_compute; reflexivity | reflexivity | reflexivity].
Defined.

End OperatorFacts.

(** ** What a solve leaves behind *)

Module Aftermath.
Import PressureField PressureFieldFacts SolveFacts Frames.

Lemma staged_eq s u_wake v_wake w_wake nx ny nz :
  shape3 u_wake = (nx, ny, nz) ->
  staged s u_wake v_wake w_wake
  = set_RHS (Some (ravel (divergence (dx (geom s)) (dy (geom s)) (dz (geom s)) u_wake
                            (predictor v_wake (nx, ny, nz))
                            (predictor w_wake (nx, ny, nz)))))
      (set_w0 (predictor w_wake (nx, ny, nz))
         (set_v0 (predictor v_wake (nx, ny, nz)) (set_u0 u_wake s))).
Proof. intros Su. unfold staged. now rewrite Su. Qed.

(** X2: when the solver returns a non-zero convergence flag, [solve]
    raises the [AssertionError] of its assertion.  The predictor of this
    call, in [u0], [v0] and [w0] (zeros of the predictor's shape for an
    omitted component), and its right-hand side are then already stored,
    while the pressure and the corrected fields are those of the previous
    solve (or still unset), and the solve counter has not moved. *)
Theorem failed_convergence_keeps_old_fields
    cg s u_wake v_wake w_wake reg A tol m pv info nx ny nz :
  LHS s = Some m ->
  shape3 u_wake = (nx, ny, nz) ->
  shaped v_wake (nx, ny, nz) -> shaped w_wake (nx, ny, nz) ->
  (2 <= nx)%nat -> (2 <= ny)%nat -> (2 <= nz)%nat ->
  let g := geom s in
  let rhs := ravel (divergence (dx g) (dy g) (dz g) u_wake
                      (predictor v_wake (nx, ny, nz)) (predictor w_wake (nx, ny, nz))) in
  cg m (vdivs rhs A) (np_zeros (N g)) tol tol = Ok (pv, info) ->
  info <> 0%Z ->
  exists s',
    solve cg u_wake v_wake w_wake reg A tol s = (Raise AssertionError, s')
    /\ u0 s' = Some u_wake
    /\ v0 s' = Some (predictor v_wake (nx, ny, nz))
    /\ w0 s' = Some (predictor w_wake (nx, ny, nz))
    /\ RHS s' = Some rhs
    /\ p s' = p s /\ u s' = u s /\ v s' = v s /\ w s' = w s
    /\ Nsolves s' = Nsolves s.
Proof.
  intros HL Su Sv Sw Hnx Hny Hnz g rhs Hcg Hinfo.
  exists (staged s u_wake v_wake w_wake). split.
  - unfold solve.
    rewrite (solve_prefix _ s u_wake v_wake w_wake nx ny nz) by assumption.
    rewrite (staged_eq s u_wake v_wake w_wake nx ny nz Su).
    rewrite (mbind_attr LHS _ _ m) by exact HL.
    erewrite (mbind_attr RHS) by reflexivity.
    rewrite mbind_reads.
    erewrite mbind_lift by (cbn [geom set_RHS set_w0 set_v0 set_u0]; exact Hcg).
    apply mbind_raise. unfold lift, py_assert. cbn [snd].
    destruct (Z.eqb_spec info 0); [contradiction | reflexivity].
  - rewrite (staged_eq s u_wake v_wake w_wake nx ny nz Su). repeat split; reflexivity.
Qed.

(** X2 on the 2 x 2 x 2 grid: with tolerance 0 the solver of [Scipy]
    exhausts its iterations and reports them in its flag. *)
Lemma failed_convergence_witness :
  exists s m pv info,
    __init__ grid_222 = Ok s /\ LHS s = Some m /\
    let g := geom s in
    let rhs := ravel (divergence (dx g) (dy g) (dz g) field_222
                        (predictor None (2, 2, 2)%nat) (predictor None (2, 2, 2)%nat)) in
    Scipy.cg m (vdivs rhs 1) (np_zeros (N g)) 0 0 = Ok (pv, info) /\
    info <> 0%Z /\
    exists s',
      solve Scipy.cg field_222 None None None 1 0 s = (Raise AssertionError, s')
      /\ u0 s' = Some field_222
      /\ v0 s' = Some (predictor None (2, 2, 2)%nat)
      /\ w0 s' = Some (predictor None (2, 2, 2)%nat)
      /\ RHS s' = Some rhs
      /\ p s' = p s /\ u s' = u s /\ v s' = v s /\ w s' = w s
      /\ Nsolves s' = Nsolves s.
Proof.
  do 4 eexists. split; [vm_compute; reflexivity|]. split; [vm_compute; reflexivity|].
  split; [vm_compute; reflexivity|]. split; [vm_compute; discriminate|].
  eapply (failed_convergence_keeps_old_fields Scipy.cg _ field_222 None None None 1 0
            _ _ _ 2 2 2).
  - vm_compute; reflexivity.
  - reflexivity.
  - exact I.
  - exact I.
  - lia.
  - lia.
  - lia.
  - vm_compute; reflexivity.
  - vm_compute; discriminate.
Defined.

(** X3: after a call of [solve] on a predictor with at least two nodes
    along each axis, whether the call returned or raised in the solver or
    later, the query [div(corrected=False)] returns the divergence of that
    predictor as an array of the predictor's shape: flattening into the
    cached right-hand side and reshaping on the way out cancel. *)
Theorem div_of_predictor_after_solve cg s u_wake v_wake w_wake reg A tol nx ny nz :
  shape3 u_wake = (nx, ny, nz) ->
  shaped v_wake (nx, ny, nz) -> shaped w_wake (nx, ny, nz) ->
  (2 <= nx)%nat -> (2 <= ny)%nat -> (2 <= nz)%nat ->
  let g := geom s in
  let va := predictor v_wake (nx, ny, nz) in
  let wa := predictor w_wake (nx, ny, nz) in
  let s' := snd (solve cg u_wake v_wake w_wake reg A tol s) in
  exists d,
    div false s' = (Ok d, s')
    /\ shape3 d = (nx, ny, nz)
    /\ forall i j k, (i < nx)%nat -> (j < ny)%nat -> (k < nz)%nat ->
         at3 d i j k
         = fd nx (dx g) (fun i => at3 u_wake i j k) i
           + fd ny (dy g) (fun j => at3 va i j k) j
           + fd nz (dz g) (fun k => at3 wa i j k) k.
Proof.
  intros Su Sv Sw Hnx Hny Hnz g va wa s'.
  assert (E : solve cg u_wake v_wake w_wake reg A tol s
              = (fun t => _) (staged s u_wake v_wake w_wake))
    by (unfold solve; now rewrite (solve_prefix _ s u_wake v_wake w_wake nx ny nz)).
  cbv beta in E.
  match type of E with _ = ?k _ =>
    assert (P0 : preserves u0 k)
      by (pose proof (correct_fields_frame u0); pose proof (interp_frame u0);
          pose proof (debug_plots_frame u0); unfold DEBUG; frame);
    assert (PR : preserves RHS k)
      by (pose proof (correct_fields_frame RHS); pose proof (interp_frame RHS);
          pose proof (debug_plots_frame RHS); unfold DEBUG; frame)
  end.
  assert (H0 : u0 s' = Some u_wake) by (unfold s'; rewrite E, P0; reflexivity).
  assert (HR : RHS s' = Some (ravel (divergence (dx g) (dy g) (dz g) u_wake va wa))).
  { unfold s'. rewrite E, PR. rewrite (staged_eq s u_wake v_wake w_wake nx ny nz Su).
    reflexivity. }
  exists (divergence (dx g) (dy g) (dz g) u_wake va wa). split; [|split].
  - rewrite (div_false_run s' _ u_wake HR H0) by apply length_ravel_divergence.
    do 2 f_equal. unfold divergence, ravel. rewrite Su. reflexivity.
  - unfold divergence. rewrite Su. apply shape3_tab3.
  - intros i j k Hi Hj Hk. unfold divergence. rewrite Su. now rewrite at3_tab3.
Qed.

(** X3 on the 2 x 2 x 2 grid and the predictor [field_222]. *)
Lemma div_of_predictor_witness :
  exists s,
    __init__ grid_222 = Ok s /\
    let g := geom s in
    let va := predictor None (2, 2, 2)%nat in
    let wa := predictor None (2, 2, 2)%nat in
    let s' := snd (solve Scipy.cg field_222 None None None 1 tol_1e8 s) in
    exists d,
      div false s' = (Ok d, s')
      /\ shape3 d = (2, 2, 2)%nat
      /\ forall i j k, (i < 2)%nat -> (j < 2)%nat -> (k < 2)%nat ->
           at3 d i j k
           = fd 2 (dx g) (fun i => at3 field_222 i j k) i
             + fd 2 (dy g) (fun j => at3 va i j k) j
             + fd 2 (dz g) (fun k => at3 wa i j k) k.
Proof.
  eexists. split; [vm_compute; reflexivity|].
  apply (div_of_predictor_after_solve Scipy.cg _ field_222 None None None 1 tol_1e8 2 2 2);
    [reflexivity | exact I | exact I | lia | lia | lia].
Defined.

End Aftermath.

(** ** Solving with the smoothing patch *)

Module SmoothedSolve.
Import PressureField PressureFieldFacts SolveFacts Frames InterpFacts.

(** A solve on a predictor of the shape of the grid, when the solver
    reports success: what remains to run after the correction. *)
Lemma solve_corrected cg s u_wake v_wake w_wake reg A tol m pv :
  ready s -> LHS s = Some m ->
  shape3 u_wake = grid_shape s ->
  shaped v_wake (grid_shape s) -> shaped w_wake (grid_shape s) ->
  let g := geom s in
  let sh := grid_shape s in
  let rhs := ravel (divergence (dx g) (dy g) (dz g) u_wake
                      (predictor v_wake sh) (predictor w_wake sh)) in
  cg m (vdivs rhs A) (np_zeros (N g)) tol tol = Ok (pv, 0%Z) ->
  length pv = N g ->
  solve cg u_wake v_wake w_wake reg A tol s
  = ((match reg with
      | Some r => interp r
      | None => mret tt
      end);;
     (if DEBUG then debug_plots else mret tt);;
     do ua <- attr u; do va <- attr v; do wa <- attr w;
     mret (ua, va, wa)) (corrected_state s u_wake v_wake w_wake A pv).
Proof.
  intros R HL Su Sv Sw g sh rhs Hcg Hlen.
  pose proof R as R'. destruct R'.
  assert (Pv : shape3 (predictor v_wake sh) = sh) by now apply shape3_predictor.
  assert (Pw : shape3 (predictor w_wake sh) = sh) by now apply shape3_predictor.
  assert (St : staged s u_wake v_wake w_wake
               = set_RHS (Some rhs) (set_w0 (predictor w_wake sh)
                   (set_v0 (predictor v_wake sh) (set_u0 u_wake s))))
    by (unfold staged, rhs; now rewrite Su).
  unfold solve.
  rewrite (solve_prefix _ s u_wake v_wake w_wake _ _ _ Su Sv Sw) by assumption.
  unfold corrected_state. rewrite St.
  rewrite (mbind_attr LHS _ _ m) by exact HL.
  erewrite (mbind_attr RHS) by reflexivity.
  rewrite mbind_reads.
  erewrite mbind_lift by (cbn [geom set_RHS set_w0 set_v0 set_u0]; exact Hcg).
  erewrite mbind_lift by reflexivity.
  erewrite (mbind_attr u0) by reflexivity.
  erewrite mbind_lift
    by (unfold reshape; cbn [fst]; rewrite Su, Hlen; unfold grid_shape, size3, g;
        rewrite ready_N0; now rewrite Nat.eqb_refl).
  rewrite mbind_modify. fold sh.
  erewrite mbind_ok
    by (apply (correct_fields_run _ A (mk3 sh pv) u_wake (predictor v_wake sh)
                 (predictor w_wake sh) (Nx g) (Ny g) (Nz g));
        try reflexivity; assumption).
  reflexivity.
Qed.

Lemma shape3_patched i0 a : shape3 (patched i0 a) = shape3 a.
Proof. unfold patched. destruct (shape3 a) as [[nx ny] nz]. apply shape3_tab3. Qed.

Lemma ready_frame s t :
  ready s -> geom t = geom s -> LHS t = LHS s -> khub t = khub s -> ready t.
Proof.
  intros [] Eg El Ek. constructor; rewrite ?Eg, ?El, ?Ek; assumption.
Qed.

(** X4: a solve with smoothing, on a predictor of the shape of the grid,
    when the solver succeeds and the four planes of the patch exist:
    [solve] returns the corrected [u] with the planes [i0] and [i0 + 1]
    patched, and the corrected [v] and [w] as they are without smoothing;
    the solve counter advances by one. *)
Theorem solve_with_smoothing cg s u_wake v_wake w_wake r A tol m pv xl n :
  ready s -> LHS s = Some m ->
  shape3 u_wake = grid_shape s ->
  shaped v_wake (grid_shape s) -> shaped w_wake (grid_shape s) ->
  let g := geom s in
  let sh := grid_shape s in
  let va := predictor v_wake sh in
  let wa := predictor w_wake sh in
  let rhs := ravel (divergence (dx g) (dy g) (dz g) u_wake va wa) in
  cg m (vdivs rhs A) (np_zeros (N g)) tol tol = Ok (pv, 0%Z) ->
  length pv = N g ->
  line_x (r_x r) = Ok xl -> is_nearest xl (c_x1 (r_coords r)) n = true ->
  let i0 := upstream_index xl (c_x1 (r_coords r)) n in
  (3 <= Nx g)%nat -> (i0 + 2 < Z.of_nat (Nx g))%Z ->
  let pa := mk3 sh pv in
  exists s',
    solve cg u_wake v_wake w_wake (Some r) A tol s
    = (Ok (patched i0 (corrected_u A (dx g) pa u_wake),
           corrected_v A (dy g) pa va,
           corrected_w A (dz g) pa wa), s')
    /\ u s' = Some (patched i0 (corrected_u A (dx g) pa u_wake))
    /\ p s' = Some pa
    /\ Nsolves s' = (Nsolves s + 1)%nat.
Proof.
  intros R HL Su Sv Sw g sh va wa rhs Hcg Hlen Lx Hn i0 Hnx Hhi pa.
  rewrite (solve_corrected cg s u_wake v_wake w_wake (Some r) A tol m pv
             R HL Su Sv Sw Hcg Hlen).
  assert (Esc : corrected_state s u_wake v_wake w_wake A pv
                = set_w (corrected_w A (dz g) pa wa)
                    (set_v (corrected_v A (dy g) pa va)
                       (set_u (corrected_u A (dx g) pa u_wake)
                          (set_p pa (set_RHS (Some rhs)
                             (set_w0 wa (set_v0 va (set_u0 u_wake s))))))))
    by (unfold corrected_state, staged; rewrite Su; reflexivity).
  rewrite Esc. clear Esc.
  match goal with |- context [set_w ?a (set_v ?b (set_u ?c ?d))] =>
    set (sc := set_w a (set_v b (set_u c d))) end.
  assert (SU : shape3 (corrected_u A (dx g) pa u_wake) = (Nx g, Ny g, Nz g))
    by (rewrite shape3_corrected_u; exact Su).
  assert (Pv : shape3 va = sh) by now apply shape3_predictor.
  assert (Pw : shape3 wa = sh) by now apply shape3_predictor.
  erewrite mbind_ok
    by (apply (Smoothing.interp_patched sc r (corrected_u A (dx g) pa u_wake) xl n
                 (Nx g) (Ny g) (Nz g));
        [reflexivity | exact SU | exact Lx | exact Hn | exact Hnx | exact Hhi]).
  unfold DEBUG. fold i0.
  erewrite mbind_ok.
  2:{ apply (debug_plots_run _ u_wake va (patched i0 (corrected_u A (dx g) pa u_wake))
               (corrected_v A (dy g) pa va) (corrected_w A (dz g) pa wa) rhs);
        try reflexivity.
      - apply (ready_frame s); auto.
      - exact Su.
      - exact Pv.
      - rewrite shape3_patched. exact SU.
      - rewrite shape3_corrected_v. exact Pv.
      - rewrite shape3_corrected_w. exact Pw.
      - unfold rhs. rewrite length_ravel_divergence. now rewrite Su. }
  eexists. split; [reflexivity|]. repeat split; reflexivity.
Qed.

(** X5: when the solver succeeds but the plane [i0 + 2] of the smoothing
    patch does not exist, [solve] ends in the [IndexError] of the patch.
    The pressure and the corrected, unpatched fields of this call are then
    stored, and the solve counter has not moved. *)
Theorem solve_with_smoothing_out_of_range cg s u_wake v_wake w_wake r A tol m pv xl n :
  ready s -> LHS s = Some m ->
  shape3 u_wake = grid_shape s ->
  shaped v_wake (grid_shape s) -> shaped w_wake (grid_shape s) ->
  let g := geom s in
  let sh := grid_shape s in
  let va := predictor v_wake sh in
  let wa := predictor w_wake sh in
  let rhs := ravel (divergence (dx g) (dy g) (dz g) u_wake va wa) in
  cg m (vdivs rhs A) (np_zeros (N g)) tol tol = Ok (pv, 0%Z) ->
  length pv = N g ->
  line_x (r_x r) = Ok xl -> is_nearest xl (c_x1 (r_coords r)) n = true ->
  let i0 := upstream_index xl (c_x1 (r_coords r)) n in
  (Z.of_nat (Nx g) <= i0 + 2)%Z ->
  let pa := mk3 sh pv in
  exists s',
    solve cg u_wake v_wake w_wake (Some r) A tol s = (Raise IndexError, s')
    /\ p s' = Some pa
    /\ u s' = Some (corrected_u A (dx g) pa u_wake)
    /\ v s' = Some (corrected_v A (dy g) pa va)
    /\ w s' = Some (corrected_w A (dz g) pa wa)
    /\ Nsolves s' = Nsolves s.
Proof.
  intros R HL Su Sv Sw g sh va wa rhs Hcg Hlen Lx Hn i0 Hout pa.
  rewrite (solve_corrected cg s u_wake v_wake w_wake (Some r) A tol m pv
             R HL Su Sv Sw Hcg Hlen).
  assert (Esc : corrected_state s u_wake v_wake w_wake A pv
                = set_w (corrected_w A (dz g) pa wa)
                    (set_v (corrected_v A (dy g) pa va)
                       (set_u (corrected_u A (dx g) pa u_wake)
                          (set_p pa (set_RHS (Some rhs)
                             (set_w0 wa (set_v0 va (set_u0 u_wake s))))))))
    by (unfold corrected_state, staged; rewrite Su; reflexivity).
  rewrite Esc. clear Esc.
  match goal with |- context [set_w ?a (set_v ?b (set_u ?c ?d))] =>
    set (sc := set_w a (set_v b (set_u c d))) end.
  assert (SU : shape3 (corrected_u A (dx g) pa u_wake) = (Nx g, Ny g, Nz g))
    by (rewrite shape3_corrected_u; exact Su).
  exists sc. split.
  - apply mbind_raise.
    apply (interp_raise sc r (corrected_u A (dx g) pa u_wake) xl n (Nx g) (Ny g) (Nz g));
      [reflexivity | exact SU | exact Lx | exact Hn | exact Hout].
  - repeat split; reflexivity.
Qed.

(** X4 on the 4 x 2 x 2 grid with the target [x = 3/2]: [i0 = 1]. *)
Lemma solve_with_smoothing_witness :
  exists s m pv xl,
    __init__ grid_422 = Ok s /\ LHS s = Some m /\
    let g := geom s in
    let sh := grid_shape s in
    let va := predictor None sh in
    let wa := predictor None sh in
    let rhs := ravel (divergence (dx g) (dy g) (dz g) field_422 va wa) in
    let r := region_at grid_422 (Q2Qc (3 # 2)) in
    Scipy.cg m (vdivs rhs 1) (np_zeros (N g)) tol_1e8 tol_1e8 = Ok (pv, 0%Z) /\
    line_x (r_x r) = Ok xl /\
    let i0 := upstream_index xl (c_x1 (r_coords r)) 1 in
    let pa := mk3 sh pv in
    exists s',
      solve Scipy.cg field_422 None None (Some r) 1 tol_1e8 s
      = (Ok (patched i0 (corrected_u 1 (dx g) pa field_422),
             corrected_v 1 (dy g) pa va,
             corrected_w 1 (dz g) pa wa), s')
      /\ u s' = Some (patched i0 (corrected_u 1 (dx g) pa field_422))
      /\ p s' = Some pa
      /\ Nsolves s' = (Nsolves s + 1)%nat.
Proof.
  do 4 eexists. split; [vm_compute; reflexivity|]. split; [vm_compute; reflexivity|].
  split; [vm_compute; reflexivity|]. split; [vm_compute; reflexivity|].
  eapply (solve_with_smoothing Scipy.cg _ field_422 None None
            (region_at grid_422 (Q2Qc (3 # 2))) 1 tol_1e8 _ _ _ 1).
  - apply (ReadyFacts.init_ready grid_422); [vm_compute; reflexivity | reflexivity | reflexivity].
  - vm_compute; reflexivity.
  - vm_compute; reflexivity.
  - exact I.
  - exact I.
  - vm_compute; reflexivity.
  - vm_compute; reflexivity.
  - vm_compute; reflexivity.
  - vm_compute; reflexivity.
  - vm_compute; lia.
  - vm_compute; reflexivity.
Defined.

(** X5 on the 3 x 3 x 3 grid with the target [x = 3/2]: [i0 = 1] and
    there is no plane 3. *)
Lemma solve_with_smoothing_out_of_range_witness :
  exists s m pv xl,
    __init__ grid_333 = Ok s /\ LHS s = Some m /\
    let g := geom s in
    let sh := grid_shape s in
    let va := predictor None sh in
    let wa := predictor None sh in
    let rhs := ravel (divergence (dx g) (dy g) (dz g) field_333 va wa) in
    let r := region_at grid_333 (Q2Qc (3 # 2)) in
    Scipy.cg m (vdivs rhs 1) (np_zeros (N g)) tol_1e8 tol_1e8 = Ok (pv, 0%Z) /\
    line_x (r_x r) = Ok xl /\
    let pa := mk3 sh pv in
    exists s',
      solve Scipy.cg field_333 None None (Some r) 1 tol_1e8 s = (Raise IndexError, s')
      /\ p s' = Some pa
      /\ u s' = Some (corrected_u 1 (dx g) pa field_333)
      /\ v s' = Some (corrected_v 1 (dy g) pa va)
      /\ w s' = Some (corrected_w 1 (dz g) pa wa)
      /\ Nsolves s' = Nsolves s.
Proof.
  do 4 eexists. split; [vm_compute; reflexivity|]. split; [vm_compute; reflexivity|].
  split; [vm_compute; reflexivity|]. split; [vm_compute; reflexivity|].
  eapply (solve_with_smoothing_out_of_range Scipy.cg _ field_333 None None
            (region_at grid_333 (Q2Qc (3 # 2))) 1 tol_1e8 _ _ _ 1).
  - apply (ReadyFacts.init_ready grid_333); [vm_compute; reflexivity | reflexivity | reflexivity].
  - vm_compute; reflexivity.
  - vm_compute; reflexivity.
  - exact I.
  - exact I.
  - vm_compute; reflexivity.
  - vm_compute; reflexivity.
  - vm_compute; reflexivity.
  - vm_compute; reflexivity.
  - vm_compute; discriminate.
Defined.

End SmoothedSolve.

(** ** Further properties of the smoothing patch *)

Lemma norm_index_range n i m :
  norm_index n i = Ok m -> (- Z.of_nat n <= i < Z.of_nat n)%Z.
Proof.
  unfold norm_index.
  destruct ((0 <=? i)%Z && (i <? Z.of_nat n)%Z) eqn:E1.
  - apply andb_prop in E1 as [E1 E2]. apply Z.leb_le in E1. apply Z.ltb_lt in E2. lia.
  - destruct ((- Z.of_nat n <=? i)%Z && (i <? 0)%Z) eqn:E2; [|discriminate].
    apply andb_prop in E2 as [E2 E3]. apply Z.leb_le in E2. apply Z.ltb_lt in E3. lia.
Qed.

Lemma Qcabs_of_nonpos x : x <= 0 -> Qcabs x = - x.
Proof.
  intros H. unfold Qcabs. destruct (Qcltb x 0) eqn:E; [reflexivity|].
  apply Qcltb_ge in E. assert (x = 0) by now apply Qcle_antisym. subst x. ring.
Qed.

Lemma Qcabs_of_nonneg x : 0 <= x -> Qcabs x = x.
Proof.
  intros H. unfold Qcabs. destruct (Qcltb x 0) eqn:E; [|reflexivity].
  apply Qcltb_lt in E. exfalso. exact (Qclt_not_le _ _ E H).
Qed.

Lemma dist_above t a : t <= a -> Qcabs (t - a) = a - t.
Proof.
  intros H. rewrite Qcabs_of_nonpos; [ring|].
  apply Qcle_minus_iff. replace (0 + - (t - a)) with (a + - t) by ring.
  exact (proj1 (Qcle_minus_iff t a) H).
Qed.

Lemma dist_below t a : a <= t -> Qcabs (t - a) = t - a.
Proof.
  intros H. apply Qcabs_of_nonneg.
  replace (t - a) with (t + - a) by ring. exact (proj1 (Qcle_minus_iff a t) H).
Qed.

Lemma Qclt_sub_r a b t : a < b -> a - t < b - t.
Proof.
  intros H. apply Qclt_minus_iff. replace (b - t + - (a - t)) with (b + - a) by ring.
  exact (proj1 (Qclt_minus_iff a b) H).
Qed.

Lemma Qclt_sub_l a b t : a < b -> t - b < t - a.
Proof.
  intros H. apply Qclt_minus_iff. replace (t - a + - (t - b)) with (b + - a) by ring.
  exact (proj1 (Qclt_minus_iff a b) H).
Qed.

Module PatchFacts.
Import PressureField InterpFacts.

(** X6: [interp] is all or nothing.  Whatever the object and the region,
    it either returns, having replaced the attribute [u] and nothing else,
    or raises and leaves the object exactly as it was; in particular the
    second assignment cannot fail once the first has been made. *)
Theorem interp_is_all_or_nothing s r :
  (exists ua', interp r s = (Ok tt, set_u ua' s))
  \/ (exists e, interp r s = (Raise e, s)).
Proof.
  unfold interp.
  destruct (line_x (r_x r)) as [xl|e] eqn:Lx; [|right; exists e; reflexivity].
  rewrite (mbind_lift _ _ _ _ eq_refl).
  destruct (np_argmin (vabs (map (fun e => c_x1 (r_coords r) - e) xl))) as [n|e] eqn:En;
    [|right; exists e; reflexivity].
  rewrite (mbind_lift _ _ _ _ eq_refl).
  assert (Hlt : (n < length xl)%nat)
    by (apply np_argmin_lt in En; unfold vabs in En; now rewrite !length_map in En).
  erewrite mbind_lift by (unfold vget; rewrite (norm_index_nat _ _ Hlt); reflexivity).
  set (i0 := if Qcleb (c_x1 (r_coords r)) (nth n xl 0)
             then (Z.of_nat n - 1)%Z else Z.of_nat n).
  destruct (u s) as [ua|] eqn:Hu.
  2:{ right. exists AttributeError. apply mbind_raise. unfold view_x.
      apply mbind_raise. unfold attr. now rewrite Hu. }
  destruct (shape3 ua) as [[nx ny] nz] eqn:Su.
  destruct (norm_index nx (i0 - 1)) as [n0|e] eqn:E0.
  2:{ right. exists e. apply mbind_raise. now apply (view_x_raise s ua nx ny nz). }
  rewrite (mbind_ok _ _ _ _ _ (view_x_run s ua nx ny nz _ n0 Hu Su E0)).
  destruct (norm_index nx (i0 + 2)) as [n1|e] eqn:E1.
  2:{ right. exists e. apply mbind_raise. now apply (view_x_raise s ua nx ny nz). }
  rewrite (mbind_ok _ _ _ _ _ (view_x_run s ua nx ny nz _ n1 Hu Su E1)).
  left.
  pose proof (norm_index_range _ _ _ E0). pose proof (norm_index_range _ _ _ E1).
  pose proof (norm_index_lt _ _ _ E0). pose proof (norm_index_lt _ _ _ E1).
  rewrite (patch_step (fun a => mbind (modify (set_u a)) _) s ua nx ny nz 1 i0
             (pyidx nx i0) n0 n1)
    by (auto; apply norm_index_pyidx; lia).
  rewrite mbind_modify.
  erewrite (patch_step (fun a => modify (set_u a)) _ _ nx ny nz (flt 2) (i0 + 1)%Z
              (pyidx nx (i0 + 1)) n0 n1);
    [| reflexivity | apply shape3_tab3 | apply norm_index_pyidx; lia
     | assumption | assumption].
  eexists. reflexivity.
Qed.

(** X7: on a [u] of only two planes the patch can run only at
    [i0 = -1], and there the views alias what is written: the first
    assignment overwrites the plane [f1] refers to, so the second
    interpolant is taken with the plane already patched.  Plane 1 becomes
    [f0 + (f1 - f0)/3] and plane 0 becomes [f0 + 2 (u'[1] - f0)/3], for
    the old planes [f0] at 0 and [f1] at 1. *)
Theorem interp_on_two_planes_reads_patched_plane s r ua xl n ny nz :
  u s = Some ua -> shape3 ua = (2, ny, nz)%nat ->
  line_x (r_x r) = Ok xl -> is_nearest xl (c_x1 (r_coords r)) n = true ->
  upstream_index xl (c_x1 (r_coords r)) n = (-1)%Z ->
  exists ua',
    interp r s = (Ok tt, set_u ua' s)
    /\ forall j k, (j < ny)%nat -> (k < nz)%nat ->
         let f0 := at3 ua 0 j k in
         let f1 := at3 ua 1 j k in
         at3 ua' 1 j k = f0 + (f1 - f0) / flt 3
         /\ at3 ua' 0 j k = f0 + flt 2 * (at3 ua' 1 j k - f0) / flt 3.
Proof.
  intros Hu Su Lx Hn Ei.
  pose proof Hn as Hn'. unfold is_nearest in Hn'.
  rewrite !andb_true_iff, Nat.ltb_lt in Hn'. destruct Hn' as [[Hlt _] _].
  unfold interp.
  rewrite (mbind_lift _ _ _ _ Lx).
  rewrite (mbind_lift _ _ _ _ (argmin_is_nearest _ _ _ Hn)).
  erewrite mbind_lift by (unfold vget; rewrite (norm_index_nat _ _ Hlt); reflexivity).
  fold (upstream_index xl (c_x1 (r_coords r)) n). rewrite Ei.
  rewrite (mbind_ok _ _ _ _ _ (view_x_run s ua 2 ny nz (-1 - 1) 0 Hu Su eq_refl)).
  rewrite (mbind_ok _ _ _ _ _ (view_x_run s ua 2 ny nz (-1 + 2) 1 Hu Su eq_refl)).
  rewrite (patch_step (fun a => mbind (modify (set_u a)) _) s ua 2 ny nz 1 (-1) 1 0 1)
    by (auto; reflexivity).
  rewrite mbind_modify.
  erewrite (patch_step (fun a => modify (set_u a)) _ _ 2 ny nz (flt 2) (-1 + 1)%Z 0 0 1);
    [| reflexivity | apply shape3_tab3 | reflexivity | lia | lia].
  eexists. split; [reflexivity|].
  intros j k Hj Hk. arr. cbn [Nat.eqb]. split; unfold Qcdiv; ring.
Qed.

(** X7 after a solve on the 2 x 2 x 2 grid, for a target at the first
    node: the nearest node is 0 and does not lie upstream, so [i0 = -1]. *)
Lemma interp_on_two_planes_witness :
  exists s0 s ua xl,
    __init__ grid_222 = Ok s0
    /\ s = snd (solve Scipy.cg field_222 None None None 1 tol_1e8 s0)
    /\ u s = Some ua
    /\ line_x (r_x (region_at grid_222 0)) = Ok xl
    /\ exists ua',
         interp (region_at grid_222 0) s = (Ok tt, set_u ua' s)
         /\ forall j k, (j < 2)%nat -> (k < 2)%nat ->
              let f0 := at3 ua 0 j k in
              let f1 := at3 ua 1 j k in
              at3 ua' 1 j k = f0 + (f1 - f0) / flt 3
              /\ at3 ua' 0 j k = f0 + flt 2 * (at3 ua' 1 j k - f0) / flt 3.
Proof.
  do 4 eexists. split; [vm_compute; reflexivity|]. split; [reflexivity|].
  split; [vm_compute; reflexivity|]. split; [vm_compute; reflexivity|].
  eapply (interp_on_two_planes_reads_patched_plane _ (region_at grid_222 0) _ _ 0 2 2).
  - vm_compute; reflexivity.
  - vm_compute; reflexivity.
  - vm_compute; reflexivity.
  - vm_compute; reflexivity.
  - vm_compute; reflexivity.
Defined.

(** X8: the index [interp] selects brackets the target.  For coordinates
    that grow strictly along [x] and a target after the first node and not
    after the last, the nearest node moved upstream, [i0], is a node of the
    line with one node after it, and the target lies after node [i0] and
    not after node [i0 + 1]. *)
Theorem patch_index_brackets_target xl t n :
  increasing xl ->
  np_argmin (vabs (map (fun e => t - e) xl)) = Ok n ->
  nth 0 xl 0 < t -> t <= nth (length xl - 1) xl 0 ->
  let i0 := upstream_index xl t n in
  (0 <= i0)%Z /\ (i0 + 1 < Z.of_nat (length xl))%Z
  /\ nth (Z.to_nat i0) xl 0 < t /\ t <= nth (Z.to_nat i0 + 1) xl 0.
Proof.
  intros Hinc En H0 Hlast. cbn zeta.
  destruct (np_argmin_spec _ _ En) as (Hn & Hmin & _).
  unfold vabs in Hn. rewrite !length_map in Hn.
  assert (Hd : forall m, (m < length xl)%nat ->
                 Qcabs (t - nth n xl 0) <= Qcabs (t - nth m xl 0)).
  { intros m Hm. specialize (Hmin m).
    rewrite !nth_dist in Hmin by lia. apply Hmin. unfold vabs. now rewrite !length_map. }
  unfold upstream_index. destruct (Qcleb t (nth n xl 0)) eqn:E.
  - apply Qcleb_le in E.
    assert (Hn1 : (1 <= n)%nat).
    { destruct n; [|lia]. exfalso. exact (Qclt_not_le _ _ H0 E). }
    replace (Z.to_nat (Z.of_nat n - 1)) with (n - 1)%nat by lia.
    replace (n - 1 + 1)%nat with n by lia.
    repeat split; try lia; [|exact E].
    destruct (Qclt_le_dec (nth (n - 1) xl 0) t) as [L|L]; [exact L|]. exfalso.
    specialize (Hd (n - 1)%nat ltac:(lia)).
    rewrite (dist_above _ _ E), (dist_above _ _ L) in Hd.
    apply (Qclt_not_le _ _ (Qclt_sub_r _ _ t (Hinc (n - 1)%nat n ltac:(lia) Hn)) Hd).
  - assert (L : nth n xl 0 < t).
    { apply Qcnot_le_lt. intros C. apply Qcleb_le in C. congruence. }
    assert (Hn1 : (n + 1 < length xl)%nat).
    { destruct (Nat.eq_dec n (length xl - 1)) as [->|]; [|lia].
      exfalso. exact (Qclt_not_le _ _ L Hlast). }
    rewrite Nat2Z.id. repeat split; try lia; [exact L|].
    destruct (Qclt_le_dec (nth (n + 1) xl 0) t) as [L'|L']; [|exact L']. exfalso.
    specialize (Hd (n + 1)%nat Hn1).
    rewrite (dist_below _ _ (Qclt_le_weak _ _ L)),
            (dist_below _ _ (Qclt_le_weak _ _ L')) in Hd.
    apply (Qclt_not_le _ _
             (Qclt_sub_l _ _ t (Hinc n (n + 1)%nat ltac:(lia) Hn1)) Hd).
Qed.

(** X8 on the line [0, 1, 2, 3] with the target [3/2]. *)
Lemma patch_index_brackets_target_witness :
  let xl := [flt 0; flt 1; flt 2; flt 3] in
  let t := Q2Qc (3 # 2) in
  let i0 := upstream_index xl t 1 in
  (0 <= i0)%Z /\ (i0 + 1 < Z.of_nat (length xl))%Z
  /\ nth (Z.to_nat i0) xl 0 < t /\ t <= nth (Z.to_nat i0 + 1) xl 0.
Proof.
  apply (patch_index_brackets_target [flt 0; flt 1; flt 2; flt 3] (Q2Qc (3 # 2)) 1).
  - intros a b Hab Hb. cbn [length] in Hb.
    destruct b as [|[|[|[|b]]]]; destruct a as [|[|[|a]]]; try lia;
      vm_compute; reflexivity.
  - vm_compute; reflexivity.
  - vm_compute; reflexivity.
  - vm_compute; discriminate.
Defined.

End PatchFacts.

(** ** When the constructor succeeds *)

Lemma line_x_eq a nx ny nz :
  shape3 a = (nx, ny, nz) -> (1 <= ny)%nat -> (1 <= nz)%nat ->
  line_x a = Ok (map (fun i => at3 a i 0 0) (seq 0 nx)).
Proof.
  intros Sa Hy Hz. unfold line_x. rewrite Sa.
  now rewrite (norm_index_0 ny), (norm_index_0 nz) by lia.
Qed.

Lemma line_y_eq a nx ny nz :
  shape3 a = (nx, ny, nz) -> (1 <= nx)%nat -> (1 <= nz)%nat ->
  line_y a = Ok (map (fun j => at3 a 0 j 0) (seq 0 ny)).
Proof.
  intros Sa Hx Hz. unfold line_y. rewrite Sa.
  now rewrite (norm_index_0 nx), (norm_index_0 nz) by lia.
Qed.

Lemma line_z_eq a nx ny nz :
  shape3 a = (nx, ny, nz) -> (1 <= nx)%nat -> (1 <= ny)%nat ->
  line_z a = Ok (map (fun k => at3 a 0 0 k) (seq 0 nz)).
Proof.
  intros Sa Hx Hy. unfold line_z. rewrite Sa.
  now rewrite (norm_index_0 nx), (norm_index_0 ny) by lia.
Qed.

Lemma norm_index_empty i : norm_index 0 i = Raise IndexError.
Proof. apply norm_index_out. lia. Qed.

Lemma np_diff_head l :
  (2 <= length l)%nat -> exists d, np_diff l = (nth 1 l 0 - nth 0 l 0) :: d.
Proof.
  destruct l as [|a [|b t]]; simpl; try lia. intros _. eexists. reflexivity.
Qed.

Lemma np_diff_short l : (length l <= 1)%nat -> np_diff l = [].
Proof. destruct l as [|a [|b t]]; simpl; try lia; reflexivity. Qed.

Lemma assert_spacing_empty : PressureField.assert_spacing [] = Raise IndexError.
Proof. reflexivity. Qed.

Lemma np_argmin_total v : v <> [] -> exists k, np_argmin v = Ok k.
Proof. destruct v; [congruence|]. intros _. eexists. reflexivity. Qed.

Module ConstructionFacts.
Import PressureField SetupFacts.

(** X9: on mesh arrays of one shape the constructor returns an object
    exactly when every axis has at least two nodes, and then records the
    shape, the number of nodes and, as [dx], [dy], [dz], the first spacing
    of each axis; with fewer than two nodes along some axis it raises
    [IndexError].  (No spacing is ever rejected.) *)
Theorem construction_needs_two_nodes_per_axis ff nx ny nz :
  shape3 (ff_x ff) = (nx, ny, nz) ->
  shape3 (ff_y ff) = (nx, ny, nz) ->
  shape3 (ff_z ff) = (nx, ny, nz) ->
  ((2 <= nx /\ 2 <= ny /\ 2 <= nz)%nat ->
   exists s,
     __init__ ff = Ok s
     /\ grid_shape s = (nx, ny, nz) /\ N (geom s) = (nx * ny * nz)%nat
     /\ dx (geom s) = at3 (ff_x ff) 1 0 0 - at3 (ff_x ff) 0 0 0
     /\ dy (geom s) = at3 (ff_y ff) 0 1 0 - at3 (ff_y ff) 0 0 0
     /\ dz (geom s) = at3 (ff_z ff) 0 0 1 - at3 (ff_z ff) 0 0 0)
  /\ (~ (2 <= nx /\ 2 <= ny /\ 2 <= nz)%nat -> __init__ ff = Raise IndexError).
Proof.
  intros Sx Sy Sz. split.
  - intros (Hx & Hy & Hz). unfold __init__. rewrite Sx.
    rewrite (line_x_eq _ nx ny nz Sx), (line_y_eq _ nx ny nz Sy),
            (line_z_eq _ nx ny nz Sz) by lia.
    cbn [rbind].
    destruct (np_diff_head (map (fun i => at3 (ff_x ff) i 0 0) (seq 0 nx)))
      as (tx & Ex); [rewrite length_map, length_seq; lia|].
    destruct (np_diff_head (map (fun j => at3 (ff_y ff) 0 j 0) (seq 0 ny)))
      as (ty & Ey); [rewrite length_map, length_seq; lia|].
    destruct (np_diff_head (map (fun k => at3 (ff_z ff) 0 0 k) (seq 0 nz)))
      as (tz & Ez); [rewrite length_map, length_seq; lia|].
    rewrite !nth_tab in Ex, Ey, Ez by lia.
    rewrite Ex, Ey, Ez. rewrite !Construction.assert_spacing_passes. cbn [rbind].
    unfold vget. cbn [length].
    do 3 (rewrite (norm_index_0 (S _)) by lia; cbn [rbind nth]).
    cbv zeta. rewrite setup_LHS_run by (cbn; lia).
    unfold DEBUG.
    destruct (np_argmin_total
                (vabs (vsubs (map (fun k => at3 (ff_z ff) 0 0 k) (seq 0 nz)) (flt 90))))
      as (k & Ek).
    { intros C. apply (f_equal (@length _)) in C. unfold vabs, vsubs in C.
      rewrite !length_map, length_seq in C. simpl in C. lia. }
    rewrite Ek. cbn [rbind].
    eexists. split; [reflexivity|]. repeat split; reflexivity.
  - intros Hno. unfold __init__. rewrite Sx.
    destruct (Nat.eq_dec ny 0) as [->|Hy0].
    { unfold line_x. rewrite Sx, norm_index_empty. reflexivity. }
    destruct (Nat.eq_dec nz 0) as [->|Hz0].
    { unfold line_x. rewrite Sx, (norm_index_0 ny), norm_index_empty by lia. reflexivity. }
    rewrite (line_x_eq _ nx ny nz Sx) by lia. cbn [rbind].
    destruct (Nat.eq_dec nx 0) as [->|Hx0].
    { unfold line_y. rewrite Sy, norm_index_empty. reflexivity. }
    rewrite (line_y_eq _ nx ny nz Sy), (line_z_eq _ nx ny nz Sz) by lia. cbn [rbind].
    destruct (Nat.le_gt_cases 2 nx) as [Hx|Hx].
    2:{ rewrite (np_diff_short (map _ (seq 0 nx)))
          by (rewrite length_map, length_seq; lia).
        reflexivity. }
    destruct (np_diff_head (map (fun i => at3 (ff_x ff) i 0 0) (seq 0 nx)))
      as (tx & Ex); [rewrite length_map, length_seq; lia|].
    rewrite Ex, Construction.assert_spacing_passes. cbn [rbind].
    destruct (Nat.le_gt_cases 2 ny) as [Hy|Hy].
    2:{ rewrite (np_diff_short (map _ (seq 0 ny)))
          by (rewrite length_map, length_seq; lia).
        reflexivity. }
    destruct (np_diff_head (map (fun j => at3 (ff_y ff) 0 j 0) (seq 0 ny)))
      as (ty & Ey); [rewrite length_map, length_seq; lia|].
    rewrite Ey, Construction.assert_spacing_passes. cbn [rbind].
    assert (Hz : (nz <= 1)%nat) by lia.
    rewrite (np_diff_short (map _ (seq 0 nz)))
      by (rewrite length_map, length_seq; lia).
    reflexivity.
Qed.

(** X9 on the mesh of the 2 x 2 x 2 grid. *)
Lemma construction_witness :
  ((2 <= 2 /\ 2 <= 2 /\ 2 <= 2)%nat ->
   exists s,
     __init__ grid_222 = Ok s
     /\ grid_shape s = (2, 2, 2)%nat /\ N (geom s) = (2 * 2 * 2)%nat
     /\ dx (geom s) = at3 (ff_x grid_222) 1 0 0 - at3 (ff_x grid_222) 0 0 0
     /\ dy (geom s) = at3 (ff_y grid_222) 0 1 0 - at3 (ff_y grid_222) 0 0 0
     /\ dz (geom s) = at3 (ff_z grid_222) 0 0 1 - at3 (ff_z grid_222) 0 0 0)
  /\ (~ (2 <= 2 /\ 2 <= 2 /\ 2 <= 2)%nat -> __init__ grid_222 = Raise IndexError).
Proof.
  apply (construction_needs_two_nodes_per_axis grid_222 2 2 2); reflexivity.
Defined.

End ConstructionFacts.

(** ** Predictors the projection leaves alone *)

Module FixedPoints.
Import PressureField SolveFacts.

(** X10: a predictor whose finite-difference divergence is zero at every
    node is returned as it is, and the pressure stored is zero, when the
    solver answers the zero right-hand side from the zero guess with the
    zero vector and flag 0 ([A] and the spacings non-zero). *)
Theorem divergence_free_predictor_is_returned cg s u_wake v_wake w_wake A tol m :
  ready s -> LHS s = Some m ->
  wf3 u_wake -> shape3 u_wake = grid_shape s ->
  shaped v_wake (grid_shape s) -> shaped w_wake (grid_shape s) ->
  let g := geom s in
  let va := predictor v_wake (grid_shape s) in
  let wa := predictor w_wake (grid_shape s) in
  wf3 va -> wf3 wa ->
  (forall i j k, (i < Nx g)%nat -> (j < Ny g)%nat -> (k < Nz g)%nat ->
     fd (Nx g) (dx g) (fun i => at3 u_wake i j k) i
     + fd (Ny g) (dy g) (fun j => at3 va i j k) j
     + fd (Nz g) (dz g) (fun k => at3 wa i j k) k = 0) ->
  A <> 0 -> dx g <> 0 -> dy g <> 0 -> dz g <> 0 ->
  cg m (np_zeros (N g)) (np_zeros (N g)) tol tol = Ok (np_zeros (N g), 0%Z) ->
  exists pa s',
    solve cg u_wake v_wake w_wake None A tol s = (Ok (u_wake, va, wa), s')
    /\ p s' = Some pa
    /\ shape3 pa = grid_shape s
    /\ forall i j k, (i < Nx g)%nat -> (j < Ny g)%nat -> (k < Nz g)%nat ->
                     at3 pa i j k = 0.
Proof.
  intros R HL Wu Su Sv Sw g va wa Wv Ww Hdiv HA Hdx Hdy Hdz Hcg. subst g.
  pose proof R as R'. destruct R'.
  pose proof (shape3_predictor _ _ Sv) as Pv. pose proof (shape3_predictor _ _ Sw) as Pw.
  fold va in Pv. fold wa in Pw.
  assert (Er : ravel (divergence (dx (geom s)) (dy (geom s)) (dz (geom s)) u_wake va wa)
               = np_zeros (N (geom s))).
  { unfold divergence, ravel. rewrite Su. unfold grid_shape.
    unfold tab3. cbn [buf3]. rewrite ready_N0.
    apply Solving.map_zero_seq. intros t Ht.
    destruct (encode3 _ _ _ t Ht) as (Hi & Hj & Hk & _).
    now apply Hdiv. }
  assert (Hcg' : cg m (vdivs (ravel (divergence (dx (geom s)) (dy (geom s)) (dz (geom s))
                                        u_wake va wa)) A)
                    (np_zeros (N (geom s))) tol tol = Ok (np_zeros (N (geom s)), 0%Z))
    by (rewrite Er, Solving.vdivs_zeros; exact Hcg).
  pose proof (solve_run cg s u_wake v_wake w_wake A tol m (np_zeros (N (geom s))) R HL Su
                Sv Sw Hcg' (repeat_length _ _)) as E.
  cbv zeta in E. fold va wa in E.
  set (pa := mk3 (grid_shape s) (np_zeros (N (geom s)))) in *.
  assert (Eu : corrected_u A (dx (geom s)) pa u_wake = u_wake).
  { apply (arr3_ext _ _ (Nx (geom s)) (Ny (geom s)) (Nz (geom s))); auto.
    - unfold corrected_u. rewrite Su. apply wf3_tab3.
    - now rewrite shape3_corrected_u.
    - intros i j k Hi Hj Hk. unfold corrected_u. rewrite Su. unfold grid_shape. arr.
      unfold pa. rewrite !Solving.at3_zeros.
      destruct (in_mid _ _); [unfold Qcdiv; ring | reflexivity]. }
  assert (Ev : corrected_v A (dy (geom s)) pa va = va).
  { apply (arr3_ext _ _ (Nx (geom s)) (Ny (geom s)) (Nz (geom s))); auto.
    - unfold corrected_v. rewrite Pv. apply wf3_tab3.
    - now rewrite shape3_corrected_v.
    - intros i j k Hi Hj Hk. unfold corrected_v. rewrite Pv. unfold grid_shape. arr.
      unfold pa. rewrite !Solving.at3_zeros.
      destruct (in_mid _ _); [unfold Qcdiv; ring | reflexivity]. }
  assert (Ew : corrected_w A (dz (geom s)) pa wa = wa).
  { apply (arr3_ext _ _ (Nx (geom s)) (Ny (geom s)) (Nz (geom s))); auto.
    - unfold corrected_w. rewrite Pw. apply wf3_tab3.
    - now rewrite shape3_corrected_w.
    - intros i j k Hi Hj Hk. unfold corrected_w. rewrite Pw. unfold grid_shape. arr.
      unfold pa. rewrite !Solving.at3_zeros.
      destruct (in_mid _ _); [unfold Qcdiv; ring | reflexivity]. }
  rewrite Eu, Ev, Ew in E.
  exists pa. eexists. split; [exact E|]. split; [reflexivity|]. split; [reflexivity|].
  intros. apply Solving.at3_zeros.
Qed.

(** X10 on the 2 x 2 x 2 grid, for the flow along [x] that varies along
    [y] only, with the solver of [Scipy]. *)
Lemma divergence_free_witness :
  exists s m,
    __init__ grid_222 = Ok s /\ LHS s = Some m /\
    exists pa s',
      solve Scipy.cg shear_222 None None None 1 tol_1e8 s
      = (Ok (shear_222, predictor None (grid_shape s), predictor None (grid_shape s)), s')
      /\ p s' = Some pa
      /\ shape3 pa = grid_shape s
      /\ forall i j k, (i < Nx (geom s))%nat -> (j < Ny (geom s))%nat ->
                       (k < Nz (geom s))%nat -> at3 pa i j k = 0.
Proof.
  do 2 eexists. split; [vm_compute; reflexivity|]. split; [vm_compute; reflexivity|].
  eapply (divergence_free_predictor_is_returned Scipy.cg _ shear_222 None None 1 tol_1e8).
  - apply (ReadyFacts.init_ready grid_222); [vm_compute; reflexivity | reflexivity | reflexivity].
  - vm_compute; reflexivity.
  - reflexivity.
  - reflexivity.
  - exact I.
  - exact I.
  - reflexivity.
  - reflexivity.
  - intros i j k Hi Hj Hk. cbn in Hi, Hj, Hk.
    destruct i as [|[|i]]; [| |lia]; (destruct j as [|[|j]]; [| |lia]);
      (destruct k as [|[|k]]; [| |lia]); vm_compute; reflexivity.
  - exact Q_apart_0_1.
  - intros H; apply (f_equal this) in H; vm_compute in H; discriminate H.
  - intros H; apply (f_equal this) in H; vm_compute in H; discriminate H.
  - intros H; apply (f_equal this) in H; vm_compute in H; discriminate H.
  - vm_compute; reflexivity.
Defined.

End FixedPoints.

(** ** Successive solves and the query on the corrected fields *)

Module Sequence.
Import PressureField PressureFieldFacts SolveFacts.

(** The sum of the gradients of the fields [u], [v], [w]. *)
Lemma div_true_eq s s0 ua va wa nx ny nz :
  u0 s = Some s0 -> u s = Some ua -> v s = Some va -> w s = Some wa ->
  shape3 s0 = (nx, ny, nz) ->
  shape3 ua = (nx, ny, nz) -> shape3 va = (nx, ny, nz) -> shape3 wa = (nx, ny, nz) ->
  (2 <= nx)%nat -> (2 <= ny)%nat -> (2 <= nz)%nat ->
  div true s
  = (Ok (tab3 (nx, ny, nz) (fun i j k =>
           0 + fd nx (dx (geom s)) (fun i => at3 ua i j k) i
           + fd ny (dy (geom s)) (fun j => at3 va i j k) j
           + fd nz (dz (geom s)) (fun k => at3 wa i j k) k)), s).
Proof.
  intros H0 Hu Hv Hw S0 Su Sv Sw Hnx Hny Hnz. unfold div.
  rewrite (mbind_attr _ _ _ _ Hu), (mbind_attr _ _ _ _ Hv), (mbind_attr _ _ _ _ Hw).
  erewrite mbind_ok
    by (apply (calc_gradients_eq s _ _ _ ua va wa s0 nx ny nz); auto).
  unfold lift, py_sum3, add3.
  erewrite zip3_eq
    by (first [ unfold map3; cbn [shape3]; rewrite shape3_grad_x; exact Su
              | rewrite shape3_grad_y; exact Sv ]).
  cbn [rbind].
  erewrite zip3_eq by (first [apply shape3_tab3 | rewrite shape3_grad_z; exact Sw]).
  do 2 f_equal. apply tab3_ext. intros i j k Hi Hj Hk.
  unfold grad_x, grad_y, grad_z. rewrite Su, Sv, Sw. arr. reflexivity.
Qed.

(** The attributes a solve stores overwrite those of the solve before. *)
Lemma restage_eq s s1 n m x y z r pa a b c :
  geom s1 = geom s -> LHS s1 = LHS s -> khub s1 = khub s ->
  set_Nsolves n
    (set_w c (set_v b (set_u a (set_p pa
       (set_RHS r (set_w0 z (set_v0 y (set_u0 x s1))))))))
  = set_Nsolves n
      (set_Nsolves m
         (set_w c (set_v b (set_u a (set_p pa
            (set_RHS r (set_w0 z (set_v0 y (set_u0 x s))))))))).
Proof.
  destruct s, s1. cbn. intros -> -> ->. reflexivity.
Qed.

(** X11: what a solve returns does not depend on the solves made before
    it on the same object.  After a successful solve on one predictor, a
    successful solve on a second predictor returns the same fields as it
    does on the object before the first, and leaves the same object but
    for the solve counter, which has counted both. *)
Theorem solve_forgets_earlier_solves cg s m
    u1 v1 w1 A1 tol1 pv1 u2 v2 w2 A2 tol2 pv2 :
  ready s -> LHS s = Some m ->
  let g := geom s in
  let sh := grid_shape s in
  let rhs u_wake v_wake w_wake :=
    ravel (divergence (dx g) (dy g) (dz g) u_wake
             (predictor v_wake sh) (predictor w_wake sh)) in
  shape3 u1 = sh -> shaped v1 sh -> shaped w1 sh ->
  cg m (vdivs (rhs u1 v1 w1) A1) (np_zeros (N g)) tol1 tol1 = Ok (pv1, 0%Z) ->
  length pv1 = N g ->
  shape3 u2 = sh -> shaped v2 sh -> shaped w2 sh ->
  cg m (vdivs (rhs u2 v2 w2) A2) (np_zeros (N g)) tol2 tol2 = Ok (pv2, 0%Z) ->
  length pv2 = N g ->
  let s1 := snd (solve cg u1 v1 w1 None A1 tol1 s) in
  let pa := mk3 sh pv2 in
  fst (solve cg u2 v2 w2 None A2 tol2 s1)
  = Ok (corrected_u A2 (dx g) pa u2,
        corrected_v A2 (dy g) pa (predictor v2 sh),
        corrected_w A2 (dz g) pa (predictor w2 sh))
  /\ fst (solve cg u2 v2 w2 None A2 tol2 s1) = fst (solve cg u2 v2 w2 None A2 tol2 s)
  /\ snd (solve cg u2 v2 w2 None A2 tol2 s1)
     = set_Nsolves (Nsolves s + 2) (snd (solve cg u2 v2 w2 None A2 tol2 s)).
Proof.
  intros R HL g sh rhs Su1 Sv1 Sw1 Hcg1 Hl1 Su2 Sv2 Sw2 Hcg2 Hl2 s1 pa.
  pose proof (solve_run cg s u1 v1 w1 A1 tol1 m pv1 R HL Su1 Sv1 Sw1 Hcg1 Hl1) as E1.
  pose proof (solve_run cg s u2 v2 w2 A2 tol2 m pv2 R HL Su2 Sv2 Sw2 Hcg2 Hl2) as E2.
  cbv zeta in E1, E2.
  assert (Es1 : s1 = snd (solve cg u1 v1 w1 None A1 tol1 s)) by reflexivity.
  clearbody s1. rewrite E1 in Es1. cbn [snd] in Es1.
  assert (R1 : ready s1)
    by (apply (SmoothedSolve.ready_frame s); [exact R | rewrite Es1; reflexivity ..]).
  assert (G1 : geom s1 = geom s) by (rewrite Es1; reflexivity).
  assert (HL1 : LHS s1 = Some m) by (rewrite Es1; exact HL).
  assert (Sh1 : grid_shape s1 = sh) by (unfold grid_shape, sh; now rewrite G1).
  pose proof (solve_run cg s1 u2 v2 w2 A2 tol2 m pv2 R1 HL1) as E3.
  cbv zeta in E3. rewrite Sh1, G1 in E3.
  specialize (E3 Su2 Sv2 Sw2 Hcg2 Hl2).
  rewrite E3, E2. cbn [fst snd]. fold g sh pa.
  split; [reflexivity|]. split; [reflexivity|].
  assert (N1 : Nsolves s1 = (Nsolves s + 1)%nat) by (rewrite Es1; reflexivity).
  assert (L1 : LHS s1 = LHS s) by (rewrite Es1; reflexivity).
  assert (K1 : khub s1 = khub s) by (rewrite Es1; reflexivity).
  rewrite N1. unfold staged. rewrite G1.
  replace (Nsolves s + 1 + 1)%nat with (Nsolves s + 2)%nat by lia.
  apply restage_eq; assumption.
Qed.

(** X11 on the 2 x 2 x 2 grid: the zero predictor first, then the flow
    that varies along [y] only, with the solver of [Scipy]. *)
Lemma solve_forgets_witness :
  exists s,
    __init__ grid_222 = Ok s /\
    let g := geom s in
    let sh := grid_shape s in
    let s1 := snd (solve Scipy.cg (np_zeros3 (2, 2, 2)%nat) None None None 1 tol_1e8 s) in
    let pa := mk3 sh (np_zeros 8) in
    fst (solve Scipy.cg shear_222 None None None 1 tol_1e8 s1)
    = Ok (corrected_u 1 (dx g) pa shear_222,
          corrected_v 1 (dy g) pa (predictor None sh),
          corrected_w 1 (dz g) pa (predictor None sh))
    /\ fst (solve Scipy.cg shear_222 None None None 1 tol_1e8 s1)
       = fst (solve Scipy.cg shear_222 None None None 1 tol_1e8 s)
    /\ snd (solve Scipy.cg shear_222 None None None 1 tol_1e8 s1)
       = set_Nsolves (Nsolves s + 2)
           (snd (solve Scipy.cg shear_222 None None None 1 tol_1e8 s)).
Proof.
  eexists. split; [vm_compute; reflexivity|].
  eapply (solve_forgets_earlier_solves Scipy.cg _ _
            (np_zeros3 (2, 2, 2)%nat) None None 1 tol_1e8 (np_zeros 8)
            shear_222 None None 1 tol_1e8 (np_zeros 8)).
  - apply (ReadyFacts.init_ready grid_222); [vm_compute; reflexivity | reflexivity | reflexivity].
  - vm_compute; reflexivity.
  - reflexivity.
  - exact I.
  - exact I.
  - vm_compute; reflexivity.
  - reflexivity.
  - reflexivity.
  - exact I.
  - exact I.
  - vm_compute; reflexivity.
  - reflexivity.
Defined.

(** X12: after a successful solve without smoothing, the query
    [div(corrected=True)] leaves the object as it is and returns, at every
    node, the sum started at zero of the finite differences of the
    returned [u] along [x], [v] along [y] and [w] along [z]: central in
    the interior, one-sided at the first and the last node of the axis. *)
Theorem div_of_corrected_after_solve cg s u_wake v_wake w_wake A tol m pv :
  ready s -> LHS s = Some m ->
  shape3 u_wake = grid_shape s ->
  shaped v_wake (grid_shape s) -> shaped w_wake (grid_shape s) ->
  let g := geom s in
  let sh := grid_shape s in
  let rhs := ravel (divergence (dx g) (dy g) (dz g) u_wake
                      (predictor v_wake sh) (predictor w_wake sh)) in
  cg m (vdivs rhs A) (np_zeros (N g)) tol tol = Ok (pv, 0%Z) ->
  length pv = N g ->
  exists ua va wa s' d,
    solve cg u_wake v_wake w_wake None A tol s = (Ok (ua, va, wa), s')
    /\ div true s' = (Ok d, s')
    /\ shape3 d = sh
    /\ forall i j k, (i < Nx g)%nat -> (j < Ny g)%nat -> (k < Nz g)%nat ->
         at3 d i j k
         = 0 + fd (Nx g) (dx g) (fun i => at3 ua i j k) i
           + fd (Ny g) (dy g) (fun j => at3 va i j k) j
           + fd (Nz g) (dz g) (fun k => at3 wa i j k) k.
Proof.
  intros R HL Su Sv Sw g sh rhs Hcg Hl.
  pose proof (solve_run cg s u_wake v_wake w_wake A tol m pv R HL Su Sv Sw Hcg Hl) as E.
  cbv zeta in E. fold g sh in E.
  pose proof (shape3_predictor _ _ Sv) as Pv. pose proof (shape3_predictor _ _ Sw) as Pw.
  fold sh in Pv, Pw.
  destruct R.
  match type of E with
  | _ = (Ok (?a, ?b, ?c), ?t) =>
      set (ua := a) in *; set (va := b) in *; set (wa := c) in *; set (s' := t) in *
  end.
  assert (D : div true s' = _)
    by (apply (div_true_eq s' u_wake ua va wa (Nx g) (Ny g) (Nz g));
        try reflexivity; try assumption;
        [ unfold ua; now rewrite shape3_corrected_u
        | unfold va; now rewrite shape3_corrected_v
        | unfold wa; now rewrite shape3_corrected_w ]).
  exists ua, va, wa, s'. eexists. split; [exact E|]. split; [exact D|]. split.
  - apply shape3_tab3.
  - intros i j k Hi Hj Hk. now rewrite at3_tab3.
Qed.

(** X12 on the 2 x 2 x 2 grid and the predictor [shear_222]. *)
Lemma div_of_corrected_witness :
  exists s m,
    __init__ grid_222 = Ok s /\ LHS s = Some m /\
    let g := geom s in
    let sh := grid_shape s in
    exists ua va wa s' d,
      solve Scipy.cg shear_222 None None None 1 tol_1e8 s = (Ok (ua, va, wa), s')
      /\ div true s' = (Ok d, s')
      /\ shape3 d = sh
      /\ forall i j k, (i < Nx g)%nat -> (j < Ny g)%nat -> (k < Nz g)%nat ->
           at3 d i j k
           = 0 + fd (Nx g) (dx g) (fun i => at3 ua i j k) i
             + fd (Ny g) (dy g) (fun j => at3 va i j k) j
             + fd (Nz g) (dz g) (fun k => at3 wa i j k) k.
Proof.
  do 2 eexists. split; [vm_compute; reflexivity|]. split; [vm_compute; reflexivity|].
  eapply (div_of_corrected_after_solve Scipy.cg _ shear_222 None None 1 tol_1e8 _
            (np_zeros 8)).
  - apply (ReadyFacts.init_ready grid_222); [vm_compute; reflexivity | reflexivity | reflexivity].
  - vm_compute; reflexivity.
  - reflexivity.
  - exact I.
  - exact I.
  - vm_compute; reflexivity.
  - reflexivity.
Defined.

End Sequence.

(** ** What a solve cannot do *)

Module Limits.
Import PressureField Frames.

(** X13: a predictor with fewer than two planes along [x] makes [solve]
    raise [IndexError] in the gradient of [u], whatever the grid, the
    other arguments and the solver: by then the predictor is stored in
    [u0], [v0], [w0], and nothing else of the object has changed, so the
    right-hand side, the pressure and the corrected fields are those of
    the solve before. *)
Theorem solve_on_a_single_plane_raises cg s u_wake v_wake w_wake reg A tol nx ny nz :
  shape3 u_wake = (nx, ny, nz) -> (nx <= 1)%nat ->
  solve cg u_wake v_wake w_wake reg A tol s
  = (Raise IndexError,
     set_w0 (predictor w_wake (nx, ny, nz))
       (set_v0 (predictor v_wake (nx, ny, nz)) (set_u0 u_wake s))).
Proof.
  intros Su Hnx. unfold solve. rewrite mbind_modify.
  set (s3 := set_w0 (predictor w_wake (nx, ny, nz))
               (set_v0 (predictor v_wake (nx, ny, nz)) (set_u0 u_wake s))).
  assert (E : forall T (k' : M self T),
    ((match v_wake with
      | None => do a <- attr u0; modify (set_v0 (np_zeros3 (shape3 a)))
      | Some b => modify (set_v0 (copy3 b))
      end);;
     (match w_wake with
      | None => do a <- attr u0; modify (set_w0 (np_zeros3 (shape3 a)))
      | Some b => modify (set_w0 (copy3 b))
      end);; k') (set_u0 (copy3 u_wake) s) = k' s3).
  { intros T' k'. unfold s3. rewrite <- Su. destruct v_wake, w_wake; reflexivity. }
  rewrite E. apply mbind_raise.
  unfold update_RHS. apply mbind_raise.
  unfold _calc_gradients, or_attr.
  rewrite (mbind_attr u0 _ s3 u_wake) by reflexivity.
  rewrite (mbind_attr v0 _ s3 (predictor v_wake (nx, ny, nz))) by reflexivity.
  rewrite (mbind_attr w0 _ s3 (predictor w_wake (nx, ny, nz))) by reflexivity.
  rewrite mbind_reads.
  rewrite (mbind_attr u0 _ s3 u_wake) by reflexivity.
  apply mbind_raise. unfold lift, get_x. rewrite Su.
  rewrite (norm_index_out nx 1) by lia. reflexivity.
Qed.

(** X13 on the object of the 2 x 2 x 2 grid and a predictor of
    1 x 2 x 2 nodes. *)
Lemma solve_on_a_single_plane_witness :
  exists s,
    __init__ grid_222 = Ok s /\
    solve Scipy.cg field_122 None None None 1 tol_1e8 s
    = (Raise IndexError,
       set_w0 (predictor None (1, 2, 2)%nat)
         (set_v0 (predictor None (1, 2, 2)%nat) (set_u0 field_122 s))).
Proof.
  eexists. split; [vm_compute; reflexivity|].
  apply (solve_on_a_single_plane_raises Scipy.cg _ field_122 None None None 1 tol_1e8
           1 2 2); [reflexivity | lia].
Defined.

(** X14: no call of [solve], with or without smoothing, returning or
    raising, changes the grid attributes, the operator built by the
    constructor or the hub index. *)
Theorem solve_never_touches_grid_or_operator cg s u_wake v_wake w_wake reg A tol :
  let s' := snd (solve cg u_wake v_wake w_wake reg A tol s) in
  geom s' = geom s /\ LHS s' = LHS s /\ khub s' = khub s.
Proof.
  cbv zeta. repeat split; apply solve_frame; reflexivity.
Qed.

End Limits.
